(** * Network inspector (server.js): resource discovery and probe engine

    A shallow embedding of [server.js]: the URL safety filter, the URL
    resolver, the CSS [url(...)] extractor, the probe with its HEAD/GET
    fallback, and the [/api/inspect] handler (HTML discovery, stylesheet
    crawl, batched probing, report assembly).

    Conventions.
    - A JS string is a [string] of code units below 256.
    - A JS number is a double. The program meets the doubles that hold an
      integer (a [Z]), the infinities and [NaN]; the two zeros are not told
      apart (both are falsy, and both are written 0).
    - [null]/[undefined] are [None].
    - The [url] field of a request body is a JSON value ([Js.json]), or
      missing.
    - A response body has a text and a number of bytes, kept apart.
    - The platform pieces the program calls but does not define (the URL
      class, the HTML parser behind [cheerio.load]) are the fields of the
      class [Platform]; the network is an oracle [Net], which also says how
      long each request takes.
    - The probes of a batch run together: their HEAD requests go out at
      once, and each probe goes on when its reply arrives. *)

From Stdlib Require Import List String Ascii ZArith Lia Bool Arith.
Import ListNotations.
Local Open Scope string_scope.

Set Implicit Arguments.

(** ** JS string built-ins used by the program *)

Module Js.

(** [\s] in a regular expression, and the characters removed by [trim]
    and skipped by [parseInt]: TAB, LF, VT, FF, CR, SP, NBSP. *)
Definition isWhiteSpace (c : ascii) : bool :=
  let n := nat_of_ascii c in
  (Nat.leb 9 n && Nat.leb n 13) || Nat.eqb n 32 || Nat.eqb n 160.

Definition isDigit (c : ascii) : bool :=
  let n := nat_of_ascii c in Nat.leb 48 n && Nat.leb n 57.

(** The code units below 256 that have a lower-case form: A-Z, and the
    accented capitals 192-222 but for the multiplication sign 215. *)
Definition isUpper (c : ascii) : bool :=
  let n := nat_of_ascii c in
  (Nat.leb 65 n && Nat.leb n 90)
  || (Nat.leb 192 n && Nat.leb n 222 && negb (Nat.eqb n 215)).

Definition lowerChar (c : ascii) : ascii :=
  if isUpper c then ascii_of_nat (nat_of_ascii c + 32) else c.

(** [s.toLowerCase()] *)
Fixpoint toLowerCase (s : string) : string :=
  match s with
  | EmptyString => EmptyString
  | String c t => String (lowerChar c) (toLowerCase t)
  end.

(** [s.startsWith(p)]; also [/^p/.test(s)] for a literal [p]. *)
Definition startsWith (s p : string) : bool := String.prefix p s.

(** [s.endsWith(suf)]. *)
Fixpoint endsWith (s suf : string) : bool :=
  String.eqb s suf ||
  match s with
  | EmptyString => false
  | String _ t => endsWith t suf
  end.

Fixpoint trimStart (s : string) : string :=
  match s with
  | String c t => if isWhiteSpace c then trimStart t else s
  | EmptyString => EmptyString
  end.

Fixpoint rev_string (s acc : string) : string :=
  match s with
  | EmptyString => acc
  | String c t => rev_string t (String c acc)
  end.

Definition trimEnd (s : string) : string :=
  rev_string (trimStart (rev_string s "")) "".

(** [s.trim()]. *)
Definition trim (s : string) : string := trimEnd (trimStart s).

(** [s.split(sep)] for a one-character separator. *)
Fixpoint splitChar (sep : ascii) (s : string) (cur : string) : list string :=
  match s with
  | EmptyString => [rev_string cur ""]
  | String c t =>
      if Ascii.eqb c sep then rev_string cur "" :: splitChar sep t ""
      else splitChar sep t (String c cur)
  end.

Definition split (sep : ascii) (s : string) : list string := splitChar sep s "".

(** [s.split(/\s+/)]: the pieces between maximal runs of white space. *)
Fixpoint splitWs (s : string) (cur : string) (inRun : bool) : list string :=
  match s with
  | EmptyString => [rev_string cur ""]
  | String c t =>
      if isWhiteSpace c then
        if inRun then splitWs t cur true
        else rev_string cur "" :: splitWs t "" true
      else splitWs t (String c cur) false
  end.

Definition splitWhiteSpace (s : string) : list string := splitWs s "" false.

(** A JS number as the program meets it: [NaN], an infinity (with its
    sign), or a double that holds an integer. *)
Inductive number : Type :=
| NaN : number
| Infinity : bool -> number
| Int : Z -> number.

Fixpoint digitsValue (s : string) (acc : Z) : Z :=
  match s with
  | String c t =>
      if isDigit c then digitsValue t (10 * acc + Z.of_nat (nat_of_ascii c - 48))
      else acc
  | EmptyString => acc
  end.

Definition startsWithDigit (s : string) : bool :=
  match s with
  | String c _ => isDigit c
  | EmptyString => false
  end.

(** The double nearest to the integer [v >= 0]: [v] itself below 2^53;
    above, [v] rounded to 53 significant bits, a tie going to the even
    significand; [None] when the rounded value passes the largest double
    (2^1024 and beyond). *)
Definition nearestDouble (v : Z) : option Z :=
  if (v <? 2 ^ 53)%Z then Some v
  else
    let e := (Z.log2 v - 52)%Z in
    let q := Z.shiftr v e in
    let r := (v - Z.shiftl q e)%Z in
    let half := Z.shiftl 1 (e - 1) in
    let q' := if (half <? r)%Z || ((r =? half)%Z && Z.odd q)
              then (q + 1)%Z else q in
    let d := Z.shiftl q' e in
    if (2 ^ 1024 <=? d)%Z then None else Some d.

(** [parseInt(s, 10)]: leading white space is skipped, one sign is read,
    then the longest run of decimal digits; no digit gives [NaN]. The
    value of the digits is rounded to the nearest double. *)
Definition parseInt (s : string) : number :=
  let t := trimStart s in
  let '(neg, d) :=
    match t with
    | String "-" r => (true, r)
    | String "+" r => (false, r)
    | _ => (false, t)
    end in
  if startsWithDigit d
  then match nearestDouble (digitsValue d 0) with
       | Some v => Int (if neg then - v else v)
       | None => Infinity neg
       end
  else NaN.

(** [!v] for a value that is [null] or a number. *)
Definition falsyNumber (v : option number) : bool :=
  match v with
  | None => true
  | Some NaN => true
  | Some (Infinity _) => false
  | Some (Int z) => Z.eqb z 0
  end.

(** [isNaN(v)] for a value that is [null] or a number ([null] converts
    to 0). *)
Definition isNaN (v : option number) : bool :=
  match v with
  | Some NaN => true
  | _ => false
  end.

(** [!s] for a value that is [null]/[undefined] or a string. *)
Definition falsyString (v : option string) : bool :=
  match v with
  | None => true
  | Some s => String.eqb s ""
  end.

(** [a || b] on such values. *)
Definition or (a b : option string) : option string :=
  if falsyString a then b else a.

(** Conversion of an argument to a string where the callee expects one:
    [undefined] becomes the text "undefined". *)
Definition toUSVString (v : option string) : string :=
  match v with
  | Some s => s
  | None => "undefined"
  end.

(** A value parsed from JSON, as far as the program tells values apart:
    of a number it only looks at whether it is zero ([JNumber true]) or
    not ([JNumber false]), of an array or an object at nothing. *)
Inductive json : Type :=
| JNull : json
| JBool : bool -> json
| JNumber : forall isZero : bool, json
| JString : string -> json
| JArray : json
| JObject : json.

(** [!!v] for a field that is missing ([undefined]) or holds a JSON
    value. *)
Definition truthy (v : option json) : bool :=
  match v with
  | None => false
  | Some JNull => false
  | Some (JBool b) => b
  | Some (JNumber isZero) => negb isZero
  | Some (JString s) => negb (String.eqb s "")
  | Some JArray => true
  | Some JObject => true
  end.

(** [v || ''] *)
Definition orEmpty (v : option json) : json :=
  match v with
  | Some x => if truthy v then x else JString ""
  | None => JString ""
  end.

End Js.

(** ** A backtracking matcher for the regular expressions of the program *)

Module Regex.

(** The constructs the program's patterns use. Repetition is over
    character classes only, and is greedy. *)
Inductive re : Type :=
| Chr : ascii -> re
| Star : (ascii -> bool) -> re
| Plus : (ascii -> bool) -> re
| Opt : (ascii -> bool) -> re
| Group : re -> re
| Seq : re -> re -> re.

Section Matcher.
Variable R : Type.

(** The text consumed between [s] and its suffix [rest]. *)
Definition consumed (s rest : string) : string :=
  substring 0 (String.length s - String.length rest) s.

(** Greedy repetition: take one more character when the class allows
    it and the rest of the pattern then matches; otherwise stop here. *)
Fixpoint star (p : ascii -> bool) (s : string) (k : string -> option R)
  : option R :=
  match s with
  | String c t =>
      if p c then
        match star p t k with
        | Some r => Some r
        | None => k s
        end
      else k s
  | EmptyString => k s
  end.

(** [run r s caps k]: match [r] at the start of [s]; [k] receives the
    unread suffix and the captures made so far; [None] backtracks. *)
Fixpoint run (r : re) (s : string) (caps : list string)
         (k : string -> list string -> option R) : option R :=
  match r with
  | Chr c =>
      match s with
      | String d t => if Ascii.eqb c d then k t caps else None
      | EmptyString => None
      end
  | Star p => star p s (fun rest => k rest caps)
  | Plus p =>
      match s with
      | String d t => if p d then star p t (fun rest => k rest caps) else None
      | EmptyString => None
      end
  | Opt p =>
      match s with
      | String d t =>
          if p d then
            match k t caps with
            | Some x => Some x
            | None => k s caps
            end
          else k s caps
      | EmptyString => k s caps
      end
  | Group r1 =>
      run r1 s caps (fun rest caps' => k rest (caps' ++ [consumed s rest])%list)
  | Seq r1 r2 =>
      run r1 s caps (fun rest caps' => run r2 rest caps' k)
  end.
End Matcher.

(** A match starting exactly at the head of [s]: the unread suffix and
    the captures. *)
Definition matchHere (r : re) (s : string) : option (string * list string) :=
  run r s [] (fun rest caps => Some (rest, caps)).

(** [while ((m = re.exec(text)) !== null)] with the [g] flag: the
    leftmost match from [lastIndex], then on from the end of that match.
    Collects [m[1]] of every match. [fuel] bounds the number of steps
    (one per start position tried). *)
Fixpoint execAll (fuel : nat) (r : re) (s : string) : list string :=
  match fuel with
  | O => []
  | S fuel' =>
      match matchHere r s with
      | Some (rest, caps) => nth 0 caps "" :: execAll fuel' r rest
      | None =>
          match s with
          | String _ t => execAll fuel' r t
          | EmptyString => []
          end
      end
  end.

Fixpoint lit (s : string) : re -> re :=
  match s with
  | EmptyString => fun r => r
  | String c t => fun r => Seq (Chr c) (lit t r)
  end.

End Regex.

(** ** The platform: URL class and HTML parser *)

(** What the program reads of a [URL] object. *)
Record URL : Type := mkURL {
  protocol : string;
  hostname : string;
  href : string
}.

(** An element of the parsed page: [$(el).attr(name)] looks [name] up in
    [el_attrs], [$(el).html()] is [el_html]. *)
Record Element : Type := mkElement {
  el_tag : string;
  el_attrs : list (string * string);
  el_html : string
}.

Class Platform : Type := {
  (** [new URL(url, base)], [new URL(url)] when [base] is [None]; [None]
      when the constructor throws. *)
  newURL : string -> option string -> option URL;
  (** [cheerio.load(html)]: the elements of the page in document order. *)
  cheerio_load : string -> list Element
}.

(** ** Constants (server.js:12-15) *)

Definition MAX_RESOURCES : nat := 200.
Definition TIMEOUT : Z := 20000.
Definition CSS_FETCH_TIMEOUT : Z := 8000.
Definition CONCURRENCY : nat := 8.

(** ** Safety filter, resolver, CSS extractor (server.js:17-48) *)

Section Urls.
Context {P : Platform}.

Definition isBlockedUrl (u : string) : bool :=
  match newURL u None with
  | Some url =>
      if negb (String.eqb (protocol url) "http:" || String.eqb (protocol url) "https:")
      then true
      else
        let host := Js.toLowerCase (hostname url) in
        if String.eqb host "localhost" || String.eqb host "127.0.0.1"
           || String.eqb host "::1" then true
        else if Js.endsWith host ".local" then true
        else if Js.startsWith host "10." || Js.startsWith host "127."
                || Js.startsWith host "192.168." || Js.startsWith host "169.254."
             then true
        else false
  | None => true
  end.

(** [relative] may be [undefined] (a missing attribute): the constructor
    converts its argument to a string. *)
Definition absoluteUrl (base : string) (relative : option string) : option string :=
  match newURL (Js.toUSVString relative) (Some base) with
  | Some url => Some (href url)
  | None => None
  end.

Definition isQuote (c : ascii) : bool :=
  Nat.eqb (nat_of_ascii c) 39 || Nat.eqb (nat_of_ascii c) 34.

Definition notQuoteNorParen (c : ascii) : bool :=
  negb (isQuote c || Nat.eqb (nat_of_ascii c) 41).

(** The pattern of [findCssUrls]: the text url and an opening
    parenthesis, white space, an optional quote (single or double), the
    captured group of one or more characters that are neither a quote
    nor a closing parenthesis, an optional quote, white space, the
    closing parenthesis. *)
Definition cssUrlRe : Regex.re :=
  Regex.lit "url("
    (Regex.Seq (Regex.Star Js.isWhiteSpace)
    (Regex.Seq (Regex.Opt isQuote)
    (Regex.Seq (Regex.Group (Regex.Plus notQuoteNorParen))
    (Regex.Seq (Regex.Opt isQuote)
    (Regex.Seq (Regex.Star Js.isWhiteSpace)
               (Regex.Chr ")")))))).

(** [if (u) urls.push(u)] *)
Definition keepResolved (base : string) (m1 : string) : list string :=
  match absoluteUrl base (Some m1) with
  | Some u => if String.eqb u "" then [] else [u]
  | None => []
  end.

Definition findCssUrls (cssText base : string) : list string :=
  flat_map (keepResolved base)
           (Regex.execAll (S (String.length cssText)) cssUrlRe cssText).

End Urls.

(** ** The network and the clock *)

Inductive Method : Type := HEAD | GET.

Record Request : Type := mkRequest {
  rq_method : Method;
  rq_url : string;
  rq_timeout : Z
}.

(** A thrown value: [err.message] and [String(err)]. *)
Record Exn : Type := mkExn {
  message : string;
  asString : string
}.

(** [String(err.message || err)] *)
Definition errorText (e : Exn) : string :=
  if String.eqb (message e) "" then asString e else message e.

(** A body once it is read: the text [text()] decodes from it and the
    number of bytes [arrayBuffer()] holds. The two lengths agree for an
    ASCII body and differ otherwise. *)
Record Body : Type := mkBody {
  body_text : string;
  body_byteLength : nat
}.

(** A response: its status, its headers (names in lower case), and what
    reading its body gives ([text()] and [arrayBuffer()] both read it; the
    read fails when the connection drops). *)
Record Response : Type := mkResponse {
  status : Z;
  headers : list (string * string);
  body : Exn + Body
}.

(** [res.ok] *)
Definition ok (r : Response) : bool := (200 <=? status r)%Z && (status r <=? 299)%Z.

Fixpoint lookup (name : string) (l : list (string * string)) : option string :=
  match l with
  | [] => None
  | (k, v) :: t => if String.eqb k name then Some v else lookup name t
  end.

(** [res.headers.get(name)] *)
Definition headers_get (r : Response) (name : string) : option string :=
  lookup name (headers r).

(** What the network does with a request: how long it takes and whether
    the fetch resolves with a response or rejects (time out, abort, DNS or
    connection failure). *)
Record Reply : Type := mkReply {
  took : Z;
  outcome : Exn + Response
}.

(** The network: its reply to a request may depend on the requests made
    before. *)
Definition Net : Type := list Request -> Request -> Reply.

Record World : Type := mkWorld {
  now : Z;
  log : list Request
}.

(** ** Computations that may throw, over a state *)

Inductive Result (A : Type) : Type :=
| Ok : A -> Result A
| Throw : Exn -> Result A.
Arguments Throw {A} _.

Definition M (St A : Type) : Type := St -> Result A * St.

Definition ret {St A : Type} (a : A) : M St A := fun s => (Ok a, s).

Definition throw {St A : Type} (e : Exn) : M St A := fun s => (Throw e, s).

Definition bind {St A B : Type} (m : M St A) (f : A -> M St B) : M St B :=
  fun s =>
    match m s with
    | (Ok a, s') => f a s'
    | (Throw e, s') => (Throw e, s')
    end.

(** [try { m } catch (e) { h e }] *)
Definition tryCatch {St A : Type} (m : M St A) (h : Exn -> M St A) : M St A :=
  fun s =>
    match m s with
    | (Ok a, s') => (Ok a, s')
    | (Throw e, s') => h e s'
    end.

(** [try { m } finally { f }] *)
Definition finally {St A : Type} (m : M St A) (f : M St unit) : M St A :=
  fun s =>
    match m s with
    | (r, s') =>
        match f s' with
        | (Ok _, s'') => (r, s'')
        | (Throw e, s'') => (Throw e, s'')
        end
    end.

Definition gets {St A : Type} (f : St -> A) : M St A := fun s => (Ok (f s), s).

Definition modify {St : Type} (f : St -> St) : M St unit := fun s => (Ok tt, f s).

Declare Scope js_scope.
Delimit Scope js_scope with js.
Notation "x <- m ;; k" := (bind m (fun x => k))
  (at level 61, m at next level, right associativity) : js_scope.
Notation "m ;; k" := (bind m (fun _ => k))
  (at level 61, right associativity) : js_scope.
Local Open Scope js_scope.

(** ** Probing one resource (server.js:50-103) *)

Inductive Initiator : Type :=
| document | script | img | img_srcset | stylesheet | preload | iframe
| media | inline_style | style_tag | css_url.

Record ProbeResult : Type := mkProbeResult {
  pr_url : string;
  pr_status : option Z;
  pr_ok : bool;
  pr_contentType : option string;
  pr_size : option Js.number;
  pr_timeMs : option Z;
  pr_methodTried : option Method;
  pr_error : option string;
  pr_initiator : option Initiator
}.

Definition set_status (v : option Z) (r : ProbeResult) : ProbeResult :=
  mkProbeResult (pr_url r) v (pr_ok r) (pr_contentType r) (pr_size r)
                (pr_timeMs r) (pr_methodTried r) (pr_error r) (pr_initiator r).
Definition set_ok (v : bool) (r : ProbeResult) : ProbeResult :=
  mkProbeResult (pr_url r) (pr_status r) v (pr_contentType r) (pr_size r)
                (pr_timeMs r) (pr_methodTried r) (pr_error r) (pr_initiator r).
Definition set_contentType (v : option string) (r : ProbeResult) : ProbeResult :=
  mkProbeResult (pr_url r) (pr_status r) (pr_ok r) v (pr_size r)
                (pr_timeMs r) (pr_methodTried r) (pr_error r) (pr_initiator r).
Definition set_size (v : option Js.number) (r : ProbeResult) : ProbeResult :=
  mkProbeResult (pr_url r) (pr_status r) (pr_ok r) (pr_contentType r) v
                (pr_timeMs r) (pr_methodTried r) (pr_error r) (pr_initiator r).
Definition set_timeMs (v : option Z) (r : ProbeResult) : ProbeResult :=
  mkProbeResult (pr_url r) (pr_status r) (pr_ok r) (pr_contentType r) (pr_size r)
                v (pr_methodTried r) (pr_error r) (pr_initiator r).
Definition set_methodTried (v : option Method) (r : ProbeResult) : ProbeResult :=
  mkProbeResult (pr_url r) (pr_status r) (pr_ok r) (pr_contentType r) (pr_size r)
                (pr_timeMs r) v (pr_error r) (pr_initiator r).
Definition set_error (v : option string) (r : ProbeResult) : ProbeResult :=
  mkProbeResult (pr_url r) (pr_status r) (pr_ok r) (pr_contentType r) (pr_size r)
                (pr_timeMs r) (pr_methodTried r) v (pr_initiator r).
Definition set_initiator (v : option Initiator) (r : ProbeResult) : ProbeResult :=
  mkProbeResult (pr_url r) (pr_status r) (pr_ok r) (pr_contentType r) (pr_size r)
                (pr_timeMs r) (pr_methodTried r) (pr_error r) v.

Definition method_eqb (a b : Method) : bool :=
  match a, b with
  | HEAD, HEAD | GET, GET => true
  | _, _ => false
  end.

Section Probe.
Variable net : Net.

(** [Date.now()] *)
Definition dateNow : M World Z := gets now.

(** [fetchWithTimeout(url, { method }, timeout)]: the request goes out;
    the promise resolves with the response or rejects. The abort timer is
    part of the request ([rq_timeout]); whether it fires is the network's
    reply. *)
Definition fetchWithTimeout (url : string) (method : Method) (timeout : Z)
  : M World Response :=
  fun w =>
    let rq := mkRequest method url timeout in
    let rp := net (log w) rq in
    (match outcome rp with
     | inr r => Ok r
     | inl e => Throw e
     end,
     mkWorld (now w + took rp) (log w ++ [rq])).

(** Reading the body of a response to its end. *)
Definition readBody {St : Type} (r : Response) : M St Body :=
  match body r with
  | inr b => ret b
  | inl e => throw e
  end.

(** [res.text()] *)
Definition text {St : Type} (r : Response) : M St string :=
  b <- readBody r ;; ret (body_text b).

(** [res.arrayBuffer()], and [buf.byteLength]. *)
Definition arrayBuffer {St : Type} (r : Response) : M St Body := readBody r.

Definition byteLength (buf : Body) : Js.number :=
  Js.Int (Z.of_nat (body_byteLength buf)).

(** The local object [result] of [probeResource], next to the world. *)
Record PState : Type := mkPState {
  ps_result : ProbeResult;
  ps_world : World
}.

Definition inWorld {A : Type} (m : M World A) : M PState A :=
  fun s =>
    let '(r, w) := m (ps_world s) in (r, mkPState (ps_result s) w).

Definition update (f : ProbeResult -> ProbeResult) : M PState unit :=
  modify (fun s => mkPState (f (ps_result s)) (ps_world s)).

Definition read {A : Type} (f : ProbeResult -> A) : M PState A :=
  gets (fun s => f (ps_result s)).

Definition initialResult (resourceUrl : string) : ProbeResult :=
  mkProbeResult resourceUrl None false None None None None None None.

Definition probeBody (resourceUrl : string) : M PState ProbeResult :=
  start <- inWorld dateNow ;;
  finally
    (tryCatch
       (update (set_methodTried (Some HEAD)) ;;
        res <- inWorld (fetchWithTimeout resourceUrl HEAD TIMEOUT) ;;
        res <- (if (status res =? 405)%Z || (status res =? 501)%Z
                then update (set_methodTried (Some GET)) ;;
                     inWorld (fetchWithTimeout resourceUrl GET TIMEOUT)
                else ret res) ;;
        update (set_status (Some (status res))) ;;
        update (set_ok (ok res)) ;;
        update (set_contentType
                  (Js.or (headers_get res "content-type") None)) ;;
        (let cl := headers_get res "content-length" in
         if negb (Js.falsyString cl)
         then update (set_size (Some (Js.parseInt (Js.toUSVString cl))))
         else ret tt) ;;
        size <- read pr_size ;;
        methodTried <- read pr_methodTried ;;
        if (Js.falsyNumber size || Js.isNaN size)
           && match methodTried with
              | Some m => method_eqb m GET
              | None => false
              end
        then tryCatch
               (buf <- arrayBuffer res ;;
                update (set_size (Some (byteLength buf))))
               (fun _ => ret tt)
        else ret tt)
       (fun err => update (set_error (Some (errorText err)))))
    (finish <- inWorld dateNow ;;
     update (set_timeMs (Some (finish - start)%Z))) ;;
  read (fun r => r).

Definition probeResource (resourceUrl : string) : M World ProbeResult :=
  fun w =>
    let '(r, s) := probeBody resourceUrl (mkPState (initialResult resourceUrl) w) in
    (r, ps_world s).

End Probe.

(** ** The [/api/inspect] handler (server.js:105-221) *)

Record Candidate : Type := mkCandidate {
  c_url : string;
  c_initiator : Initiator
}.

(** A JS [Map] from strings: the entries in insertion order. *)
Module JsMap.
Definition t (V : Type) : Type := list (string * V).

Fixpoint has {V : Type} (m : t V) (k : string) : bool :=
  match m with
  | [] => false
  | (k', _) :: rest => String.eqb k' k || has rest k
  end.

Fixpoint get {V : Type} (m : t V) (k : string) : option V :=
  match m with
  | [] => None
  | (k', v) :: rest => if String.eqb k' k then Some v else get rest k
  end.

(** [m.set(k, v)]: a present key keeps its place, a new one goes last. *)
Fixpoint set {V : Type} (m : t V) (k : string) (v : V) : t V :=
  match m with
  | [] => [(k, v)]
  | (k', v') :: rest =>
      if String.eqb k' k then (k', v) :: rest else (k', v') :: set rest k v
  end.

Definition size {V : Type} (m : t V) : nat := List.length m.
End JsMap.

Record MainStatus : Type := mkMainStatus {
  ms_status : Z;
  ms_ok : bool;
  ms_contentType : option string
}.

(** An item of the array [probes]. *)
Record ProbeItem : Type := mkProbeItem {
  pi_url : string;
  pi_initiator : Initiator;
  pi_mainStatus : option MainStatus;
  pi_mainTimeMs : option Z
}.

(** An entry of [results]: the probe's [info], or the object built by the
    [catch] of the batch loop. *)
Inductive ResultEntry : Type :=
| Probed : ProbeResult -> ResultEntry
| Failed : string -> string -> ResultEntry.

Definition entry_url (e : ResultEntry) : string :=
  match e with
  | Probed info => pr_url info
  | Failed url _ => url
  end.

Record MainInfo : Type := mkMainInfo {
  mi_status : Z;
  mi_ok : bool;
  mi_contentType : option string;
  mi_timeMs : option Z
}.

Record Report : Type := mkReport {
  fetchedUrl : string;
  main : option MainInfo;
  resources : list ResultEntry;
  note : string
}.

(** What the handler sends: the HTTP status with its JSON body. *)
Inductive HttpReply : Type :=
| Reply200 : Report -> HttpReply
| Reply400 : string -> HttpReply
| Reply502 : string -> string -> HttpReply
| Reply500 : string -> string -> HttpReply.

(** [arr.slice(a, b)] for [0 <= a <= b]. *)
Definition slice {A : Type} (a b : nat) (l : list A) : list A :=
  firstn (b - a) (skipn a l).

(** *** Promises that run together (server.js:198-207)

    [chunk.map(f)] calls the async function [f] on every item at once:
    each call runs until it awaits its first fetch, in the order of the
    array, and only then do the continuations run, each one when the
    fetch it awaits settles; [Promise.all] settles with the calls. A
    fetch takes the time the network says ([took]); the replies are
    delivered in the order of their arrival.

    A call has no state but its local variables, so the state of a call
    that has received the replies [script] is recovered by running the
    function on a network that answers from [script]: the request it then
    makes beyond the script is the one it awaits, and without one it has
    settled. *)

(** An async function applied to its argument, not yet called: it runs
    against the network it is given. *)
Definition Task (A : Type) : Type := Net -> M World A.

(** The reply of a fetch that has not settled. *)
Definition pending : Reply := mkReply 0 (inl (mkExn "pending" "pending")).

(** The network as one call sees it: the k-th request of the call gets
    the k-th reply of [script]. *)
Definition scripted (script : list Reply) : Net :=
  fun hist _ => nth (List.length hist) script pending.

(** The time, for a call made at [start], when the last reply of
    [script] arrived. *)
Definition clock (start : Z) (script : list Reply) : Z :=
  fold_left (fun t r => (t + took r)%Z) script start.

Inductive Stage (A : Type) : Type :=
| Awaits : Request -> Stage A
| Settled : Result A -> Stage A.
Arguments Awaits {A} _.

(** Where the call of [t] made at [start] stands once it has received
    [script]. *)
Definition stage {A : Type} (start : Z) (t : Task A) (script : list Reply)
  : Stage A :=
  let '(r, w) := t (scripted script) (mkWorld start []) in
  match nth_error (log w) (List.length script) with
  | Some rq => Awaits rq
  | None => Settled r
  end.

(** A call under way: the reply it waits for with the time that reply
    arrives, or the value or rejection it settled with and when. *)
Inductive Progress (A : Type) : Type :=
| Waiting : Reply -> Z -> Progress A
| Finished : Result A -> Z -> Progress A.
Arguments Waiting {A} _ _.

Record Slot (A : Type) : Type := mkSlot {
  slot_task : Task A;
  slot_script : list Reply;
  slot_progress : Progress A
}.

Section Promises.
Variable net : Net.
Variable A : Type.

(** The call runs on from the replies it has: the request it awaits
    goes out, after those [sent] so far, or the call settles. *)
Definition advance (start : Z) (t : Task A) (script : list Reply)
           (sent : list Request) : Slot A * list Request :=
  let time := clock start script in
  match stage start t script with
  | Awaits rq =>
      let reply := net sent rq in
      (mkSlot t script (Waiting reply (time + took reply)), (sent ++ [rq])%list)
  | Settled r => (mkSlot t script (Finished r time), sent)
  end.

(** Every function is called, in the order of the array. *)
Fixpoint launch (start : Z) (tasks : list (Task A)) (sent : list Request)
  : list (Slot A) * list Request :=
  match tasks with
  | [] => ([], sent)
  | t :: rest =>
      let '(s, sent1) := advance start t [] sent in
      let '(ss, sent2) := launch start rest sent1 in
      (s :: ss, sent2)
  end.

(** The time of the first arrival among the replies under way. *)
Fixpoint earliest (slots : list (Slot A)) : option Z :=
  match slots with
  | [] => None
  | s :: rest =>
      match slot_progress s, earliest rest with
      | Waiting _ due, Some d => Some (Z.min due d)
      | Waiting _ due, None => Some due
      | Finished _ _, later => later
      end
  end.

(** The reply arriving at [due] is delivered to the call that waits for
    it, which runs on; of two replies arriving together, the one of the
    call that comes first in the array is delivered first. *)
Fixpoint deliver (start due : Z) (slots : list (Slot A)) (sent : list Request)
  : list (Slot A) * list Request :=
  match slots with
  | [] => ([], sent)
  | s :: rest =>
      match slot_progress s with
      | Waiting reply d =>
          if (d =? due)%Z then
            let '(s', sent') :=
              advance start (slot_task s) (slot_script s ++ [reply])%list sent in
            (s' :: rest, sent')
          else
            let '(rest', sent') := deliver start due rest sent in
            (s :: rest', sent')
      | Finished _ _ =>
          let '(rest', sent') := deliver start due rest sent in
          (s :: rest', sent')
      end
  end.

(** The event loop: replies are delivered in the order of their arrival
    until no call waits; [fuel] bounds the number of deliveries. *)
Fixpoint eventLoop (fuel : nat) (start : Z) (slots : list (Slot A))
         (sent : list Request) : list (Slot A) * list Request :=
  match fuel with
  | O => (slots, sent)
  | S fuel' =>
      match earliest slots with
      | Some due =>
          let '(slots', sent') := deliver start due slots sent in
          eventLoop fuel' start slots' sent'
      | None => (slots, sent)
      end
  end.

(** How a call ended and when; a call still waiting when the fuel ran
    out counts as rejected at the time its reply was due. *)
Definition ending (s : Slot A) : Result A * Z :=
  match slot_progress s with
  | Finished r time => (r, time)
  | Waiting _ due => (Throw (mkExn "pending" "pending"), due)
  end.

(** The first rejection in time, if any. *)
Fixpoint firstRejection (ends : list (Result A * Z)) : option (Exn * Z) :=
  match ends with
  | [] => None
  | (Ok _, _) :: rest => firstRejection rest
  | (Throw e, time) :: rest =>
      match firstRejection rest with
      | Some (e', time') =>
          if (time' <? time)%Z then Some (e', time') else Some (e, time)
      | None => Some (e, time)
      end
  end.

Fixpoint values (ends : list (Result A * Z)) : list A :=
  match ends with
  | [] => []
  | (Ok a, _) :: rest => a :: values rest
  | (Throw _, _) :: rest => values rest
  end.

(** The time the last call settled; [start] when there is no call. *)
Definition lastSettled (start : Z) (ends : list (Result A * Z)) : Z :=
  match map snd ends with
  | [] => start
  | time :: times => fold_left Z.max times time
  end.

(** [await Promise.all(promises)], where every promise is the call of an
    async function that awaits at most [awaits] fetches. The values come
    back in the order of the array once the last call has settled; a
    rejection rejects the whole as soon as it happens, while the other
    calls run on. *)
Definition promiseAll (awaits : nat) (promises : list (Task A))
  : M World (list A) :=
  fun w =>
    let start := now w in
    let '(slots, sent) := launch start promises (log w) in
    let '(slots, sent) :=
      eventLoop (awaits * List.length promises) start slots sent in
    let ends := map ending slots in
    match firstRejection ends with
    | Some (e, time) => (Throw e, mkWorld time sent)
    | None => (Ok (values ends), mkWorld (lastSettled start ends) sent)
    end.

End Promises.

(** The body of [chunk.map(async (item) => ...)]. *)
Definition probeItem (item : ProbeItem) : Task ResultEntry :=
  fun net =>
    tryCatch
      (info <- probeResource net (pi_url item) ;;
       ret (Probed (set_initiator (Some (pi_initiator item)) info)))
      (fun e => ret (Failed (pi_url item) (errorText e))).

Section Handler.
Context {P : Platform}.
Variable net : Net.

(** *** HTML discovery (server.js:125-162) *)

Definition pushUrl (resources : JsMap.t Candidate) (u : option string)
           (initiator : Initiator) : JsMap.t Candidate :=
  if Js.falsyString u then resources
  else
    let u := Js.toUSVString u in
    if isBlockedUrl u then resources
    else if negb (JsMap.has resources u)
         then JsMap.set resources u (mkCandidate u initiator)
         else resources.

Definition attr (el : Element) (name : string) : option string :=
  lookup name (el_attrs el).

Definition hasAttr (el : Element) (name : string) : bool :=
  match attr el name with
  | Some _ => true
  | None => false
  end.

(** The test [[rel="value"]] of a selector. In an HTML document the
    selector engine compares the values of [rel] without regard to case:
    it lower-cases both sides. *)
Definition relIs (el : Element) (value : string) : bool :=
  match attr el "rel" with
  | Some v => String.eqb (Js.toLowerCase v) (Js.toLowerCase value)
  | None => false
  end.

(** The selectors of the handler, as tests on an element. *)
Definition sel_script_src (el : Element) : bool :=
  String.eqb (el_tag el) "script" && hasAttr el "src".
Definition sel_img (el : Element) : bool := String.eqb (el_tag el) "img".
Definition sel_link_stylesheet (el : Element) : bool :=
  String.eqb (el_tag el) "link" && relIs el "stylesheet".
Definition sel_link_preload_href (el : Element) : bool :=
  String.eqb (el_tag el) "link" && relIs el "preload" && hasAttr el "href".
Definition sel_iframe (el : Element) : bool := String.eqb (el_tag el) "iframe".
Definition sel_media (el : Element) : bool :=
  String.eqb (el_tag el) "audio" || String.eqb (el_tag el) "video"
  || String.eqb (el_tag el) "source".
Definition sel_style_attr (el : Element) : bool := hasAttr el "style".
Definition sel_style (el : Element) : bool := String.eqb (el_tag el) "style".

(** [$(sel).each((_, el) => f(el))], [f] acting on the map. *)
Definition each {St : Type} (sel : Element -> bool) (doc : list Element)
           (f : St -> Element -> St) (s : St) : St :=
  fold_left f (filter sel doc) s.

Definition pushAttr (target name : string) (initiator : Initiator)
           (resources : JsMap.t Candidate) (el : Element) : JsMap.t Candidate :=
  pushUrl resources (absoluteUrl target (attr el name)) initiator.

Definition pushAll (initiator : Initiator) (resources : JsMap.t Candidate)
           (urls : list string) : JsMap.t Candidate :=
  fold_left (fun m u => pushUrl m (Some u) initiator) urls resources.

Definition pushImg (target : string) (resources : JsMap.t Candidate)
           (el : Element) : JsMap.t Candidate :=
  let src := Js.or (attr el "src") (attr el "data-src") in
  let resources := pushUrl resources (absoluteUrl target src) img in
  let srcset := attr el "srcset" in
  if negb (Js.falsyString srcset) then
    fold_left
      (fun m part =>
         let url := nth 0 (Js.splitWhiteSpace (Js.trim part)) "" in
         pushUrl m (absoluteUrl target (Some url)) img_srcset)
      (Js.split "," (Js.toUSVString srcset)) resources
  else resources.

Definition pushInlineStyle (target : string) (resources : JsMap.t Candidate)
           (el : Element) : JsMap.t Candidate :=
  let style := Js.toUSVString (Js.or (attr el "style") (Some "")) in
  pushAll inline_style resources (findCssUrls style target).

Definition pushStyleTag (target : string) (resources : JsMap.t Candidate)
           (el : Element) : JsMap.t Candidate :=
  let css := el_html el in
  pushAll style_tag resources (findCssUrls css target).

(** The map [resources] after the eight passes over the page. *)
Definition discover (target : string) (doc : list Element) : JsMap.t Candidate :=
  let r := [] in
  let r := each sel_script_src doc (pushAttr target "src" script) r in
  let r := each sel_img doc (pushImg target) r in
  let r := each sel_link_stylesheet doc (pushAttr target "href" stylesheet) r in
  let r := each sel_link_preload_href doc (pushAttr target "href" preload) r in
  let r := each sel_iframe doc (pushAttr target "src" iframe) r in
  let r := each sel_media doc (pushAttr target "src" media) r in
  let r := each sel_style_attr doc (pushInlineStyle target) r in
  let r := each sel_style doc (pushStyleTag target) r in
  r.

(** The array [cssLinks]; an entry is [null] when the link did not
    resolve. *)
Definition collectCssLinks (target : string) (doc : list Element)
  : list (option string) :=
  each sel_link_stylesheet doc
       (fun cssLinks el =>
          let href := attr el "href" in
          if negb (Js.falsyString href)
          then cssLinks ++ [absoluteUrl target href]
          else cssLinks)%list
       [].

(** *** The initial [toProbe] (server.js:165-169) *)

Fixpoint buildToProbe (entries : JsMap.t Candidate) (toProbe : list Candidate)
  : list Candidate :=
  match entries with
  | [] => toProbe
  | (u, meta) :: rest =>
      if (MAX_RESOURCES <=? List.length toProbe)%nat then toProbe
      else buildToProbe rest (toProbe ++ [mkCandidate u (c_initiator meta)])%list
  end.

(** *** The stylesheet crawl (server.js:172-188) *)

(** [toProbe.find(x => x.url === u)] is not [undefined] *)
Definition found (toProbe : list Candidate) (u : string) : bool :=
  existsb (fun x => String.eqb (c_url x) u) toProbe.

(** The inner loop over [extra]. *)
Fixpoint addExtra (extra : list string) (toProbe : list Candidate)
  : list Candidate :=
  match extra with
  | [] => toProbe
  | u :: rest =>
      if (MAX_RESOURCES <=? List.length toProbe)%nat then toProbe
      else if negb (found toProbe u)
           then addExtra rest (toProbe ++ [mkCandidate u css_url])%list
           else addExtra rest toProbe
  end.

Fixpoint crawl (cssLinks : list (option string)) (toProbe : list Candidate)
  : M World (list Candidate) :=
  match cssLinks with
  | [] => ret toProbe
  | cssUrl :: rest =>
      if Js.falsyString cssUrl || (MAX_RESOURCES <=? List.length toProbe)%nat
      then ret toProbe
      else
        let cssUrl := Js.toUSVString cssUrl in
        if isBlockedUrl cssUrl then crawl rest toProbe
        else
          toProbe <-
            tryCatch
              (r <- fetchWithTimeout net cssUrl GET CSS_FETCH_TIMEOUT ;;
               if ok r then
                 cssText <- text r ;;
                 let extra := findCssUrls cssText cssUrl in
                 ret (addExtra extra toProbe)
               else ret toProbe)
              (fun _ => ret toProbe) ;;
          crawl rest toProbe
  end.

(** *** The probe list and the batch loop (server.js:191-209) *)

Definition buildProbes (target : string) (pageResp : Response) (mainTime : Z)
           (toProbe : list Candidate) : list ProbeItem :=
  (mkProbeItem target document
     (Some (mkMainStatus (status pageResp) (ok pageResp)
                         (headers_get pageResp "content-type")))
     (Some mainTime)
   :: map (fun t => mkProbeItem (c_url t) (c_initiator t) None None)
          (slice 0 MAX_RESOURCES
             (filter (fun t => negb (String.eqb (c_url t) target)) toProbe)))%list.

(** One round of the batch loop: the async function is called on every
    item of the chunk, and the promises are awaited together. A probe
    awaits at most two fetches. *)
Definition probeChunk (chunk : list ProbeItem) : M World (list ResultEntry) :=
  let promises := map probeItem chunk in
  promiseAll net 2 promises.

(** [for (let i = 0; i < probes.length; i += CONCURRENCY)], [fuel]
    bounding the number of rounds. *)
Fixpoint probeLoop (fuel i : nat) (probes : list ProbeItem)
         (results : list ResultEntry) : M World (list ResultEntry) :=
  match fuel with
  | O => ret results
  | S fuel' =>
      if (i <? List.length probes)%nat then
        let chunk := slice i (i + CONCURRENCY) probes in
        chunkResults <- probeChunk chunk ;;
        probeLoop fuel' (i + CONCURRENCY) probes (results ++ chunkResults)%list
      else ret results
  end.

(** The batch loop of the handler, which the specification calls
    [probeAll]. *)
Definition probeAll (probes : list ProbeItem) : M World (list ResultEntry) :=
  probeLoop (List.length probes) 0 probes [].

Definition noteText : string :=
  "Limited to 200 resources. Dynamic requests (XHR/fetch inserted by page JS) won't be captured because the tool does not execute page JS.".

Definition typeError : Exn :=
  mkExn "Cannot read properties of undefined" "TypeError".

(** The error of calling a method the value does not have; the exact
    wording of the message is the engine's. *)
Definition notAFunction : Exn :=
  mkExn "trim is not a function" "TypeError: trim is not a function".

Definition assemble (target : string) (probes : list ProbeItem)
           (results : list ResultEntry) : M World Report :=
  match probes with
  | [] => throw typeError
  | p0 :: _ =>
      ret (mkReport target
             (match pi_mainStatus p0 with
              | Some ms => Some (mkMainInfo (ms_status ms) (ms_ok ms)
                                            (ms_contentType ms) (pi_mainTimeMs p0))
              | None => None
              end)
             (slice 0 MAX_RESOURCES results)
             noteText)
  end.

(** *** The handler *)

(** [v.trim()]: of the values met here only a string has the method;
    on another value the call throws a [TypeError]. *)
Definition callTrim (v : Js.json) : M World string :=
  match v with
  | Js.JString s => ret (Js.trim s)
  | _ => throw notAFunction
  end.

(** [bodyUrl] is [req.body && req.body.url]: the [url] field of the JSON
    body of the request, [None] when there is no body or no such field. *)
Definition inspect (bodyUrl : option Js.json) : M World HttpReply :=
  tryCatch
    (target <- callTrim (Js.orEmpty bodyUrl) ;;
     if String.eqb target "" then ret (Reply400 "Missing url in body")
     else if isBlockedUrl target
          then ret (Reply400 "URL blocked (private or non-http(s) scheme)")
     else
       tStart <- dateNow ;;
       fetched <-
         tryCatch
           (pageResp <- fetchWithTimeout net target GET TIMEOUT ;;
            html <- text pageResp ;;
            ret (inr (pageResp, html)))
           (fun err => ret (inl (Reply502 "Failed to fetch target URL" (errorText err)))) ;;
       match fetched with
       | inl reply => ret reply
       | inr (pageResp, html) =>
           tEnd <- dateNow ;;
           let mainTime := (tEnd - tStart)%Z in
           let doc := cheerio_load html in
           let resources := discover target doc in
           let cssLinks := collectCssLinks target doc in
           let toProbe := buildToProbe resources [] in
           toProbe <- crawl cssLinks toProbe ;;
           let probes := buildProbes target pageResp mainTime toProbe in
           results <- probeAll probes ;;
           report <- assemble target probes results ;;
           ret (Reply200 report)
       end)
    (fun err => ret (Reply500 "Internal error" (errorText err))).

End Handler.

(** ** A reference platform, to run the program on concrete pages

    Its URL constructor covers the URLs [scheme://host/path] with an http
    or https scheme, a host made of letters, digits, dots and hyphens (a
    name, or a dotted quad in its usual form) and a path taken as written,
    and the references to them that are absolute, start with [//], start
    with [/], or are a path relative to the directory of the base. A URL
    with another scheme is accepted with an empty host name. Everything
    else is rejected. Its HTML parser knows the pages listed in [pages]. *)

Module Ref.

Definition isAlpha (c : ascii) : bool :=
  let n := nat_of_ascii c in
  (Nat.leb 65 n && Nat.leb n 90) || (Nat.leb 97 n && Nat.leb n 122).

Definition isSchemeChar (c : ascii) : bool :=
  isAlpha c || Js.isDigit c || Ascii.eqb c "+" || Ascii.eqb c "-" || Ascii.eqb c ".".

Definition isHostChar (c : ascii) : bool :=
  isAlpha c || Js.isDigit c || Ascii.eqb c "-" || Ascii.eqb c ".".

Fixpoint all (p : ascii -> bool) (s : string) : bool :=
  match s with
  | EmptyString => true
  | String c t => p c && all p t
  end.

(** The text before the first character satisfying [stop], and the rest
    from that character on. *)
Fixpoint break (stop : ascii -> bool) (s : string) : string * string :=
  match s with
  | EmptyString => (EmptyString, EmptyString)
  | String c t =>
      if stop c then (EmptyString, s)
      else let '(a, b) := break stop t in (String c a, b)
  end.

Definition isColon (c : ascii) : bool := Ascii.eqb c ":".
Definition endsHost (c : ascii) : bool :=
  Ascii.eqb c "/" || Ascii.eqb c "?" || Ascii.eqb c "#".
Definition endsPath (c : ascii) : bool := Ascii.eqb c "?" || Ascii.eqb c "#".

(** The scheme of [u], when [u] starts with one followed by a colon, and
    what follows the colon. *)
Definition schemeOf (u : string) : option (string * string) :=
  match break isColon u with
  | (String c s, String _ after) =>
      if isAlpha c && all isSchemeChar s
      then Some (Js.toLowerCase (String c s), after)
      else None
  | _ => None
  end.

Definition parseAbsolute (u : string) : option URL :=
  match schemeOf u with
  | Some (scheme, after) =>
      if String.eqb scheme "http" || String.eqb scheme "https" then
        match after with
        | String "/" (String "/" r) =>
            let '(host, path) := break endsHost r in
            let host := Js.toLowerCase host in
            if String.eqb host "" || negb (all isHostChar host) then None
            else
              let path := match path with
                          | String "/" _ => path
                          | _ => "/" ++ path
                          end in
              Some (mkURL (scheme ++ ":") host (scheme ++ "://" ++ host ++ path))
        | _ => None
        end
      else Some (mkURL (scheme ++ ":") "" (scheme ++ ":" ++ after))
  | None => None
  end.

(** The text up to and including the last [/] of [s]. *)
Fixpoint directory (s : string) : string :=
  match s with
  | EmptyString => EmptyString
  | String c t =>
      let d := directory t in
      if String.eqb d "" then (if Ascii.eqb c "/" then "/" else "")
      else String c d
  end.

Definition resolve (u : string) (base : URL) : option URL :=
  match schemeOf u with
  | Some _ => parseAbsolute u
  | None =>
      let origin := protocol base ++ "//" ++ hostname base in
      let basePath :=
        fst (break endsPath
               (substring (String.length origin)
                          (String.length (href base)) (href base))) in
      if String.eqb (hostname base) "" then None
      else
        match u with
        | String "/" (String "/" _) => parseAbsolute (protocol base ++ u)
        | String "/" _ => parseAbsolute (origin ++ u)
        | _ => parseAbsolute (origin ++ directory basePath ++ u)
        end
  end.

Definition newURL (u : string) (base : option string) : option URL :=
  match base with
  | None => parseAbsolute u
  | Some b =>
      match parseAbsolute b with
      | Some bu => resolve u bu
      | None => None
      end
  end.

(** *** Pages *)

Definition scriptTag (src : string) : Element :=
  mkElement "script" [("src", src)] "".

Definition scriptHtml (src : string) : string :=
  "<script src=" ++ src ++ "></script>".

Fixpoint letters (n : nat) : string :=
  match n with
  | O => EmptyString
  | S k => String "a" (letters k)
  end.

(** [n] zeros. *)
Fixpoint zeros (n : nat) : string :=
  match n with
  | O => EmptyString
  | S k => String "0" (zeros k)
  end.

(** [n] script sources [/s], [/sa], [/saa], ... *)
Definition sources (n : nat) : list string :=
  map (fun k => "/s" ++ letters k) (seq 0 n).

(** A page of [n] scripts. *)
Definition scriptsPage (n : nat) : string :=
  String.concat "" (map scriptHtml (sources n)).

(** A page with one stylesheet. *)
Definition sheetPage : string := "<link rel=stylesheet href=/b.css>".

(** A page with two stylesheet links, the first of which does not
    resolve (a scheme with no host). *)
Definition twoSheetsPage : string :=
  "<link rel=stylesheet href=http://><link rel=stylesheet href=/b.css>".

(** The same links in the other order. *)
Definition twoSheetsPageSwapped : string :=
  "<link rel=stylesheet href=/b.css><link rel=stylesheet href=http://>".

Definition linkTag (target : string) : Element :=
  mkElement "link" [("rel", "stylesheet"); ("href", target)] "".

(** A page with an image, a stylesheet and an inline style. *)
Definition mixedPage : string :=
  "<img src=/a.png><link rel=stylesheet href=/b.css><p style=background:url(/c.png)>".

Definition mixedElements : list Element :=
  [ mkElement "img" [("src", "/a.png")] "";
    linkTag "/b.css";
    mkElement "p" [("style", "background:url(/c.png)")] "" ].

Definition pages : list (string * list Element) :=
  [ (mixedPage, mixedElements);
    (sheetPage, [linkTag "/b.css"]);
    (twoSheetsPage, [linkTag "http://"; linkTag "/b.css"]);
    (twoSheetsPageSwapped, [linkTag "/b.css"; linkTag "http://"]);
    (scriptsPage 201, map scriptTag (sources 201)) ].

Fixpoint pageOf (html : string) (l : list (string * list Element)) : list Element :=
  match l with
  | [] => []
  | (h, d) :: t => if String.eqb h html then d else pageOf html t
  end.

Definition load (html : string) : list Element := pageOf html pages.

Definition platform : Platform := Build_Platform newURL load.

(** *** Networks *)

Definition site : string := "https://example.com/".
Definition sheet : string := "https://example.com/b.css".

(** A body of ASCII text: one byte for each character. *)
Definition asciiBody (b : string) : Body := mkBody b (String.length b).

Definition response (st : Z) (hs : list (string * string)) (b : string) : Reply :=
  mkReply 5 (inr (mkResponse st hs (inr (asciiBody b)))).

(** A site serving [html] at [site] and [css] at [sheet]; every other
    request is answered 200 with an empty body. *)
Definition serving (html css : string) : Net :=
  fun _ rq =>
    match rq_method rq with
    | GET =>
        if String.eqb (rq_url rq) site
        then response 200 [("content-type", "text/html")] html
        else if String.eqb (rq_url rq) sheet
             then response 200 [("content-type", "text/css")] css
             else response 200 [] ""
    | HEAD => response 200 [] ""
    end.

Definition start : World := mkWorld 0 [].

Definition image : string := "https://example.com/a.png".

(** A map and a probe list that hold [image], found as an [img]. *)
Definition oneImage : JsMap.t Candidate := [(image, mkCandidate image img)].
Definition oneCandidate : list Candidate := [mkCandidate image img].

Definition admin : string := "http://127.0.0.1/admin".
Definition picture : string := "https://example.com/d.png".

(** The texts served as the stylesheet [sheet]. *)
Definition emptyCss : string := "".
Definition adminCss : string := "a{background:url(http://127.0.0.1/admin)}".
Definition pictureCss : string := "a{background:url(/d.png)}".

(** The URLs listed in the report of a run, when it ended with one. *)
Definition reported (run : Result HttpReply * World) : option (list string) :=
  match fst run with
  | Ok (Reply200 report) => Some (map entry_url (resources report))
  | _ => None
  end.

Definition requested (run : Result HttpReply * World) : list Request :=
  log (snd run).

Definition resource : string := "https://example.com/x".

(** HEAD is refused with 405; GET answers 200 with five bytes and no
    content-length. *)
Definition refusingHead : Net :=
  fun _ rq =>
    match rq_method rq with
    | HEAD => response 405 [] ""
    | GET => response 200 [("content-type", "text/plain")] "hello"
    end.

Definition connectionReset : Exn := mkExn "terminated" "TypeError: terminated".

(** The same, but the connection drops while the body of the GET
    response is read. *)
Definition droppingBody : Net :=
  fun _ rq =>
    match rq_method rq with
    | HEAD => response 405 [] ""
    | GET => mkReply 5 (inr (mkResponse 200 [("content-type", "text/plain")]
                                        (inl connectionReset)))
    end.

(** HEAD answers 200 with the given content-length header. *)
Definition declaring (cl : string) : Net :=
  fun _ rq => response 200 [("content-length", cl)] "".

(** Every request fails. *)
Definition unreachable : Net :=
  fun _ rq => mkReply 7 (inl (mkExn "fetch failed" "TypeError: fetch failed")).

End Ref.

(** * Vocabulary of the properties *)

(** ** The safety filter *)

(** The host names the filter rejects, in the words of the specification. *)
Definition blockedHost (host : string) : Prop :=
  host = "localhost" \/ host = "127.0.0.1" \/ host = "::1"
  \/ (exists p, host = p ++ ".local")
  \/ (exists t, host = "10." ++ t)
  \/ (exists t, host = "127." ++ t)
  \/ (exists t, host = "192.168." ++ t)
  \/ (exists t, host = "169.254." ++ t).

(** Every key of the map built by [pushUrl] passed the filter. *)
Definition allAllowed {P : Platform} (m : JsMap.t Candidate) : Prop :=
  Forall (fun e => isBlockedUrl (fst e) = false) m.


(** ** The probe in closed form *)

Definition headRequest (u : string) : Request := mkRequest HEAD u TIMEOUT.
Definition getRequest (u : string) : Request := mkRequest GET u TIMEOUT.

(** A HEAD status that sends the probe on to GET. *)
Definition fallsBack (res : Response) : bool :=
  (status res =? 405)%Z || (status res =? 501)%Z.

Definition afterRequest (net : Net) (rq : Request) (w : World) : World :=
  mkWorld (now w + took (net (log w) rq)) (log w ++ [rq]).

(** The world after the probe of [u]: the HEAD request, and the GET
    request when the HEAD response falls back. *)
Definition probeWorld (net : Net) (u : string) (w : World) : World :=
  let w1 := afterRequest net (headRequest u) w in
  match outcome (net (log w) (headRequest u)) with
  | inr res => if fallsBack res then afterRequest net (getRequest u) w1 else w1
  | inl _ => w1
  end.

(** The response the probe ends with and the method that got it, or the
    failure of the request that failed. *)
Definition finalResponse (net : Net) (u : string) (w : World)
  : Exn * Method + Method * Response :=
  match outcome (net (log w) (headRequest u)) with
  | inl e => inl (e, HEAD)
  | inr res =>
      if fallsBack res then
        match outcome (net (log w ++ [headRequest u])%list (getRequest u)) with
        | inl e => inl (e, GET)
        | inr res2 => inr (GET, res2)
        end
      else inr (HEAD, res)
  end.

(** The number the content-length header gives, when the header is there
    and not empty. *)
Definition headerSize (res : Response) : option Js.number :=
  match headers_get res "content-length" with
  | Some cl => if String.eqb cl "" then None else Some (Js.parseInt cl)
  | None => None
  end.

(** The header is usable when it gives a number other than zero and
    [NaN]. *)
Definition usable (h : option Js.number) : bool :=
  match h with
  | Some (Js.Int n) => negb (n =? 0)%Z
  | Some (Js.Infinity _) => true
  | _ => false
  end.

(** The size rule: a usable header wins; otherwise the number of bytes
    of the body when the method is GET and the body can be read;
    otherwise what the header left. *)
Definition sizeRule (m : Method) (res : Response) : option Js.number :=
  let h := headerSize res in
  if usable h then h
  else match m, body res with
       | GET, inr b => Some (Js.Int (Z.of_nat (body_byteLength b)))
       | _, _ => h
       end.

Definition failedResult (u : string) (m : Method) (e : Exn) (t : Z) : ProbeResult :=
  mkProbeResult u None false None None (Some t) (Some m) (Some (errorText e)) None.

Definition answeredResult (u : string) (m : Method) (res : Response) (t : Z)
  : ProbeResult :=
  mkProbeResult u (Some (status res)) (ok res)
                (Js.or (headers_get res "content-type") None)
                (sizeRule m res) (Some t) (Some m) None None.

Definition probeOutcome (net : Net) (u : string) (w : World) : ProbeResult :=
  let t := (now (probeWorld net u w) - now w)%Z in
  match finalResponse net u w with
  | inl (e, m) => failedResult u m e t
  | inr (m, res) => answeredResult u m res t
  end.

(** [JSON.stringify] writes [NaN] and the infinities as [null]. *)
Definition jsonNumber (v : option Js.number) : option Z :=
  match v with
  | Some (Js.Int n) => Some n
  | _ => None
  end.

(** ** The batch loop, batch by batch *)

(** The entry the batch loop records for [item], probed from [w]. *)
Definition probedEntry (net : Net) (item : ProbeItem) (w : World) : ResultEntry :=
  Probed (set_initiator (Some (pi_initiator item))
                        (probeOutcome net (pi_url item) w)).

(** The consecutive batches of [CONCURRENCY] items of a list. *)
Fixpoint batches {A : Type} (fuel : nat) (l : list A) : list (list A) :=
  match fuel with
  | O => []
  | S fuel' =>
      match l with
      | [] => []
      | _ :: _ => firstn CONCURRENCY l :: batches fuel' (skipn CONCURRENCY l)
      end
  end.

Definition batchesOf {A : Type} (l : list A) : list (list A) :=
  batches (List.length l) l.

(** Probing batch after batch, each awaited as a whole, the results
    concatenated. *)
Fixpoint runBatches (net : Net) (bs : list (list ProbeItem))
         (results : list ResultEntry) : M World (list ResultEntry) :=
  match bs with
  | [] => ret results
  | chunk :: rest =>
      chunkResults <- probeChunk net chunk ;;
      runBatches net rest (results ++ chunkResults)%list
  end.

(** ** A batch of probes, call by call *)

(** The first phase of a batch: the HEAD request of every item goes
    out, in the order of the items; each item comes with the reply to its
    request. *)
Fixpoint headPhase (net : Net) (sent : list Request) (items : list ProbeItem)
  : list (ProbeItem * Reply) :=
  match items with
  | [] => []
  | item :: rest =>
      (item, net sent (headRequest (pi_url item)))
      :: headPhase net (sent ++ [headRequest (pi_url item)])%list rest
  end.

(** The replies a probe of [u] receives in a batch, given the reply [r1]
    to its HEAD request: [r1] alone, or [r1] and the reply to the GET
    request when [r1] is a response that falls back. The GET request is
    one of the GET requests [gets] of the batch; it goes out after the
    HEAD requests of the whole batch ([base]) and the GET requests
    [before] it. *)
Definition probeScript (net : Net) (base gets : list Request) (u : string)
           (r1 : Reply) (script : list Reply) : Prop :=
  match outcome r1 with
  | inr res =>
      if fallsBack res
      then exists before after,
             gets = (before ++ getRequest u :: after)%list
             /\ script = [r1; net (base ++ before)%list (getRequest u)]
      else script = [r1]
  | inl _ => script = [r1]
  end.

(** The entry of [item] when its probe, called at [start], received the
    replies [script]. *)
Definition scriptedEntry (start : Z) (item : ProbeItem) (script : list Reply)
  : ResultEntry :=
  probedEntry (scripted script) item (mkWorld start []).

(** The time the last of the calls made at [start] settled. *)
Definition lastArrival (start : Z) (scripts : list (list Reply)) : Z :=
  match map (clock start) scripts with
  | [] => start
  | time :: times => fold_left Z.max times time
  end.

(** A GET request to an item of the chunk. *)
Definition getOf (chunk : list ProbeItem) (rq : Request) : Prop :=
  exists item, In item chunk /\ rq = getRequest (pi_url item).

(** The GET request of an item whose HEAD request got a response that
    falls back. *)
Definition fallbackOf (xs : list (ProbeItem * Reply)) (rq : Request) : Prop :=
  exists x res,
    In x xs /\ outcome (snd x) = inr res /\ fallsBack res = true
    /\ rq = getRequest (pi_url (fst x)).

(** The slot of a probe in the event loop, [gets] being the GET requests
    sent so far: the probe of [item], whose HEAD request got the reply
    [r1], waits for that reply, or waits for the reply to its GET
    request, or has settled. *)
Inductive probing (net : Net) (start : Z) (base gets : list Request)
          (x : ProbeItem * Reply) : Slot ResultEntry -> Prop :=
| probing_head :
    probing net start base gets x
            (mkSlot (probeItem (fst x)) []
                    (Waiting (snd x) (start + took (snd x))))
| probing_get : forall res before after,
    outcome (snd x) = inr res -> fallsBack res = true ->
    gets = (before ++ getRequest (pi_url (fst x)) :: after)%list ->
    let r2 := net (base ++ before)%list (getRequest (pi_url (fst x))) in
    probing net start base gets x
            (mkSlot (probeItem (fst x)) [snd x]
                    (Waiting r2 (start + took (snd x) + took r2)))
| probing_done : forall script,
    probeScript net base gets (pi_url (fst x)) (snd x) script ->
    probing net start base gets x
            (mkSlot (probeItem (fst x)) script
                    (Finished (Ok (scriptedEntry start (fst x) script))
                              (clock start script))).

(** The deliveries a slot still needs, and the GET request it may still
    send. *)
Definition weight (A : Type) (s : Slot A) : nat :=
  match slot_progress s with
  | Waiting _ _ => 2 - List.length (slot_script s)
  | Finished _ _ => 0
  end.

Definition owed (A : Type) (s : Slot A) : nat :=
  match slot_progress s with
  | Waiting _ _ => 1 - List.length (slot_script s)
  | Finished _ _ => 0
  end.

Definition waitsFor (A : Type) (due : Z) (s : Slot A) : Prop :=
  exists reply, slot_progress s = Waiting reply due.

Definition finished (A : Type) (s : Slot A) : Prop :=
  exists r time, slot_progress s = Finished r time.

(** The entries of a chunk whose probes, called at [start], received
    the replies [scripts]. *)
Definition entriesOf (start : Z) (chunk : list ProbeItem)
           (scripts : list (list Reply)) : list ResultEntry :=
  map (fun p => scriptedEntry start (fst p) (snd p)) (combine chunk scripts).

(** The HEAD requests of a chunk. *)
Definition headsOf (chunk : list ProbeItem) : list Request :=
  map (fun item => headRequest (pi_url item)) chunk.

(** [e] is the entry of [item] probed in a batch: it is built from the
    reply of the network to the HEAD request of the item and, when that
    reply falls back, from the reply to its GET request. *)
Definition probedInBatch (net : Net) (item : ProbeItem) (e : ResultEntry) : Prop :=
  exists start sent base gets script,
    probeScript net base gets (pi_url item)
                (net sent (headRequest (pi_url item))) script
    /\ e = scriptedEntry start item script.

(** The requests of a run of batches: for each batch in turn, the HEAD
    requests of its items in the order of the items, then GET requests
    to items of that batch, no more than it has items. *)
Inductive batchTraffic : list (list ProbeItem) -> list Request -> Prop :=
| traffic_done : batchTraffic [] []
| traffic_batch : forall chunk rest gets reqs,
    Forall (getOf chunk) gets ->
    (List.length gets <= List.length chunk)%nat ->
    batchTraffic rest reqs ->
    batchTraffic (chunk :: rest) (headsOf chunk ++ gets ++ reqs)%list.

(** The time a probe took, as its entry reports it. *)
Definition elapsed (e : ResultEntry) : Z :=
  match e with
  | Probed info => match pr_timeMs info with
                   | Some t => t
                   | None => 0
                   end
  | Failed _ _ => 0
  end.

Definition weights (slots : list (Slot ResultEntry)) : nat :=
  list_sum (map (@weight _) slots).

Definition owing (slots : list (Slot ResultEntry)) : nat :=
  list_sum (map (@owed _) slots).

(** ** The handler *)

(** The text of the [url] field of the request body: the empty text
    when the field is missing or falsy, nothing when it holds a truthy
    value that is not a string. *)
Definition urlText (bodyUrl : option Js.json) : option string :=
  match Js.orEmpty bodyUrl with
  | Js.JString s => Some s
  | _ => None
  end.

(** The URL the handler inspects: the [url] field of the request body,
    trimmed. *)
Definition targetOf (bodyUrl : option Js.json) : string :=
  match urlText bodyUrl with
  | Some s => Js.trim s
  | None => ""
  end.

Definition mainRequest (target : string) : Request := mkRequest GET target TIMEOUT.

(** The handler run on the reference platform, for the page [html] at
    [Ref.site] and the stylesheet text [css] at [Ref.sheet]. *)
Definition inspectSite (html css : string) : Result HttpReply * World :=
  inspect (P := Ref.platform) (Ref.serving html css)
          (Some (Js.JString Ref.site)) Ref.start.

(** An item probed alone, from a fresh world. *)
Definition probedAlone (net : Net) (item : ProbeItem) : ResultEntry :=
  probedEntry net item (mkWorld 0 []).

(** ** The [url(...)] pattern, declaratively *)

(** Every character of [s] satisfies [p]. *)
Fixpoint every (p : ascii -> bool) (s : string) : bool :=
  match s with
  | EmptyString => true
  | String c t => p c && every p t
  end.

(** [Matches r text caps]: the whole of [text] matches [r], the groups
    capturing [caps], in the order in which the groups close. *)
Inductive Matches : Regex.re -> string -> list string -> Prop :=
| m_chr : forall c, Matches (Regex.Chr c) (String c "") []
| m_star : forall p text, every p text = true -> Matches (Regex.Star p) text []
| m_plus : forall p text,
    text <> "" -> every p text = true -> Matches (Regex.Plus p) text []
| m_opt_none : forall p, Matches (Regex.Opt p) "" []
| m_opt_some : forall p c, p c = true -> Matches (Regex.Opt p) (String c "") []
| m_group : forall r text caps,
    Matches r text caps -> Matches (Regex.Group r) text (caps ++ [text])%list
| m_seq : forall r1 r2 text1 text2 caps1 caps2,
    Matches r1 text1 caps1 -> Matches r2 text2 caps2 ->
    Matches (Regex.Seq r1 r2) (text1 ++ text2) (caps1 ++ caps2)%list.

(** Nothing, or one quote character. *)
Definition quoteOrNothing (q : string) : Prop :=
  q = "" \/ exists c, q = String c "" /\ isQuote c = true.

(** [occ] is an occurrence of the pattern of [findCssUrls] whose group
    captures [capture]. *)
Definition cssUrlOccurrence (occ capture : string) : Prop :=
  exists ws1 q1 q2 ws2,
    occ = "url(" ++ ws1 ++ q1 ++ capture ++ q2 ++ ws2 ++ ")"
    /\ every Js.isWhiteSpace ws1 = true
    /\ quoteOrNothing q1
    /\ capture <> ""
    /\ every notQuoteNorParen capture = true
    /\ quoteOrNothing q2
    /\ every Js.isWhiteSpace ws2 = true.

(** ** HTML discovery as one list of pushes *)

(** [pushUrl] over a list of references with their initiators, in order. *)
Definition pushList {P : Platform} (resources : JsMap.t Candidate)
           (xs : list (option string * Initiator)) : JsMap.t Candidate :=
  fold_left (fun m x => pushUrl m (fst x) (snd x)) xs resources.

(** What one element makes a pass push. *)
Definition attrPush {P : Platform} (target name : string) (initiator : Initiator)
           (el : Element) : list (option string * Initiator) :=
  [(absoluteUrl target (attr el name), initiator)].

Definition imgPushes {P : Platform} (target : string) (el : Element)
  : list (option string * Initiator) :=
  (absoluteUrl target (Js.or (attr el "src") (attr el "data-src")), img)
  :: (if negb (Js.falsyString (attr el "srcset"))
      then map (fun part =>
                  (absoluteUrl target
                     (Some (nth 0 (Js.splitWhiteSpace (Js.trim part)) "")),
                   img_srcset))
               (Js.split "," (Js.toUSVString (attr el "srcset")))
      else []).

Definition cssPushes (initiator : Initiator) (urls : list string)
  : list (option string * Initiator) :=
  map (fun u => (Some u, initiator)) urls.

(** Every reference the eight passes push, in the order they push it. *)
Definition pushes {P : Platform} (target : string) (doc : list Element)
  : list (option string * Initiator) :=
  (flat_map (attrPush target "src" script) (filter sel_script_src doc)
   ++ flat_map (imgPushes target) (filter sel_img doc)
   ++ flat_map (attrPush target "href" stylesheet) (filter sel_link_stylesheet doc)
   ++ flat_map (attrPush target "href" preload) (filter sel_link_preload_href doc)
   ++ flat_map (attrPush target "src" iframe) (filter sel_iframe doc)
   ++ flat_map (attrPush target "src" media) (filter sel_media doc)
   ++ flat_map (fun el => cssPushes inline_style
                            (findCssUrls (Js.toUSVString (Js.or (attr el "style") (Some "")))
                                         target))
               (filter sel_style_attr doc)
   ++ flat_map (fun el => cssPushes style_tag (findCssUrls (el_html el) target))
               (filter sel_style doc))%list.

(** The initiator of the first push of [u]. *)
Fixpoint firstInitiator (u : string) (xs : list (option string * Initiator))
  : option Initiator :=
  match xs with
  | [] => None
  | (Some v, i) :: rest => if String.eqb v u then Some i else firstInitiator u rest
  | (None, _) :: rest => firstInitiator u rest
  end.

(** A URL that [pushUrl] accepts: not empty and not blocked. *)
Definition accepted {P : Platform} (u : string) : bool :=
  negb (String.eqb u "") && negb (isBlockedUrl u).

(** The map stays deduplicated, keyed by the URL of its candidates, and
    free of empty or blocked URLs. *)
Definition wellFormed {P : Platform} (m : JsMap.t Candidate) : Prop :=
  NoDup (map fst m)
  /\ Forall (fun e => c_url (snd e) = fst e /\ accepted (fst e) = true) m.

(** ** Entries of the report *)

Definition entry_initiator (e : ResultEntry) : option Initiator :=
  match e with
  | Probed info => pr_initiator info
  | Failed _ _ => None
  end.

(** A candidate that the crawl took from a stylesheet: its URL was found
    by [findCssUrls] in the body of a successful response to the GET of a
    stylesheet link that passed the filter. *)
Definition fromStylesheet {P : Platform} (net : Net)
           (cssLinks : list (option string)) (w : World) (c : Candidate) : Prop :=
  c_initiator c = css_url
  /\ exists cssUrl before r cssText,
       In (Some cssUrl) cssLinks
       /\ isBlockedUrl cssUrl = false
       /\ outcome (net (log w ++ before)%list
                       (mkRequest GET cssUrl CSS_FETCH_TIMEOUT)) = inr r
       /\ ok r = true
       /\ body r = inr cssText
       /\ In (c_url c) (findCssUrls (body_text cssText) cssUrl).

(** * Properties *)

Unset Implicit Arguments.

(** ** Strings *)

Lemma startsWith_iff (s p : string) :
  Js.startsWith s p = true <-> exists t, s = p ++ t.
Proof.
  unfold Js.startsWith. revert s.
  induction p as [|c p IH]; intros s; simpl.
  - split; [intros _; now exists s | intros _; now destruct s].
  - destruct s as [|d s]; simpl.
    + split; [discriminate | intros [t H]; discriminate].
    + destruct (ascii_dec c d) as [->|Hne].
      * rewrite IH. split; intros [t H]; exists t; [now subst | now inversion H].
      * split; [discriminate | intros [t H]; inversion H; congruence].
Qed.

Lemma endsWith_iff (s suf : string) :
  Js.endsWith s suf = true <-> exists p, s = p ++ suf.
Proof.
  induction s as [|c s IH]; cbn [Js.endsWith].
  - rewrite orb_false_r, String.eqb_eq. split.
    + intros <-. now exists "".
    + intros [[|d p] H]; simpl in H; [assumption | discriminate].
  - rewrite orb_true_iff, String.eqb_eq, IH. split.
    + intros [<- | [p ->]]; [now exists "" | now exists (String c p)].
    + intros [[|d p] H]; simpl in H.
      * now left.
      * right. inversion H. now exists p.
Qed.

(** ** The CSS scan needs no more fuel than it is given *)

Lemma star_length (R : Type) (p : ascii -> bool) (k : string -> option R) (x : R) :
  forall s : string,
    Regex.star p s k = Some x ->
    exists rest, k rest = Some x /\ (String.length rest <= String.length s)%nat.
Proof.
  induction s as [|c t IH]; cbn [Regex.star]; intros H.
  - now exists "".
  - destruct (p c).
    + destruct (Regex.star p t k) as [y|] eqn:E.
      * injection H as ->. destruct (IH eq_refl) as (rest & Hk & Hl).
        exists rest. split; [exact Hk | cbn [String.length]; lia].
      * now exists (String c t).
    + now exists (String c t).
Qed.

Lemma run_length (R : Type) (r : Regex.re) :
  forall (s : string) (caps : list string)
         (k : string -> list string -> option R) (x : R),
    Regex.run r s caps k = Some x ->
    exists rest caps',
      k rest caps' = Some x /\ (String.length rest <= String.length s)%nat.
Proof.
  induction r as [c|p|p|p|r1 IH1|r1 IH1 r2 IH2]; intros s caps k x H;
    cbn [Regex.run] in H.
  - destruct s as [|d t]; [discriminate H|].
    destruct (Ascii.eqb c d); [|discriminate H].
    exists t, caps. split; [exact H | cbn [String.length]; lia].
  - apply star_length in H as (rest & Hk & Hl). now exists rest, caps.
  - destruct s as [|d t]; [discriminate H|].
    destruct (p d); [|discriminate H].
    apply star_length in H as (rest & Hk & Hl).
    exists rest, caps. split; [exact Hk | cbn [String.length]; lia].
  - destruct s as [|d t]; [now exists "", caps|].
    destruct (p d); [|now exists (String d t), caps].
    destruct (k t caps) as [y|] eqn:E.
    + injection H as ->. exists t, caps.
      split; [exact E | cbn [String.length]; lia].
    + now exists (String d t), caps.
  - apply IH1 in H as (rest & caps' & Hk & Hl).
    now exists rest, (caps' ++ [Regex.consumed s rest])%list.
  - apply IH1 in H as (rest & caps' & Hk & Hl).
    apply IH2 in Hk as (rest2 & caps2 & Hk2 & Hl2).
    exists rest2, caps2. split; [exact Hk2 | lia].
Qed.

(** A match of the [url(...)] pattern consumes at least one character. *)
Lemma cssUrlRe_consumes (s rest : string) (caps : list string) :
  Regex.matchHere cssUrlRe s = Some (rest, caps) ->
  (String.length rest < String.length s)%nat.
Proof.
  assert (E : exists r, cssUrlRe = Regex.Seq (Regex.Chr "u") r)
    by (eexists; reflexivity).
  destruct E as [r ->].
  unfold Regex.matchHere. cbn [Regex.run].
  destruct s as [|d t]; [discriminate|].
  destruct (Ascii.eqb "u" d); [|discriminate].
  intros H. apply run_length in H as (rest' & caps' & Hk & Hl).
  injection Hk as -> _. cbn [String.length]. lia.
Qed.

(** The scan of a text of length [n] ends within [n + 1] rounds: more
    fuel gives the same matches. *)
Lemma execAll_fuel (fuel : nat) :
  forall s : string,
    (String.length s < fuel)%nat ->
    Regex.execAll (S fuel) cssUrlRe s = Regex.execAll fuel cssUrlRe s.
Proof.
  induction fuel as [|fuel IH]; intros s H; [lia|].
  change (Regex.execAll (S (S fuel)) cssUrlRe s)
    with (match Regex.matchHere cssUrlRe s with
          | Some (rest, caps) =>
              nth 0 caps "" :: Regex.execAll (S fuel) cssUrlRe rest
          | None =>
              match s with
              | String _ t => Regex.execAll (S fuel) cssUrlRe t
              | EmptyString => []
              end
          end).
  change (Regex.execAll (S fuel) cssUrlRe s)
    with (match Regex.matchHere cssUrlRe s with
          | Some (rest, caps) =>
              nth 0 caps "" :: Regex.execAll fuel cssUrlRe rest
          | None =>
              match s with
              | String _ t => Regex.execAll fuel cssUrlRe t
              | EmptyString => []
              end
          end).
  destruct (Regex.matchHere cssUrlRe s) as [[rest caps]|] eqn:E.
  - apply cssUrlRe_consumes in E. rewrite IH by lia. reflexivity.
  - destruct s as [|c t]; [reflexivity|].
    apply IH. cbn [String.length] in H. lia.
Qed.

Lemma findCssUrls_total (P : Platform) (cssText base : string) (extra : nat) :
  findCssUrls cssText base
  = flat_map (keepResolved base)
             (Regex.execAll (extra + S (String.length cssText)) cssUrlRe cssText).
Proof.
  unfold findCssUrls. f_equal.
  induction extra as [|extra IH]; [reflexivity|].
  rewrite IH. symmetry. apply (execAll_fuel (extra + S (String.length cssText))).
  lia.
Qed.

(** ** C4: the safety filter *)

Lemma blockedHost_decide (host : string) :
  (String.eqb host "localhost" || String.eqb host "127.0.0.1"
   || String.eqb host "::1" || Js.endsWith host ".local"
   || (Js.startsWith host "10." || Js.startsWith host "127."
       || Js.startsWith host "192.168." || Js.startsWith host "169.254.")) = true
  <-> blockedHost host.
Proof.
  unfold blockedHost.
  rewrite !orb_true_iff, !String.eqb_eq, endsWith_iff, !startsWith_iff.
  tauto.
Qed.

(** C4. [isBlockedUrl u] is [true] exactly when [u] does not parse as a
    URL, or its scheme is neither http nor https, or its host name in lower
    case is localhost, 127.0.0.1 or ::1, ends in .local, or starts with one
    of 10., 127., 192.168., 169.254.; in every other case it is [false]. It
    is a function of [u] alone. *)
Theorem isBlockedUrl_exactly (P : Platform) (u : string) :
  isBlockedUrl u = true <->
  (newURL u None = None
   \/ exists url, newURL u None = Some url
        /\ ((protocol url <> "http:" /\ protocol url <> "https:")
            \/ blockedHost (Js.toLowerCase (hostname url)))).
Proof.
  unfold isBlockedUrl.
  destruct (newURL u None) as [url|]; [|split; auto].
  pose proof (blockedHost_decide (Js.toLowerCase (hostname url))) as Hh.
  pose proof (String.eqb_spec (protocol url) "http:") as E1.
  pose proof (String.eqb_spec (protocol url) "https:") as E2.
  set (host := Js.toLowerCase (hostname url)) in *.
  assert (Hex : forall Q : URL -> Prop,
             (Some url = None \/ exists url', Some url = Some url' /\ Q url') <-> Q url).
  { intros Q. split.
    - intros [Hn | [url' [Hu HQ]]]; [discriminate | now injection Hu as <-].
    - intros HQ. right. now exists url. }
  rewrite Hex. clear Hex.
  destruct (String.eqb host "localhost" || String.eqb host "127.0.0.1"
            || String.eqb host "::1");
    destruct (Js.endsWith host ".local");
    destruct (Js.startsWith host "10." || Js.startsWith host "127."
              || Js.startsWith host "192.168." || Js.startsWith host "169.254.");
    simpl in Hh;
    destruct E1 as [E1|E1]; destruct E2 as [E2|E2]; simpl;
    split; intros H; try reflexivity; try tauto; try discriminate H.
  all: destruct H as [[H1 H2] | H]; try congruence;
    apply Hh in H; discriminate H.
Qed.

(** ** C9: inserting a URL that is already there *)

(** C9. Pushing a URL that the map [resources] already holds, with any
    initiator, gives back the same map: the recorded initiator is the
    first-seen one and the size is unchanged. The stylesheet crawl does the
    same on [toProbe]: a URL already in it is not added again. *)
Theorem reinsert_unchanged (P : Platform) (resources : JsMap.t Candidate)
        (toProbe : list Candidate) (u : string) (initiator : Initiator) :
  JsMap.has resources u = true ->
  pushUrl resources (Some u) initiator = resources
  /\ JsMap.get (pushUrl resources (Some u) initiator) u = JsMap.get resources u
  /\ JsMap.size (pushUrl resources (Some u) initiator) = JsMap.size resources
  /\ (found toProbe u = true -> addExtra [u] toProbe = toProbe).
Proof.
  intros Hhas.
  assert (E : pushUrl resources (Some u) initiator = resources).
  { unfold pushUrl. cbn [Js.toUSVString].
    destruct (Js.falsyString (Some u)); [reflexivity|].
    destruct (isBlockedUrl u); [reflexivity|].
    now rewrite Hhas. }
  rewrite E. repeat split.
  intros Hfound. cbn [addExtra]. rewrite Hfound. cbn [negb].
  now destruct (MAX_RESOURCES <=? List.length toProbe)%nat.
Qed.

Lemma reinsert_unchanged_witness :
  pushUrl (P := Ref.platform) Ref.oneImage (Some Ref.image) script = Ref.oneImage
  /\ JsMap.get (pushUrl (P := Ref.platform) Ref.oneImage (Some Ref.image) script)
               Ref.image
     = Some (mkCandidate Ref.image img)
  /\ addExtra [Ref.image] Ref.oneCandidate = Ref.oneCandidate.
Proof.
  destruct (reinsert_unchanged Ref.platform Ref.oneImage Ref.oneCandidate
              Ref.image script eq_refl)
    as (H1 & H2 & _ & H4).
  split; [exact H1|]. split; [|exact (H4 eq_refl)].
  rewrite H2. reflexivity.
Defined.

(** ** The map under [pushUrl] *)

Lemma has_set_other (V : Type) (m : JsMap.t V) (k k' : string) (v : V) :
  JsMap.has (JsMap.set m k v) k' = JsMap.has m k' || String.eqb k k'.
Proof.
  induction m as [|[k0 v0] m IH]; simpl.
  - now rewrite orb_false_r.
  - destruct (String.eqb_spec k0 k) as [->|Hne]; simpl.
    + destruct (String.eqb k k'); simpl; [reflexivity | now rewrite orb_false_r].
    + rewrite IH. now rewrite orb_assoc.
Qed.

Lemma set_fresh (V : Type) (m : JsMap.t V) (k : string) (v : V) :
  JsMap.has m k = false -> JsMap.set m k v = (m ++ [(k, v)])%list.
Proof.
  induction m as [|[k0 v0] m IH]; simpl; intros H; [reflexivity|].
  apply orb_false_iff in H as [H1 H2].
  rewrite H1. now rewrite IH.
Qed.

Lemma pushUrl_allowed (P : Platform) (m : JsMap.t Candidate) (u : option string)
      (i : Initiator) :
  allAllowed m -> allAllowed (pushUrl m u i).
Proof.
  intros Hm. unfold pushUrl.
  destruct (Js.falsyString u); [assumption|].
  destruct (isBlockedUrl (Js.toUSVString u)) eqn:Hb; [assumption|].
  destruct (JsMap.has m (Js.toUSVString u)) eqn:Hh; cbn [negb]; [assumption|].
  rewrite set_fresh by assumption.
  apply Forall_app. split; [assumption|].
  constructor; [exact Hb | constructor].
Qed.

(** ** The cap, loop by loop *)

Lemma buildToProbe_length (entries : JsMap.t Candidate) (toProbe : list Candidate) :
  (List.length toProbe <= MAX_RESOURCES)%nat ->
  (List.length (buildToProbe entries toProbe) <= MAX_RESOURCES)%nat.
Proof.
  revert toProbe.
  induction entries as [|[u meta] rest IH]; intros toProbe H;
    cbn [buildToProbe]; [assumption|].
  destruct (Nat.leb_spec MAX_RESOURCES (List.length toProbe)); [assumption|].
  apply IH. rewrite length_app. cbn [List.length]. lia.
Qed.

Lemma addExtra_length (extra : list string) (toProbe : list Candidate) :
  (List.length toProbe <= MAX_RESOURCES)%nat ->
  (List.length (addExtra extra toProbe) <= MAX_RESOURCES)%nat.
Proof.
  revert toProbe.
  induction extra as [|u rest IH]; intros toProbe H;
    cbn [addExtra]; [assumption|].
  destruct (Nat.leb_spec MAX_RESOURCES (List.length toProbe)); [assumption|].
  destruct (found toProbe u); cbn [negb]; apply IH; [assumption|].
  rewrite length_app. cbn [List.length]. lia.
Qed.

(** The crawl never throws, and keeps [toProbe] within the cap. *)
Lemma crawl_length (P : Platform) (net : Net) (cssLinks : list (option string)) :
  forall (toProbe : list Candidate) (w : World),
    (List.length toProbe <= MAX_RESOURCES)%nat ->
    exists toProbe' w',
      crawl net cssLinks toProbe w = (Ok toProbe', w')
      /\ (List.length toProbe' <= MAX_RESOURCES)%nat.
Proof.
  induction cssLinks as [|cssUrl rest IH]; intros toProbe w H; cbn [crawl].
  - exists toProbe, w. now split.
  - destruct (Js.falsyString cssUrl || (MAX_RESOURCES <=? List.length toProbe)%nat).
    + exists toProbe, w. now split.
    + destruct (isBlockedUrl (Js.toUSVString cssUrl)); [now apply IH|].
      unfold bind, tryCatch, fetchWithTimeout, text, readBody, bind, ret, throw.
      destruct (outcome (net (log w) _)) as [e|r]; [now apply IH|].
      destruct (ok r); [|now apply IH].
      destruct (body r) as [e|cssText]; [now apply IH|].
      apply IH. now apply addExtra_length.
Qed.

(** Once [toProbe] is full the crawl adds nothing and fetches nothing. *)
Lemma crawl_full (P : Platform) (net : Net) (cssLinks : list (option string))
      (toProbe : list Candidate) (w : World) :
  (MAX_RESOURCES <= List.length toProbe)%nat ->
  crawl net cssLinks toProbe w = (Ok toProbe, w).
Proof.
  intros H. destruct cssLinks as [|cssUrl rest]; cbn [crawl]; [reflexivity|].
  apply Nat.leb_le in H. rewrite H. now rewrite orb_true_r.
Qed.

(** ** The probe *)

Lemma probeResource_runs (net : Net) (u : string) (w : World) :
  probeResource net u w = (Ok (probeOutcome net u w), probeWorld net u w).
Proof.
  unfold probeResource, probeBody, probeOutcome, probeWorld, finalResponse,
    answeredResult, failedResult, sizeRule, headerSize, usable,
    afterRequest, headRequest, getRequest, fallsBack.
  unfold dateNow, inWorld, update, read, fetchWithTimeout, arrayBuffer,
    byteLength, readBody.
  unfold bind, finally, tryCatch, modify, gets, ret, throw.
  cbn [ps_world ps_result now log].
  destruct (outcome (net (log w) (mkRequest HEAD u TIMEOUT))) as [e|res];
    cbn [ps_world ps_result now log]; [reflexivity|].
  destruct ((status res =? 405)%Z || (status res =? 501)%Z);
    cbn [ps_world ps_result now log].
  - destruct (outcome (net (log w ++ [mkRequest HEAD u TIMEOUT])%list
                           (mkRequest GET u TIMEOUT))) as [e|res2];
      cbn [ps_world ps_result now log]; [reflexivity|].
    destruct (headers_get res2 "content-length") as [cl|];
      cbn [Js.falsyString negb Js.toUSVString];
      [destruct (String.eqb cl "") eqn:Ecl; cbn [negb];
       [|destruct (Js.parseInt cl) as [|neg|n]; [| |destruct (n =? 0)%Z eqn:En]]|];
      cbn; try rewrite En; cbn;
      destruct (body res2) as [e|b]; reflexivity.
  - destruct (headers_get res "content-length") as [cl|];
      cbn [Js.falsyString negb Js.toUSVString];
      [destruct (String.eqb cl "") eqn:Ecl; cbn [negb];
       [|destruct (Js.parseInt cl) as [|neg|n]; [| |destruct (n =? 0)%Z eqn:En]]|];
      cbn; try rewrite En; cbn; reflexivity.
Qed.

Lemma probeItem_runs (net : Net) (item : ProbeItem) (w : World) :
  probeItem item net w
  = (Ok (probedEntry net item w), probeWorld net (pi_url item) w).
Proof.
  unfold probeItem, tryCatch, bind, ret.
  now rewrite probeResource_runs.
Qed.

(** ** The stages of a probe *)

Lemma stage_probe_nil (start : Z) (item : ProbeItem) :
  stage start (probeItem item) [] = Awaits (headRequest (pi_url item)).
Proof.
  unfold stage. rewrite probeItem_runs.
  unfold probeWorld, afterRequest. cbn [log app List.length].
  destruct (outcome (scripted [] [] (headRequest (pi_url item)))) as [e|res];
    [reflexivity|].
  now destruct (fallsBack res).
Qed.

Lemma stage_probe_head (start : Z) (item : ProbeItem) (r1 : Reply) :
  stage start (probeItem item) [r1]
  = match outcome r1 with
    | inr res =>
        if fallsBack res then Awaits (getRequest (pi_url item))
        else Settled (Ok (scriptedEntry start item [r1]))
    | inl _ => Settled (Ok (scriptedEntry start item [r1]))
    end.
Proof.
  unfold stage. rewrite probeItem_runs.
  unfold probeWorld, afterRequest, scriptedEntry. cbn [log app List.length].
  change (scripted [r1] [] (headRequest (pi_url item))) with r1.
  destruct (outcome r1) as [e|res]; [reflexivity|].
  now destruct (fallsBack res).
Qed.

Lemma stage_probe_get (start : Z) (item : ProbeItem) (r1 r2 : Reply) :
  stage start (probeItem item) [r1; r2]
  = Settled (Ok (scriptedEntry start item [r1; r2])).
Proof.
  unfold stage. rewrite probeItem_runs.
  unfold probeWorld, afterRequest, scriptedEntry. cbn [log app List.length].
  change (scripted [r1; r2] [] (headRequest (pi_url item))) with r1.
  destruct (outcome r1) as [e|res]; [reflexivity|].
  now destruct (fallsBack res).
Qed.

(** ** The event loop on probes *)

Section Loop.
Variable net : Net.
Variable start : Z.
Variable base : list Request.

Lemma weights_cons (s : Slot ResultEntry) (slots : list (Slot ResultEntry)) :
  weights (s :: slots) = (weight s + weights slots)%nat.
Proof. reflexivity. Qed.

Lemma owing_cons (s : Slot ResultEntry) (slots : list (Slot ResultEntry)) :
  owing (s :: slots) = (owed s + owing slots)%nat.
Proof. reflexivity. Qed.

Lemma earliest_waits (A : Type) (slots : list (Slot A)) (due : Z) :
  earliest slots = Some due -> Exists (waitsFor due) slots.
Proof.
  revert due. induction slots as [|s rest IH]; intros due H; cbn [earliest] in H;
    [discriminate H|].
  destruct (slot_progress s) as [reply d|r time] eqn:Es.
  - destruct (earliest rest) as [d'|].
    + injection H as <-.
      destruct (Z.min_spec d d') as [[_ ->] | [_ ->]].
      * left. now exists reply.
      * right. now apply IH.
    + injection H as <-. left. now exists reply.
  - right. now apply IH.
Qed.

Lemma earliest_none (A : Type) (slots : list (Slot A)) :
  earliest slots = None -> Forall (@finished A) slots.
Proof.
  induction slots as [|s rest IH]; intros H; cbn [earliest] in H; [constructor|].
  destruct (slot_progress s) as [reply d|r time] eqn:Es.
  - destruct (earliest rest); discriminate H.
  - constructor; [now exists r, time | now apply IH].
Qed.

Lemma weightless (gets : list Request) (xs : list (ProbeItem * Reply))
      (slots : list (Slot ResultEntry)) :
  Forall2 (probing net start base gets) xs slots ->
  weights slots = 0%nat -> Forall (@finished _) slots.
Proof.
  induction 1 as [|x s xs slots Hs _ IH]; intros Hw; [constructor|].
  rewrite weights_cons in Hw.
  constructor; [|apply IH; lia].
  revert Hw. destruct Hs; cbn [weight slot_progress slot_script List.length Nat.sub];
    intros Hw; try lia.
  now eexists; eexists.
Qed.

(** A slot stays what it is when more GET requests go out. *)
Lemma probing_more (gets more : list Request) (x : ProbeItem * Reply)
      (s : Slot ResultEntry) :
  probing net start base gets x s ->
  probing net start base (gets ++ more)%list x s.
Proof.
  intros [|res before after Hout Hfb Hgets r2|script Hscript].
  - constructor.
  - apply (@probing_get net start base (gets ++ more)%list x res before
                        (after ++ more)%list Hout Hfb).
    rewrite Hgets, <- app_assoc. reflexivity.
  - constructor. revert Hscript. unfold probeScript.
    destruct (outcome (snd x)) as [e|res]; [tauto|].
    destruct (fallsBack res); [|tauto].
    intros (before & after & Hgets & Hs).
    exists before, (after ++ more)%list.
    split; [rewrite Hgets, <- app_assoc; reflexivity | exact Hs].
Qed.

Lemma probing_all_more (gets more : list Request)
      (xs : list (ProbeItem * Reply)) (slots : list (Slot ResultEntry)) :
  Forall2 (probing net start base gets) xs slots ->
  Forall2 (probing net start base (gets ++ more)%list) xs slots.
Proof.
  induction 1; constructor; [now apply probing_more | assumption].
Qed.

(** One delivery. *)
Lemma deliver_probes (due : Z) (gets : list Request)
      (xs : list (ProbeItem * Reply)) :
  forall slots : list (Slot ResultEntry),
    Forall2 (probing net start base gets) xs slots ->
    Exists (waitsFor due) slots ->
    exists slots' more,
      deliver net start due slots (base ++ gets)%list
      = (slots', (base ++ gets ++ more)%list)
      /\ Forall2 (probing net start base (gets ++ more)%list) xs slots'
      /\ (weights slots' < weights slots)%nat
      /\ Forall (fallbackOf xs) more
      /\ (List.length more + owing slots' <= owing slots)%nat.
Proof.
  induction xs as [|x xs IH]; intros slots Hinv Hex;
    inversion Hinv as [|x' s xs' rest Hs Hrest]; subst.
  - inversion Hex.
  - assert (Hlater :
              ~ waitsFor due s ->
              exists rest' more,
                deliver net start due rest (base ++ gets)%list
                = (rest', (base ++ gets ++ more)%list)
                /\ Forall2 (probing net start base (gets ++ more)%list)
                           (x :: xs) (s :: rest')
                /\ (weights (s :: rest') < weights (s :: rest))%nat
                /\ Forall (fallbackOf (x :: xs)) more
                /\ (List.length more + owing (s :: rest') <= owing (s :: rest))%nat).
    { intros Hnot.
      assert (Hex' : Exists (waitsFor due) rest)
        by (inversion Hex; [contradiction | assumption]).
      destruct (IH rest Hrest Hex') as (rest' & more & Hd & Hi & Hw & Hg & Ho).
      exists rest', more. split; [exact Hd|].
      split; [constructor; [now apply probing_more | exact Hi]|].
      rewrite !weights_cons, !owing_cons.
      split; [lia|]. split; [|lia].
      eapply Forall_impl; [|exact Hg].
      intros rq (y & res & Hin & Hy). exists y, res. split; [now right | exact Hy]. }
    assert (Hsame : Forall2 (probing net start base (gets ++ [])%list) xs rest)
      by now apply probing_all_more.
    destruct Hs as [|res before after Hout Hfb Hgets r2|script Hscript].
    + (* waiting for the reply to HEAD *)
      cbn [deliver slot_progress slot_task slot_script app].
      destruct (Z.eqb_spec (start + took (snd x)) due) as [Hdue|Hdue].
      * unfold advance. rewrite stage_probe_head.
        destruct (outcome (snd x)) as [e|res] eqn:Hout;
          [|destruct (fallsBack res) eqn:Hfb].
        -- exists (mkSlot (probeItem (fst x)) [snd x]
                          (Finished (Ok (scriptedEntry start (fst x) [snd x]))
                                    (clock start [snd x])) :: rest), [].
           rewrite app_nil_r at 1. split; [reflexivity|].
           split. { constructor; [|assumption]. constructor.
                    unfold probeScript. now rewrite Hout. }
           rewrite !weights_cons, !owing_cons.
           cbn [weight owed slot_progress slot_script List.length Nat.sub].
           repeat split; try lia. constructor.
        -- exists (mkSlot (probeItem (fst x)) [snd x]
                          (Waiting (net (base ++ gets)%list
                                        (getRequest (pi_url (fst x))))
                                   (clock start [snd x]
                                    + took (net (base ++ gets)%list
                                                (getRequest (pi_url (fst x))))))
                   :: rest),
             [getRequest (pi_url (fst x))].
           rewrite <- app_assoc. split; [reflexivity|].
           split. { constructor; [|now apply probing_all_more].
                    exact (@probing_get net start base
                             (gets ++ [getRequest (pi_url (fst x))])%list
                             x res gets [] Hout Hfb eq_refl). }
           rewrite !weights_cons, !owing_cons.
           cbn [weight owed slot_progress slot_script List.length Nat.sub].
           repeat split; try lia.
           constructor; [|constructor]. exists x, res. split; [now left | now repeat split].
        -- exists (mkSlot (probeItem (fst x)) [snd x]
                          (Finished (Ok (scriptedEntry start (fst x) [snd x]))
                                    (clock start [snd x])) :: rest), [].
           rewrite app_nil_r at 1. split; [reflexivity|].
           split. { constructor; [|assumption]. constructor.
                    unfold probeScript. now rewrite Hout, Hfb. }
           rewrite !weights_cons, !owing_cons.
           cbn [weight owed slot_progress slot_script List.length Nat.sub].
           repeat split; try lia. constructor.
      * destruct Hlater as (rest' & more & Hd & Hrest').
        { intros [reply Hr]. cbn in Hr. injection Hr as _ Hr. contradiction. }
        rewrite Hd. now exists (mkSlot (probeItem (fst x)) []
                                   (Waiting (snd x) (start + took (snd x))) :: rest'),
                          more.
    + (* waiting for the reply to GET *)
      cbn [deliver slot_progress slot_task slot_script app].
      destruct (Z.eqb_spec (start + took (snd x) + took r2) due) as [Hdue|Hdue].
      * unfold advance. rewrite stage_probe_get.
        exists (mkSlot (probeItem (fst x)) [snd x; r2]
                       (Finished (Ok (scriptedEntry start (fst x) [snd x; r2]))
                                 (clock start [snd x; r2])) :: rest), [].
        rewrite app_nil_r at 1. split; [reflexivity|].
        split. { constructor; [|assumption]. constructor.
                 unfold probeScript. rewrite Hout, Hfb.
                 exists before, after. rewrite app_nil_r. now split. }
        rewrite !weights_cons, !owing_cons.
        cbn [weight owed slot_progress slot_script List.length Nat.sub].
        repeat split; try lia. constructor.
      * destruct Hlater as (rest' & more & Hd & Hrest').
        { intros [reply Hr]. cbn in Hr. injection Hr as _ Hr. contradiction. }
        rewrite Hd. now exists (mkSlot (probeItem (fst x)) [snd x]
                                   (Waiting r2 (start + took (snd x) + took r2)) :: rest'),
                          more.
    + (* settled *)
      cbn [deliver slot_progress].
      destruct Hlater as (rest' & more & Hd & Hrest').
      { intros [reply Hr]. discriminate Hr. }
      rewrite Hd. now eexists; exists more.
Qed.

Lemma eventLoop_probes (xs : list (ProbeItem * Reply)) (fuel : nat) :
  forall (slots : list (Slot ResultEntry)) (gets : list Request),
    Forall2 (probing net start base gets) xs slots ->
    (weights slots <= fuel)%nat ->
    exists slots' more,
      eventLoop net fuel start slots (base ++ gets)%list
      = (slots', (base ++ gets ++ more)%list)
      /\ Forall2 (probing net start base (gets ++ more)%list) xs slots'
      /\ Forall (@finished _) slots'
      /\ Forall (fallbackOf xs) more
      /\ (List.length more + owing slots' <= owing slots)%nat.
Proof.
  induction fuel as [|fuel IH]; intros slots gets Hinv Hw; cbn [eventLoop].
  - exists slots, []. rewrite app_nil_r at 1. split; [reflexivity|].
    split; [now apply probing_all_more|].
    split; [apply (weightless gets xs); [assumption | lia]|].
    split; [constructor | cbn; lia].
  - destruct (earliest slots) as [due|] eqn:E.
    + apply earliest_waits in E.
      destruct (deliver_probes due gets xs slots Hinv E)
        as (slots1 & more1 & Hd & Hinv1 & Hw1 & Hg1 & Ho1).
      rewrite Hd.
      destruct (IH slots1 (gets ++ more1)%list Hinv1) as
          (slots2 & more2 & Hrun & Hinv2 & Hfin & Hg2 & Ho2); [lia|].
      rewrite Hrun.
      exists slots2, (more1 ++ more2)%list.
      split; [now rewrite <- app_assoc|].
      split; [now rewrite app_assoc|]. split; [assumption|].
      split; [now apply Forall_app|]. rewrite length_app. lia.
    + exists slots, []. rewrite app_nil_r at 1. split; [reflexivity|].
      split; [now apply probing_all_more|].
      split; [now apply earliest_none|].
      split; [constructor | cbn; lia].
Qed.

End Loop.

Lemma headPhase_items (net : Net) (items : list ProbeItem) :
  forall sent : list Request, map fst (headPhase net sent items) = items.
Proof.
  induction items as [|item rest IH]; intros sent; cbn [headPhase map fst];
    [reflexivity | now rewrite IH].
Qed.

Lemma launch_probes (net : Net) (start : Z) (base : list Request)
      (items : list ProbeItem) :
  forall sent : list Request,
    exists slots,
      launch net start (map probeItem items) sent
      = (slots, (sent ++ headsOf items)%list)
      /\ Forall2 (probing net start base []) (headPhase net sent items) slots
      /\ weights slots = (2 * List.length items)%nat
      /\ owing slots = List.length items.
Proof.
  induction items as [|item rest IH]; intros sent;
    cbn [map launch headPhase headsOf List.length].
  - exists []. rewrite app_nil_r. repeat split. constructor.
  - unfold advance. rewrite stage_probe_nil.
    destruct (IH (sent ++ [headRequest (pi_url item)])%list)
      as (slots & Hl & Hinv & Hw & Ho).
    rewrite Hl.
    eexists. split; [unfold headsOf; now rewrite <- app_assoc|].
    split.
    { constructor; [|exact Hinv].
      exact (probing_head net start base []
               (item, net sent (headRequest (pi_url item)))). }
    rewrite weights_cons, owing_cons, Hw, Ho.
    cbn [weight owed slot_progress slot_script List.length Nat.sub]. lia.
Qed.

Lemma settle_probes (net : Net) (start : Z) (base gets : list Request)
      (xs : list (ProbeItem * Reply)) (slots : list (Slot ResultEntry)) :
  Forall2 (probing net start base gets) xs slots ->
  Forall (@finished _) slots ->
  exists scripts,
    Forall2 (fun x script =>
               probeScript net base gets (pi_url (fst x)) (snd x) script)
            xs scripts
    /\ map (@ending _) slots
       = map (fun p => (Ok (scriptedEntry start (fst p) (snd p)),
                        clock start (snd p)))
             (combine (map fst xs) scripts).
Proof.
  induction 1 as [|x s xs slots Hs _ IH]; intros Hfin.
  - exists []. split; [constructor | reflexivity].
  - inversion Hfin as [|s' slots' Hf Hfin']; subst.
    destruct (IH Hfin') as (scripts & Hscripts & Hends).
    destruct Hs as [|res before after Hout Hfb Hgets r2|script Hscript].
    + destruct Hf as (r & time & Hf). discriminate Hf.
    + destruct Hf as (r & time & Hf). discriminate Hf.
    + exists (script :: scripts). split; [now constructor|].
      cbn [map combine fst snd]. now rewrite Hends.
Qed.

Lemma all_fulfilled (A B : Type) (f : B -> A) (g : B -> Z) (l : list B) :
  firstRejection (map (fun p => (Ok (f p), g p)) l) = None
  /\ values (map (fun p => (Ok (f p), g p)) l) = map f l.
Proof.
  induction l as [|b l [IH1 IH2]]; cbn [map firstRejection values];
    [now split|].
  now rewrite IH1, IH2.
Qed.

Lemma combine_snd (A B : Type) (l : list A) :
  forall l' : list B,
    List.length l = List.length l' -> map snd (combine l l') = l'.
Proof.
  induction l as [|a l IH]; intros [|b l'] H; cbn in *; try reflexivity;
    try discriminate H.
  now rewrite IH by lia.
Qed.

(** A batch of probes, from the first call to the last settlement. *)
Lemma probeChunk_runs (net : Net) (chunk : list ProbeItem) (w : World) :
  let base := (log w ++ headsOf chunk)%list in
  exists scripts gets,
    probeChunk net chunk w
    = (Ok (entriesOf (now w) chunk scripts),
       mkWorld (lastArrival (now w) scripts) (base ++ gets)%list)
    /\ Forall2 (fun x script =>
                  probeScript net base gets (pi_url (fst x)) (snd x) script)
               (headPhase net (log w) chunk) scripts
    /\ Forall (fallbackOf (headPhase net (log w) chunk)) gets
    /\ (List.length gets <= List.length chunk)%nat.
Proof.
  intros base. unfold probeChunk, promiseAll.
  destruct (launch_probes net (now w) base chunk (log w))
    as (slots0 & Hl & Hinv0 & Hw0 & Ho0).
  rewrite Hl. fold base.
  destruct (eventLoop_probes net (now w) base (headPhase net (log w) chunk)
              (2 * List.length (map probeItem chunk)) slots0 [] Hinv0)
    as (slots & gets & Hrun & Hinv & Hfin & Hgets & Ho).
  { rewrite length_map. lia. }
  rewrite app_nil_r in Hrun. cbn [app] in Hrun, Hinv. rewrite Hrun.
  destruct (settle_probes net (now w) base gets _ _ Hinv Hfin)
    as (scripts & Hscripts & Hends).
  rewrite headPhase_items in Hends.
  rewrite Hends.
  destruct (all_fulfilled _ _
              (fun p : ProbeItem * list Reply => scriptedEntry (now w) (fst p) (snd p))
              (fun p : ProbeItem * list Reply => clock (now w) (snd p))
              (combine chunk scripts)) as [-> ->].
  exists scripts, gets.
  split.
  { unfold entriesOf, lastSettled, lastArrival.
    rewrite map_map. cbn [snd].
    rewrite <- (map_map snd (clock (now w))).
    rewrite combine_snd; [reflexivity|].
    apply Forall2_length in Hscripts.
    rewrite <- Hscripts, <- (length_map fst), headPhase_items. reflexivity. }
  split; [exact Hscripts|]. split; [exact Hgets|]. lia.
Qed.

Lemma fallbackOf_getOf (net : Net) (sent : list Request) (chunk : list ProbeItem)
      (rq : Request) :
  fallbackOf (headPhase net sent chunk) rq -> getOf chunk rq.
Proof.
  intros (x & res & Hin & _ & _ & ->). exists (fst x). split; [|reflexivity].
  rewrite <- (headPhase_items net chunk sent). now apply in_map.
Qed.

(** ** What the entries of a batch say *)

Lemma scriptedEntry_tag (start : Z) (item : ProbeItem) (script : list Reply) :
  exists info,
    scriptedEntry start item script = Probed info
    /\ pr_url info = pi_url item
    /\ pr_initiator info = Some (pi_initiator item).
Proof.
  unfold scriptedEntry, probedEntry, probeOutcome.
  eexists. split; [reflexivity|].
  now destruct (finalResponse (scripted script) (pi_url item) (mkWorld start []))
    as [[e m]|[m res]].
Qed.

Lemma probedInBatch_tag (net : Net) (item : ProbeItem) (e : ResultEntry) :
  probedInBatch net item e ->
  exists info,
    e = Probed info /\ pr_url info = pi_url item
    /\ pr_initiator info = Some (pi_initiator item).
Proof.
  intros (start & sent & base & gets & script & _ & ->). apply scriptedEntry_tag.
Qed.

Lemma probed_tags (net : Net) (items : list ProbeItem) (entries : list ResultEntry) :
  Forall2 (probedInBatch net) items entries ->
  map (fun e => (entry_url e, entry_initiator e)) entries
  = map (fun item => (pi_url item, Some (pi_initiator item))) items.
Proof.
  induction 1 as [|item e items entries He _ IH]; [reflexivity|].
  cbn [map]. rewrite IH. f_equal.
  apply probedInBatch_tag in He as (info & -> & Hu & Hi). cbn. now rewrite Hu, Hi.
Qed.

Lemma probed_urls (net : Net) (items : list ProbeItem) (entries : list ResultEntry) :
  Forall2 (probedInBatch net) items entries ->
  map entry_url entries = map pi_url items.
Proof.
  intros H. apply probed_tags in H.
  apply (f_equal (map fst)) in H. now rewrite !map_map in H.
Qed.

(** The time an entry reports is the time its last reply arrived, counted
    from the call. *)
Lemma scriptedEntry_elapsed (net : Net) (base gets : list Request) (start : Z)
      (item : ProbeItem) (r1 : Reply) (script : list Reply) :
  probeScript net base gets (pi_url item) r1 script ->
  elapsed (scriptedEntry start item script) = (clock start script - start)%Z.
Proof.
  unfold probeScript, scriptedEntry, probedEntry, probeOutcome, finalResponse,
    probeWorld, afterRequest.
  cbn [log now app].
  destruct (outcome r1) as [e|res] eqn:Hout.
  - intros ->. change (scripted [r1] [] (headRequest (pi_url item))) with r1.
    rewrite Hout. reflexivity.
  - destruct (fallsBack res) eqn:Hfb.
    + intros (before & after & _ & ->).
      set (r2 := net (base ++ before)%list (getRequest (pi_url item))).
      change (scripted [r1; r2] [] (headRequest (pi_url item))) with r1.
      change (scripted [r1; r2] [headRequest (pi_url item)]
                       (getRequest (pi_url item))) with r2.
      rewrite Hout, Hfb. cbn [now log].
      change (scripted [r1; r2] [headRequest (pi_url item)]
                       (getRequest (pi_url item))) with r2.
      now destruct (outcome r2).
    + intros ->. change (scripted [r1] [] (headRequest (pi_url item))) with r1.
      rewrite Hout, Hfb. reflexivity.
Qed.

(** Over a network whose replies depend on the request alone, an entry
    of a batch is the entry of the item probed alone. *)
Lemma probedInBatch_alone (f : Request -> Reply) (item : ProbeItem) (e : ResultEntry) :
  probedInBatch (fun _ => f) item e -> e = probedAlone (fun _ => f) item.
Proof.
  intros (start & sent & base & gets & script & Hs & ->).
  revert Hs.
  unfold probeScript, scriptedEntry, probedAlone, probedEntry, probeOutcome,
    finalResponse, probeWorld, afterRequest.
  cbn [log now app].
  set (r1 := f (headRequest (pi_url item))).
  set (r2 := f (getRequest (pi_url item))).
  destruct (outcome r1) as [e|res] eqn:Hout.
  - intros ->. change (scripted [r1] [] (headRequest (pi_url item))) with r1.
    rewrite Hout. cbn [now]. unfold failedResult. do 4 f_equal; lia.
  - destruct (fallsBack res) eqn:Hfb.
    + intros (before & after & _ & ->).
      change (scripted [r1; r2] [] (headRequest (pi_url item))) with r1.
      change (scripted [r1; r2] [headRequest (pi_url item)]
                       (getRequest (pi_url item))) with r2.
      rewrite Hout, Hfb. cbn [now log].
      change (scripted [r1; r2] [headRequest (pi_url item)]
                       (getRequest (pi_url item))) with r2.
      destruct (outcome r2); unfold failedResult, answeredResult;
        do 4 f_equal; lia.
    + intros ->. change (scripted [r1] [] (headRequest (pi_url item))) with r1.
      rewrite Hout, Hfb. cbn [now]. unfold answeredResult. do 4 f_equal; lia.
Qed.

Lemma probed_alone (f : Request -> Reply) (items : list ProbeItem)
      (entries : list ResultEntry) :
  Forall2 (probedInBatch (fun _ => f)) items entries ->
  entries = map (probedAlone (fun _ => f)) items.
Proof.
  induction 1 as [|item e items entries He _ IH]; [reflexivity|].
  cbn [map]. rewrite <- IH. f_equal. now apply probedInBatch_alone.
Qed.

(** ** A batch, as the handler sees it *)

Lemma entriesOf_probed (net : Net) (base gets : list Request) (start : Z)
      (chunk : list ProbeItem) :
  forall (sent : list Request) (scripts : list (list Reply)),
    Forall2 (fun x script =>
               probeScript net base gets (pi_url (fst x)) (snd x) script)
            (headPhase net sent chunk) scripts ->
    Forall2 (probedInBatch net) chunk (entriesOf start chunk scripts).
Proof.
  unfold entriesOf.
  induction chunk as [|item rest IH]; intros sent scripts H; cbn [headPhase] in H;
    inversion H as [|x script xs scripts' Hs Hrest]; subst;
    cbn [combine map fst snd]; constructor.
  - now exists start, sent, base, gets, script.
  - exact (IH _ _ Hrest).
Qed.

Lemma fold_max (l : list Z) :
  forall a : Z,
    let m := fold_left Z.max l a in
    (a <= m)%Z /\ Forall (fun t => t <= m)%Z l /\ (m = a \/ In m l).
Proof.
  induction l as [|t l IH]; intros a; cbn [fold_left].
  - split; [lia|]. split; [constructor | now left].
  - destruct (IH (Z.max a t)) as (H1 & H2 & H3).
    split; [lia|]. split.
    + constructor; [lia | exact H2].
    + destruct H3 as [H3 | H3]; [|right; now right].
      rewrite H3.
      destruct (Z.max_spec a t) as [[_ E] | [_ E]]; rewrite E;
        [right; now left | now left].
Qed.

(** A batch lasts as long as its slowest probe. *)
Lemma entriesOf_elapsed (net : Net) (base gets : list Request) (start : Z)
      (chunk : list ProbeItem) (sent : list Request) (scripts : list (list Reply)) :
  Forall2 (fun x script =>
             probeScript net base gets (pi_url (fst x)) (snd x) script)
          (headPhase net sent chunk) scripts ->
  map elapsed (entriesOf start chunk scripts)
  = map (fun script => (clock start script - start)%Z) scripts.
Proof.
  unfold entriesOf. revert sent scripts.
  induction chunk as [|item rest IH]; intros sent scripts H; cbn [headPhase] in H;
    inversion H as [|x script xs scripts' Hs Hrest]; subst;
    cbn [combine map fst snd]; [reflexivity|].
  rewrite (IH _ _ Hrest). f_equal.
  exact (scriptedEntry_elapsed net base gets start item _ script Hs).
Qed.

Lemma lastArrival_slowest (start : Z) (scripts : list (list Reply)) :
  let d := (lastArrival start scripts - start)%Z in
  Forall (fun t => t <= d)%Z (map (fun script => (clock start script - start)%Z) scripts)
  /\ (scripts = []
      \/ In d (map (fun script => (clock start script - start)%Z) scripts)).
Proof.
  unfold lastArrival.
  destruct scripts as [|s scripts]; cbn [map]; [split; [constructor | now left]|].
  destruct (fold_max (map (clock start) scripts) (clock start s)) as (H1 & H2 & H3).
  set (m := fold_left Z.max (map (clock start) scripts) (clock start s)) in *.
  split.
  - constructor; [lia|].
    apply Forall_map. rewrite Forall_map in H2.
    eapply Forall_impl; [|exact H2]. cbn. intros; lia.
  - right. destruct H3 as [-> | H3]; [now left|]. right.
    apply in_map_iff in H3 as (s' & <- & Hin).
    apply in_map_iff. now exists s'.
Qed.

Lemma headsOf_app (a b : list ProbeItem) :
  headsOf (a ++ b) = (headsOf a ++ headsOf b)%list.
Proof. unfold headsOf. apply map_app. Qed.

(** What one batch does. *)
Lemma probeChunk_spec (net : Net) (chunk : list ProbeItem) (w : World) :
  exists entries w' gets,
    probeChunk net chunk w = (Ok entries, w')
    /\ Forall2 (probedInBatch net) chunk entries
    /\ log w' = (log w ++ headsOf chunk ++ gets)%list
    /\ Forall (getOf chunk) gets
    /\ (List.length gets <= List.length chunk)%nat
    /\ Forall (fun e => elapsed e <= now w' - now w)%Z entries
    /\ (chunk = [] \/ Exists (fun e => elapsed e = now w' - now w)%Z entries).
Proof.
  destruct (probeChunk_runs net chunk w) as (scripts & gets & Hrun & Hs & Hg & Hl).
  exists (entriesOf (now w) chunk scripts),
    (mkWorld (lastArrival (now w) scripts) ((log w ++ headsOf chunk) ++ gets)%list),
    gets.
  split; [exact Hrun|].
  split; [exact (entriesOf_probed net _ gets (now w) chunk (log w) scripts Hs)|].
  split; [cbn [log]; now rewrite <- app_assoc|].
  split. { eapply Forall_impl; [|exact Hg].
           intros rq. apply fallbackOf_getOf. }
  split; [exact Hl|].
  cbn [now].
  pose proof (entriesOf_elapsed net _ gets (now w) chunk (log w) scripts Hs) as He.
  destruct (lastArrival_slowest (now w) scripts) as [H1 H2].
  rewrite <- He in H1, H2.
  split.
  - now rewrite Forall_map in H1.
  - destruct H2 as [-> | H2].
    + left. apply Forall2_length in Hs. rewrite <- (length_map fst) in Hs.
      rewrite headPhase_items in Hs. now destruct chunk.
    + right. apply in_map_iff in H2 as (e & He' & Hin).
      apply Exists_exists. now exists e.
Qed.

Lemma batches_concat (A : Type) (fuel : nat) :
  forall l : list A, (List.length l <= fuel)%nat -> List.concat (batches fuel l) = l.
Proof.
  induction fuel as [|fuel IH]; intros l H.
  - destruct l; [reflexivity | cbn in H; lia].
  - destruct l as [|x l]; [reflexivity|].
    cbn [batches List.concat]. rewrite IH.
    + apply firstn_skipn.
    + rewrite length_skipn. unfold CONCURRENCY. cbn [List.length] in *. lia.
Qed.

Lemma batches_sizes (A : Type) (fuel : nat) :
  forall l : list A,
    (List.length l <= fuel)%nat ->
    Forall (fun b => 1 <= List.length b <= CONCURRENCY)%nat (batches fuel l)
    /\ Forall (fun b => List.length b = CONCURRENCY) (removelast (batches fuel l)).
Proof.
  induction fuel as [|fuel IH]; intros l H; [split; constructor|].
  destruct l as [|x l]; [split; constructor|].
  cbn [batches].
  destruct (IH (skipn CONCURRENCY (x :: l))) as [IH1 IH2].
  { rewrite length_skipn. unfold CONCURRENCY. cbn [List.length] in *. lia. }
  split.
  - constructor; [|assumption].
    rewrite length_firstn. unfold CONCURRENCY. cbn [List.length]. lia.
  - destruct (batches fuel (skipn CONCURRENCY (x :: l))) as [|b bs] eqn:E.
    + constructor.
    + cbn [removelast]. constructor; [|exact IH2].
      rewrite length_firstn.
      assert (Hne : skipn CONCURRENCY (x :: l) <> []).
      { intros Hn. rewrite Hn in E. destruct fuel; discriminate E. }
      assert (Hlen : (List.length (skipn CONCURRENCY (x :: l)) <> 0)%nat).
      { now destruct (skipn CONCURRENCY (x :: l)). }
      rewrite length_skipn in Hlen. lia.
Qed.

(** A batch of one item is the probe of that item. *)
Lemma probeChunk_single (net : Net) (item : ProbeItem) (w : World) :
  probeChunk net [item] w
  = (Ok [probedEntry net item w], probeWorld net (pi_url item) w).
Proof.
  destruct (probeChunk_runs net [item] w) as (scripts & gets & Hrun & Hs & Hg & Hl).
  rewrite Hrun. clear Hrun.
  cbn [headPhase] in Hs, Hg.
  inversion Hs as [|x script xs scripts' Hscript Hrest]; subst.
  inversion Hrest; subst. clear Hs Hrest.
  cbn [fst snd] in Hscript.
  unfold headsOf in *. cbn [map] in *.
  set (u := pi_url item) in *.
  set (r1 := net (log w) (headRequest u)) in *.
  assert (Hnone : (forall res, outcome r1 = inr res -> fallsBack res = false) ->
                  gets = []).
  { intros Hno. destruct gets as [|g gets']; [reflexivity|].
    inversion Hg as [|g' gs' (x & res & Hin & Hout & Hfb & _) _]; subst.
    destruct Hin as [<- | []]. cbn [snd] in Hout.
    rewrite (Hno res Hout) in Hfb. discriminate Hfb. }
  unfold entriesOf, scriptedEntry, probedEntry, probeOutcome, finalResponse,
    probeWorld, afterRequest, lastArrival, headsOf.
  cbn [combine map fst snd log now app].
  fold u. fold r1.
  unfold probeScript in Hscript.
  destruct (outcome r1) as [e|res] eqn:Hout.
  - subst script. rewrite Hnone by discriminate.
    change (scripted [r1] [] (headRequest u)) with r1. rewrite Hout.
    cbn [clock fold_left now log]. rewrite app_nil_r. reflexivity.
  - destruct (fallsBack res) eqn:Hfb.
    + destruct Hscript as (before & after & Hgets & ->).
      assert (Hb : before = [] /\ after = []).
      { rewrite Hgets, length_app in Hl. cbn [List.length] in Hl.
        destruct before; [|cbn in Hl; lia]. destruct after; [|cbn in Hl; lia].
        now split. }
      destruct Hb as [-> ->]. rewrite Hgets. rewrite !app_nil_r. cbn [app].
      set (r2 := net (log w ++ [headRequest u])%list (getRequest u)).
      change (scripted [r1; r2] [] (headRequest u)) with r1.
      rewrite Hout, Hfb. cbn [now log app].
      change (scripted [r1; r2] [headRequest u] (getRequest u)) with r2.
      cbn [clock fold_left].
      now destruct (outcome r2).
    + subst script. rewrite Hnone.
      * change (scripted [r1] [] (headRequest u)) with r1. rewrite Hout, Hfb.
        cbn [clock fold_left now log]. rewrite app_nil_r. reflexivity.
      * intros res' [= <-]. exact Hfb.
Qed.

(** ** The batch loop *)

(** The index loop of the handler visits the consecutive batches. *)
Lemma probeLoop_runs (net : Net) (probes : list ProbeItem)
      (fuel : nat) :
  forall (i : nat) (results : list ResultEntry) (w : World),
    (List.length probes - i <= fuel)%nat ->
    probeLoop net fuel i probes results w
    = runBatches net (batches fuel (skipn i probes)) results w.
Proof.
  induction fuel as [|fuel IH]; intros i results w H; cbn [probeLoop batches].
  - reflexivity.
  - destruct (Nat.ltb_spec i (List.length probes)) as [Hlt|Hge].
    + destruct (skipn i probes) as [|x l] eqn:E.
      { apply (f_equal (@List.length _)) in E. rewrite length_skipn in E.
        cbn in E. lia. }
      rewrite <- E. cbn [runBatches]. unfold bind, slice.
      replace (i + CONCURRENCY - i)%nat with CONCURRENCY by lia.
      destruct (probeChunk net (firstn CONCURRENCY (skipn i probes)) w)
        as [[chunkResults|e] w1]; [|reflexivity].
      rewrite skipn_skipn.
      replace (CONCURRENCY + i)%nat with (i + CONCURRENCY)%nat by lia.
      apply IH. unfold CONCURRENCY. lia.
    + rewrite skipn_all2 by lia. reflexivity.
Qed.

Lemma runBatches_spec (net : Net) (bs : list (list ProbeItem)) :
  forall (results : list ResultEntry) (w : World),
    exists entries w' reqs,
      runBatches net bs results w = (Ok (results ++ entries)%list, w')
      /\ Forall2 (probedInBatch net) (List.concat bs) entries
      /\ log w' = (log w ++ reqs)%list
      /\ batchTraffic bs reqs.
Proof.
  induction bs as [|chunk rest IH]; intros results w; cbn [runBatches List.concat].
  - exists [], w, []. rewrite !app_nil_r.
    repeat split; constructor.
  - destruct (probeChunk_spec net chunk w)
      as (entries1 & w1 & gets & Hrun & Hp & Hlog & Hg & Hl & _).
    destruct (IH (results ++ entries1)%list w1)
      as (entries2 & w2 & reqs & Hrun2 & Hp2 & Hlog2 & Ht).
    unfold bind. rewrite Hrun, Hrun2.
    exists (entries1 ++ entries2)%list, w2, (headsOf chunk ++ gets ++ reqs)%list.
    split; [now rewrite app_assoc|].
    split; [now apply Forall2_app|].
    split; [rewrite Hlog2, Hlog; now rewrite <- !app_assoc|].
    now constructor.
Qed.

(** The batch loop in stages: every entry is the one of its item, and
    the requests go out batch by batch. *)
Lemma probeAll_spec (net : Net) (probes : list ProbeItem) (w : World) :
  exists results w' reqs,
    probeAll net probes w = (Ok results, w')
    /\ Forall2 (probedInBatch net) probes results
    /\ log w' = (log w ++ reqs)%list
    /\ batchTraffic (batchesOf probes) reqs.
Proof.
  unfold probeAll. rewrite probeLoop_runs by lia. cbn [skipn].
  destruct (runBatches_spec net (batches (List.length probes) probes) [] w)
    as (entries & w' & reqs & Hrun & Hp & Hlog & Ht).
  rewrite batches_concat in Hp by lia.
  exists entries, w', reqs. now repeat split.
Qed.

(** What the requests of a run of batches are. *)
Lemma batchTraffic_requests (bs : list (list ProbeItem)) (reqs : list Request) :
  batchTraffic bs reqs ->
  (List.length reqs <= 2 * List.length (List.concat bs))%nat
  /\ Forall (fun rq => In (rq_url rq) (map pi_url (List.concat bs))
                       /\ rq_timeout rq = TIMEOUT) reqs
  /\ Forall (fun item => In (headRequest (pi_url item)) reqs) (List.concat bs).
Proof.
  induction 1 as [|chunk rest gets reqs Hg Hl _ (IH1 & IH2 & IH3)];
    cbn [List.concat].
  - repeat split; constructor.
  - split.
    { rewrite !length_app. unfold headsOf. rewrite length_map. lia. }
    split.
    { rewrite map_app. apply Forall_app. split; [|apply Forall_app; split].
      - unfold headsOf. apply Forall_map. apply Forall_forall.
        intros item Hin. cbn. split; [|reflexivity].
        apply in_or_app. left. now apply in_map.
      - eapply Forall_impl; [|exact Hg].
        intros rq (item & Hin & ->). cbn. split; [|reflexivity].
        apply in_or_app. left. now apply in_map.
      - eapply Forall_impl; [|exact IH2].
        intros rq [H1 H2]. split; [|exact H2]. apply in_or_app. now right. }
    apply Forall_app. split.
    + apply Forall_forall. intros item Hin.
      apply in_or_app. left. unfold headsOf.
      apply (in_map (fun item => headRequest (pi_url item))). exact Hin.
    + eapply Forall_impl; [|exact IH3].
      intros item Hin. apply in_or_app. right. apply in_or_app. now right.
Qed.

Lemma probeAll_traffic (net : Net) (probes : list ProbeItem) (w : World) :
  exists results w' reqs,
    probeAll net probes w = (Ok results, w')
    /\ Forall2 (probedInBatch net) probes results
    /\ log w' = (log w ++ reqs)%list
    /\ (List.length reqs <= 2 * List.length probes)%nat
    /\ Forall (fun rq => In (rq_url rq) (map pi_url probes)
                         /\ rq_timeout rq = TIMEOUT) reqs
    /\ Forall (fun item => In (headRequest (pi_url item)) reqs) probes.
Proof.
  destruct (probeAll_spec net probes w) as (results & w' & reqs & Hrun & Hp & Hlog & Ht).
  apply batchTraffic_requests in Ht.
  unfold batchesOf in Ht. rewrite batches_concat in Ht by lia.
  exists results, w', reqs. tauto.
Qed.

(** ** C8: the HEAD/GET fallback *)

(** C8. When the HEAD request is answered, a status of 405 or 501 is
    followed by exactly one GET request for the same URL with the same
    time-out, and the result is built from the outcome of that GET; any
    other status is followed by no request, and the result carries the
    HEAD response's status. *)
Theorem head_fallback (net : Net) (u : string) (w : World) (res : Response) :
  outcome (net (log w) (headRequest u)) = inr res ->
  exists r w',
    probeResource net u w = (Ok r, w')
    /\ rq_timeout (getRequest u) = rq_timeout (headRequest u)
    /\ if (status res =? 405)%Z || (status res =? 501)%Z
       then log w' = (log w ++ [headRequest u; getRequest u])%list
            /\ pr_methodTried r = Some GET
            /\ match outcome (net (log w ++ [headRequest u])%list (getRequest u)) with
               | inr res2 => pr_status r = Some (status res2)
                             /\ pr_ok r = ok res2
                             /\ pr_contentType r
                                = Js.or (headers_get res2 "content-type") None
               | inl e => pr_status r = None
                          /\ pr_error r = Some (errorText e)
               end
       else log w' = (log w ++ [headRequest u])%list
            /\ pr_methodTried r = Some HEAD
            /\ pr_status r = Some (status res).
Proof.
  intros Hhead.
  exists (probeOutcome net u w), (probeWorld net u w).
  split; [apply probeResource_runs|]. split; [reflexivity|].
  unfold probeOutcome, probeWorld, finalResponse, afterRequest, fallsBack.
  rewrite Hhead.
  destruct ((status res =? 405)%Z || (status res =? 501)%Z); cbn [log].
  - rewrite <- app_assoc. split; [reflexivity|].
    destruct (outcome (net (log w ++ [headRequest u])%list (getRequest u)));
      repeat split.
  - repeat split.
Qed.

Lemma head_fallback_witness :
  exists r w',
    probeResource Ref.refusingHead Ref.resource Ref.start = (Ok r, w')
    /\ log w' = [headRequest Ref.resource; getRequest Ref.resource]
    /\ pr_methodTried r = Some GET
    /\ pr_status r = Some 200%Z.
Proof.
  destruct (@head_fallback Ref.refusingHead Ref.resource Ref.start
              (mkResponse 405 [] (inr (Ref.asciiBody ""))) eq_refl)
    as (r & w' & Hrun & _ & Hlog & Hm & Hs & _).
  exists r, w'. repeat split; assumption.
Defined.

(** ** C5: the size *)

(** [parseInt] gives a double: past 2^53 the digits are rounded, and a
    number too long for a double reads as [Infinity]. *)
Example parseInt_rounds :
  Js.parseInt "9007199254740993" = Js.Int 9007199254740992
  /\ Js.parseInt "9007199254740995" = Js.Int 9007199254740996
  /\ Js.parseInt " 42px" = Js.Int 42
  /\ Js.parseInt "-7" = Js.Int (-7)
  /\ Js.parseInt "abc" = Js.NaN
  /\ Js.parseInt (String "1" (Ref.zeros 308)) <> Js.Infinity false
  /\ Js.parseInt (String "1" (Ref.zeros 309)) = Js.Infinity false.
Proof. repeat split; try (vm_compute; reflexivity). vm_compute. discriminate. Qed.

(** Below 2^53 nothing is rounded. *)
Lemma nearestDouble_exact (v : Z) :
  (v < 2 ^ 53)%Z -> Js.nearestDouble v = Some v.
Proof.
  intros H. unfold Js.nearestDouble.
  apply Z.ltb_lt in H. now rewrite H.
Qed.

Lemma sizeRule_usable (m : Method) (res : Response) :
  usable (headerSize res) = true -> sizeRule m res = headerSize res.
Proof. intros H. unfold sizeRule. now rewrite H. Qed.

Lemma sizeRule_get_read (res : Response) (b : Body) :
  usable (headerSize res) = false -> body res = inr b ->
  sizeRule GET res = Some (Js.Int (Z.of_nat (body_byteLength b))).
Proof. intros H Hb. unfold sizeRule. now rewrite H, Hb. Qed.

Lemma sizeRule_get_unread (res : Response) (e : Exn) :
  usable (headerSize res) = false -> body res = inl e ->
  sizeRule GET res = headerSize res.
Proof. intros H Hb. unfold sizeRule. now rewrite H, Hb. Qed.

(** What the header leaves when it is not usable: nothing, zero, or
    [NaN]; the report then shows [null] or 0. *)
Lemma unusable_header (res : Response) :
  usable (headerSize res) = false ->
  headerSize res = None \/ headerSize res = Some (Js.Int 0)
  \/ headerSize res = Some Js.NaN.
Proof.
  destruct (headerSize res) as [[|neg|n]|]; cbn [usable]; intros H; auto.
  - discriminate H.
  - apply negb_false_iff, Z.eqb_eq in H. subst. auto.
Qed.

(** After HEAD the body plays no part. *)
Lemma sizeRule_head (res : Response) : sizeRule HEAD res = headerSize res.
Proof. unfold sizeRule. now destruct (usable (headerSize res)). Qed.

(** C5, as amended. When the probe ends with a response [res] obtained by
    method [m], the size is what the content-length header gives when
    [parseInt] reads from it a number other than zero (the digits rounded
    to a double, [Infinity] when they pass the largest double); otherwise
    the number of bytes of the body when [m] is GET and the body can be
    read; otherwise what the header left: nothing, zero, or [NaN]. After
    HEAD the size never comes from the body. *)
Theorem size_follows_rule (net : Net) (u : string) (w : World)
        (m : Method) (res : Response) :
  finalResponse net u w = inr (m, res) ->
  exists r w',
    probeResource net u w = (Ok r, w')
    /\ pr_methodTried r = Some m
    /\ pr_error r = None
    /\ pr_size r = sizeRule m res
    /\ (usable (headerSize res) = true -> pr_size r = headerSize res)
    /\ (usable (headerSize res) = false ->
        match m, body res with
        | GET, inr b => pr_size r = Some (Js.Int (Z.of_nat (body_byteLength b)))
        | _, _ =>
            pr_size r = headerSize res
            /\ (pr_size r = None \/ pr_size r = Some (Js.Int 0)
                \/ pr_size r = Some Js.NaN)
        end).
Proof.
  intros H.
  exists (probeOutcome net u w), (probeWorld net u w).
  split; [apply probeResource_runs|].
  unfold probeOutcome. rewrite H. cbn [answeredResult pr_methodTried pr_error pr_size].
  repeat split.
  - now apply sizeRule_usable.
  - intros Hu. pose proof (unusable_header res Hu) as Hh.
    destruct m.
    + now rewrite sizeRule_head.
    + destruct (body res) as [e|b] eqn:Hb.
      * now rewrite (sizeRule_get_unread res e Hu Hb).
      * exact (sizeRule_get_read res b Hu Hb).
Qed.

Lemma size_follows_rule_witness :
  exists r w',
    probeResource Ref.refusingHead Ref.resource Ref.start = (Ok r, w')
    /\ pr_methodTried r = Some GET
    /\ pr_size r = Some (Js.Int 5).
Proof.
  destruct (@size_follows_rule Ref.refusingHead Ref.resource Ref.start GET
              (mkResponse 200 [("content-type", "text/plain")]
                          (inr (Ref.asciiBody "hello")))
              eq_refl)
    as (r & w' & Hrun & Hm & _ & Hs & _).
  exists r, w'. repeat split; assumption.
Defined.

(** C5, as stated, fails. After a 405 and a GET whose body cannot be read,
    the method is GET, there is no content-length, and the size is [null],
    not a body length. After a HEAD answered 200 with the content-length
    abc, the size held by the result is [NaN], not [null]. *)
Lemma size_counterexample :
  fst (probeResource Ref.droppingBody Ref.resource Ref.start)
  = Ok (mkProbeResult Ref.resource (Some 200%Z) true (Some "text/plain")
                      None (Some 10%Z) (Some GET) None None)
  /\ fst (probeResource (Ref.declaring "abc") Ref.resource Ref.start)
     = Ok (mkProbeResult Ref.resource (Some 200%Z) true None
                         (Some Js.NaN) (Some 5%Z) (Some HEAD) None None).
Proof.
  split; reflexivity.
Qed.

(** ** C6: the probe always ends with a result *)

Lemma probeChunk_isolated (f : Request -> Reply) (items : list ProbeItem)
      (w0 : World) :
  exists w1,
    probeChunk (fun _ => f) items w0
    = (Ok (map (probedAlone (fun _ => f)) items), w1).
Proof.
  destruct (probeChunk_spec (fun _ => f) items w0)
    as (entries & w1 & gets & Hrun & Hp & _).
  exists w1. rewrite Hrun. now rewrite (probed_alone f items entries Hp).
Qed.

(** C6, as amended. [probeResource] never throws: for every URL it
    returns a result, with the elapsed time, in which exactly one of
    [status] and [error] is set. When the HEAD request or the follow-up
    GET request fails, [error] is the text of the failure and [status],
    [contentType] and [size] are [null]; when the probe ends with a
    response, [error] is [null] and [status] is that response's (a failure
    while the body is read for its length is swallowed). In a batch every
    item gets its result whatever happens to the others: over a network
    whose replies depend on the request alone, each entry is the one the
    item gets when probed alone. *)
Theorem probe_always_terminal (net : Net) (u : string) (w : World) :
  exists r w',
    probeResource net u w = (Ok r, w')
    /\ pr_url r = u
    /\ pr_timeMs r = Some (now w' - now w)%Z
    /\ ((pr_status r = None /\ pr_error r <> None)
        \/ (pr_status r <> None /\ pr_error r = None))
    /\ match finalResponse net u w with
       | inl (e, m) =>
           pr_error r = Some (errorText e) /\ pr_status r = None
           /\ pr_contentType r = None /\ pr_size r = None
           /\ pr_methodTried r = Some m
       | inr (m, res) =>
           pr_error r = None /\ pr_status r = Some (status res)
           /\ pr_methodTried r = Some m
       end
    /\ forall (f : Request -> Reply) (items : list ProbeItem) (w0 : World),
         exists w1,
           probeChunk (fun _ => f) items w0
           = (Ok (map (probedAlone (fun _ => f)) items), w1).
Proof.
  exists (probeOutcome net u w), (probeWorld net u w).
  split; [apply probeResource_runs|].
  unfold probeOutcome.
  destruct (finalResponse net u w) as [[e m]|[m res]]; cbn.
  - repeat split. { left. split; [reflexivity | discriminate]. }
    apply probeChunk_isolated.
  - repeat split. { right. split; [discriminate | reflexivity]. }
    apply probeChunk_isolated.
Qed.

(** C6, as stated, fails at the step that reads the body: after a 405 and
    a GET answered 200 whose body cannot be read, the failure is not
    recorded; [error] stays [null] and [status] is 200. *)
Lemma probe_failure_counterexample :
  body (mkResponse 200 [("content-type", "text/plain")] (inl Ref.connectionReset))
  = inl Ref.connectionReset
  /\ outcome (Ref.droppingBody [headRequest Ref.resource] (getRequest Ref.resource))
     = inr (mkResponse 200 [("content-type", "text/plain")]
                       (inl Ref.connectionReset))
  /\ exists r w',
       probeResource Ref.droppingBody Ref.resource Ref.start = (Ok r, w')
       /\ pr_error r = None
       /\ pr_status r = Some 200%Z
       /\ pr_contentType r = Some "text/plain".
Proof.
  split; [reflexivity|]. split; [reflexivity|].
  eexists. eexists. split; [reflexivity|]. repeat split.
Qed.

(** ** C7: the batch loop keeps length and order *)

(** Two probes, [a] refused on HEAD: both HEAD requests go out before
    the GET for [a]; a loop probing one item at a time would send the GET
    for [a] before the HEAD for [b]. The batch lasts as long as its
    slower probe. *)
Example two_probes_one_batch :
  let a := mkProbeItem "https://example.com/a" script None None in
  let b := mkProbeItem "https://example.com/b" img None None in
  let net : Net :=
    fun _ rq =>
      if String.eqb (rq_url rq) "https://example.com/a"
      then Ref.refusingHead [] rq
      else Ref.response 200 [] "" in
  exists results,
    probeAll net [a; b] Ref.start
    = (Ok results,
       mkWorld 10 [headRequest "https://example.com/a";
                   headRequest "https://example.com/b";
                   getRequest "https://example.com/a"])
    /\ map elapsed results = [10; 5]%Z.
Proof. eexists. split; vm_compute; reflexivity. Qed.

(** C7. For every list of probe items and every network, the batch loop
    returns one result per item, in the order of the items, and each
    result is the entry of its item, built from the replies the network
    gave to that item's requests. The loop runs the consecutive batches of
    [CONCURRENCY] items (the last one may be shorter) one after the
    other and concatenates their results: the requests go out batch by
    batch, all the HEAD requests of a batch in the order of the items
    before any GET request of that batch, and nothing of the next batch
    before. A batch ends when its slowest probe ends, and a batch of one
    item is the probe of that item. Over a network whose replies depend on
    the request alone, each result is the one the item gets when probed
    alone. *)
Theorem probeAll_keeps_order (net : Net) (probes : list ProbeItem) (w : World) :
  exists results w' reqs,
    probeAll net probes w = (Ok results, w')
    /\ List.length results = List.length probes
    /\ map entry_url results = map pi_url probes
    /\ Forall2 (probedInBatch net) probes results
    /\ probeAll net probes w = runBatches net (batchesOf probes) [] w
    /\ List.concat (batchesOf probes) = probes
    /\ Forall (fun b => 1 <= List.length b <= CONCURRENCY)%nat (batchesOf probes)
    /\ Forall (fun b => List.length b = CONCURRENCY) (removelast (batchesOf probes))
    /\ CONCURRENCY = 8%nat
    /\ log w' = (log w ++ reqs)%list
    /\ batchTraffic (batchesOf probes) reqs
    /\ (forall (chunk : list ProbeItem) (w0 : World),
          exists entries w1 gets,
            probeChunk net chunk w0 = (Ok entries, w1)
            /\ Forall2 (probedInBatch net) chunk entries
            /\ log w1 = (log w0 ++ headsOf chunk ++ gets)%list
            /\ Forall (getOf chunk) gets
            /\ (List.length gets <= List.length chunk)%nat
            /\ Forall (fun e => elapsed e <= now w1 - now w0)%Z entries
            /\ (chunk = []
                \/ Exists (fun e => elapsed e = now w1 - now w0)%Z entries))
    /\ (forall (item : ProbeItem) (w0 : World),
          probeChunk net [item] w0
          = (Ok [probedEntry net item w0], probeWorld net (pi_url item) w0))
    /\ (forall (f : Request -> Reply) (items : list ProbeItem) (w0 : World),
          exists w1,
            probeAll (fun _ => f) items w0
            = (Ok (map (probedAlone (fun _ => f)) items), w1)).
Proof.
  destruct (probeAll_spec net probes w) as (results & w' & reqs & Hrun & Hp & Hlog & Ht).
  exists results, w', reqs.
  split; [exact Hrun|].
  split. { rewrite <- (length_map entry_url), (probed_urls net probes results Hp).
           apply length_map. }
  split; [exact (probed_urls net probes results Hp)|].
  split; [exact Hp|].
  split.
  { unfold probeAll, batchesOf.
    rewrite probeLoop_runs by lia. reflexivity. }
  split; [apply batches_concat; lia|].
  split; [apply batches_sizes; lia|].
  split; [apply batches_sizes; lia|].
  split; [reflexivity|].
  split; [exact Hlog|]. split; [exact Ht|].
  split; [intros chunk w0; apply probeChunk_spec|].
  split; [intros item w0; apply probeChunk_single|].
  intros f items w0.
  destruct (probeAll_spec (fun _ => f) items w0) as (entries & w1 & _ & Hrun' & Hp' & _).
  exists w1. rewrite Hrun'. now rewrite (probed_alone f items entries Hp').
Qed.

(** ** The handler, stage by stage *)

Lemma probeAll_facts (net : Net) (probes : list ProbeItem) (w w' : World)
      (results : list ResultEntry) :
  probeAll net probes w = (Ok results, w') ->
  Forall2 (probedInBatch net) probes results
  /\ exists reqs,
       log w' = (log w ++ reqs)%list
       /\ (List.length reqs <= 2 * List.length probes)%nat
       /\ Forall (fun item => In (headRequest (pi_url item)) reqs) probes.
Proof.
  intros H.
  destruct (probeAll_traffic net probes w)
    as (results0 & w0 & reqs & Hrun & Hp & Hlog & Hlen & _ & Hheads).
  rewrite H in Hrun. injection Hrun as <- <-.
  split; [exact Hp|]. now exists reqs.
Qed.

(** A string is what the handler goes on with. *)
Lemma callTrim_runs (v : Js.json) (w : World) :
  callTrim v w
  = match v with
    | Js.JString s => (Ok (Js.trim s), w)
    | _ => (Throw notAFunction, w)
    end.
Proof. now destruct v. Qed.

Lemma inspect_report (P : Platform) (net : Net) (bodyUrl : option Js.json)
      (w w' : World) (report : Report) :
  inspect net bodyUrl w = (Ok (Reply200 report), w') ->
  let target := targetOf bodyUrl in
  let w1 := afterRequest net (mainRequest target) w in
  exists pageResp html toProbe w2 results,
    isBlockedUrl target = false
    /\ outcome (net (log w) (mainRequest target)) = inr pageResp
    /\ body pageResp = inr html
    /\ crawl net (collectCssLinks target (cheerio_load (body_text html)))
             (buildToProbe (discover target (cheerio_load (body_text html))) []) w1
       = (Ok toProbe, w2)
    /\ (List.length toProbe <= MAX_RESOURCES)%nat
    /\ let probes := buildProbes target pageResp (now w1 - now w)%Z toProbe in
       probeAll net probes w2 = (Ok results, w')
       /\ report = mkReport target
                     (Some (mkMainInfo (status pageResp) (ok pageResp)
                                       (headers_get pageResp "content-type")
                                       (Some (now w1 - now w)%Z)))
                     (slice 0 MAX_RESOURCES results)
                     noteText.
Proof.
  intros H target w1. subst w1. unfold afterRequest, mainRequest.
  unfold inspect in H.
  unfold tryCatch at 1, bind at 1 in H. rewrite callTrim_runs in H.
  subst target. unfold targetOf, urlText.
  destruct (Js.orEmpty bodyUrl) as [| | |s| |]; try discriminate H.
  set (target := Js.trim s) in *.
  destruct (String.eqb target ""); [discriminate H|].
  destruct (isBlockedUrl target); [discriminate H|].
  unfold bind at 1 in H. unfold dateNow at 1, gets in H.
  unfold bind at 1 in H. unfold tryCatch at 1 in H.
  unfold bind at 1 in H. unfold fetchWithTimeout at 1 in H.
  destruct (outcome (net (log w) (mkRequest GET target TIMEOUT))) as [e|pageResp];
    [discriminate H|].
  unfold bind at 1, text at 1, bind at 1, readBody at 1 in H.
  destruct (body pageResp) as [e|html] eqn:Hbody; [discriminate H|].
  unfold ret at 1 2 3, bind at 1, dateNow at 1, gets in H. cbn [now] in H.
  unfold bind at 1 in H.
  set (w1 := mkWorld (now w + took (net (log w) (mkRequest GET target TIMEOUT)))
                     (log w ++ [mkRequest GET target TIMEOUT])) in *.
  destruct (@crawl_length P net
              (collectCssLinks target (cheerio_load (body_text html)))
              (buildToProbe (discover target (cheerio_load (body_text html))) []) w1)
    as (toProbe & w2 & Hcrawl & Hlen).
  { apply buildToProbe_length. cbn. lia. }
  rewrite Hcrawl in H.
  unfold bind at 1 in H.
  destruct (probeAll_spec net
              (buildProbes target pageResp
                 (now w + took (net (log w) (mkRequest GET target TIMEOUT)) - now w)%Z
                 toProbe) w2)
    as (results & w3 & reqs & Hrun & _).
  rewrite Hrun in H.
  unfold bind, assemble, buildProbes, ret in H. cbn [pi_mainStatus pi_mainTimeMs
    ms_status ms_ok ms_contentType] in H.
  exists pageResp, html, toProbe, w2, results.
  injection H as <- <-.
  repeat split; try assumption; try reflexivity.
Qed.

Lemma firstn_Forall (A : Type) (Q : A -> Prop) (n : nat) (l : list A) :
  Forall Q l -> Forall Q (firstn n l).
Proof.
  intros H. rewrite <- (firstn_skipn n l) in H.
  now apply Forall_app in H.
Qed.

(** ** C2: the main document in the report *)

(** C2, as amended. In every report, [main] carries the status, the
    success flag and the content type of the first, un-probed GET of the
    target. The target is also the first item of the probe list: it gets a
    HEAD request from the probe, and its probe result, with initiator
    [document], is the first entry of [resources]. Every later entry of
    [resources] is a result for a URL that differs from the target. *)
Theorem main_is_probed_first (P : Platform) (net : Net) (bodyUrl : option Js.json)
        (w w' : World) (report : Report) :
  inspect net bodyUrl w = (Ok (Reply200 report), w') ->
  exists pageResp info first rest,
    outcome (net (log w) (mainRequest (targetOf bodyUrl))) = inr pageResp
    /\ main report = Some info
    /\ mi_status info = status pageResp
    /\ mi_ok info = ok pageResp
    /\ mi_contentType info = headers_get pageResp "content-type"
    /\ resources report = Probed first :: rest
    /\ pr_url first = targetOf bodyUrl
    /\ pr_initiator first = Some document
    /\ Forall (fun e => entry_url e <> targetOf bodyUrl) rest
    /\ In (headRequest (targetOf bodyUrl)) (log w').
Proof.
  intros H.
  destruct (inspect_report P net bodyUrl w w' report H)
    as (pageResp & html & toProbe & w2 & results & _ & Hget & _ & _ & _ & Hrun & Hrep).
  set (target := targetOf bodyUrl) in *.
  set (w1 := afterRequest net (mainRequest target) w) in *.
  unfold buildProbes in Hrun.
  set (p0 := mkProbeItem target document _ _) in *.
  set (others := map _ (slice 0 MAX_RESOURCES (filter _ toProbe))) in *.
  assert (Hothers : Forall (fun item => pi_url item <> target) others).
  { subst others.
    apply (proj2 (Forall_map _ (fun x => pi_url x <> target) _)).
    unfold slice. cbn [skipn].
    apply firstn_Forall. apply Forall_forall. intros t Ht.
    apply filter_In in Ht as [_ Ht]. cbn [pi_url].
    apply negb_true_iff in Ht. now apply String.eqb_neq in Ht. }
  destruct (probeAll_facts net (p0 :: others) w2 w' results Hrun)
    as (Hp & reqs & Hlog & _ & Hheads).
  inversion Hp as [|item e items entries He Hrest]; subst.
  apply probedInBatch_tag in He as (first & -> & Hu & Hi).
  assert (Hurls : Forall (fun e => entry_url e <> target) entries).
  { apply (proj1 (Forall_map entry_url (fun x => x <> target) _)).
    rewrite (probed_urls net others entries Hrest).
    now apply (proj2 (Forall_map pi_url (fun x => x <> target) _)). }
  exists pageResp.
  eexists. exists first, (firstn (MAX_RESOURCES - 1) entries).
  split; [exact Hget|].
  cbn [main resources mi_status mi_ok mi_contentType].
  repeat split; try assumption.
  - now apply firstn_Forall.
  - rewrite Hlog. apply in_or_app. right.
    inversion Hheads as [|x xs Hh _]; subst. exact Hh.
Qed.

Lemma main_is_probed_first_witness :
  exists report w',
    inspectSite Ref.sheetPage Ref.emptyCss = (Ok (Reply200 report), w')
    /\ exists first rest,
         resources report = Probed first :: rest
         /\ pr_url first = Ref.site
         /\ In (headRequest Ref.site) (log w').
Proof.
  unfold inspectSite.
  assert (E : exists report w',
             inspect (P := Ref.platform) (Ref.serving Ref.sheetPage Ref.emptyCss)
                     (Some (Js.JString Ref.site)) Ref.start
             = (Ok (Reply200 report), w'))
    by (eexists; eexists; vm_compute; reflexivity).
  destruct E as (report & w' & E).
  exists report, w'. split; [exact E|].
  destruct (main_is_probed_first Ref.platform
              (Ref.serving Ref.sheetPage Ref.emptyCss) (Some (Js.JString Ref.site))
              Ref.start w' report E)
    as (_ & _ & first & rest & _ & _ & _ & _ & _ & Hres & Hurl & _ & _ & Hlog).
  exists first, rest. repeat split; assumption.
Defined.

(** C2, as stated, fails. On a page with one stylesheet link the list
    [resources] starts with the target itself, and the probe sent a HEAD
    request to the target after the handler's own GET. *)
Lemma main_counterexample :
  Ref.reported (inspectSite Ref.sheetPage Ref.emptyCss)
  = Some [Ref.site; Ref.sheet]
  /\ Ref.requested (inspectSite Ref.sheetPage Ref.emptyCss)
     = [mainRequest Ref.site; mkRequest GET Ref.sheet CSS_FETCH_TIMEOUT;
        headRequest Ref.site; headRequest Ref.sheet].
Proof.
  split; vm_compute; reflexivity.
Qed.

(** ** C3: what is capped *)

Lemma buildToProbe_firstn (entries : JsMap.t Candidate) :
  forall toProbe : list Candidate,
    (List.length toProbe <= MAX_RESOURCES)%nat ->
    map c_url (buildToProbe entries toProbe)
    = (map c_url toProbe
       ++ firstn (MAX_RESOURCES - List.length toProbe) (map fst entries))%list.
Proof.
  induction entries as [|[u meta] rest IH]; intros toProbe H; cbn [buildToProbe map].
  - now rewrite firstn_nil, app_nil_r.
  - destruct (Nat.leb_spec MAX_RESOURCES (List.length toProbe)) as [Hfull|Hroom].
    + replace (MAX_RESOURCES - List.length toProbe)%nat with 0%nat by lia.
      now rewrite app_nil_r.
    + rewrite IH by (rewrite length_app; cbn [List.length]; lia).
      rewrite length_app, map_app. cbn [List.length map c_url fst].
      destruct (MAX_RESOURCES - List.length toProbe)%nat as [|k] eqn:Ek; [lia|].
      replace (MAX_RESOURCES - (List.length toProbe + 1))%nat with k by lia.
      cbn [firstn]. now rewrite <- app_assoc.
Qed.

Lemma addExtra_full (extra : list string) (toProbe : list Candidate) :
  (MAX_RESOURCES <= List.length toProbe)%nat -> addExtra extra toProbe = toProbe.
Proof.
  intros H. destruct extra as [|u rest]; cbn [addExtra]; [reflexivity|].
  apply Nat.leb_le in H. now rewrite H.
Qed.

(** C3, as amended. The map [resources] filled by the HTML discovery has
    no cap. The list [toProbe] has: it starts as the first
    [MAX_RESOURCES] entries of the map, the stylesheet crawl keeps it
    within [MAX_RESOURCES] and, once it is full, adds nothing and fetches
    nothing; and the [resources] array of a report has at most
    [MAX_RESOURCES] entries. *)
Theorem toProbe_is_capped (P : Platform) (net : Net)
        (entries : JsMap.t Candidate) (cssLinks : list (option string))
        (extra : list string) (toProbe : list Candidate) (w : World)
        (bodyUrl : option Js.json) (w0 w0' : World) (report : Report) :
  (List.length toProbe <= MAX_RESOURCES)%nat ->
  inspect net bodyUrl w0 = (Ok (Reply200 report), w0') ->
  (List.length (buildToProbe entries []) <= MAX_RESOURCES)%nat
  /\ map c_url (buildToProbe entries []) = firstn MAX_RESOURCES (map fst entries)
  /\ (List.length (addExtra extra toProbe) <= MAX_RESOURCES)%nat
  /\ (exists toProbe' w',
         crawl net cssLinks toProbe w = (Ok toProbe', w')
         /\ (List.length toProbe' <= MAX_RESOURCES)%nat
         /\ ((MAX_RESOURCES <= List.length toProbe)%nat ->
             toProbe' = toProbe /\ w' = w
             /\ addExtra extra toProbe = toProbe))
  /\ (List.length (resources report) <= MAX_RESOURCES)%nat.
Proof.
  intros Hlen Hrun.
  split; [apply buildToProbe_length; cbn [List.length]; lia|].
  split; [rewrite buildToProbe_firstn by (cbn [List.length]; lia);
          cbn [List.length map app]; now rewrite Nat.sub_0_r|].
  split; [now apply addExtra_length|].
  split.
  - destruct (crawl_length P net cssLinks toProbe w Hlen)
      as (toProbe' & w' & Hc & Hl).
    exists toProbe', w'. split; [exact Hc|]. split; [exact Hl|].
    intros Hfull. rewrite crawl_full in Hc by assumption.
    injection Hc as <- <-. repeat split. now apply addExtra_full.
  - destruct (inspect_report P net bodyUrl w0 w0' report Hrun)
      as (pageResp & html & tp & w2 & results & _ & _ & _ & _ & _ & _ & Hrep).
    rewrite Hrep. cbn [resources]. unfold slice.
    rewrite length_firstn. lia.
Qed.

Lemma toProbe_is_capped_witness :
  (List.length (buildToProbe (discover (P := Ref.platform) Ref.site
                                       (Ref.load (Ref.scriptsPage 201))) [])
   <= MAX_RESOURCES)%nat
  /\ exists report w',
       inspectSite (Ref.scriptsPage 201) Ref.emptyCss = (Ok (Reply200 report), w')
       /\ (List.length (resources report) <= MAX_RESOURCES)%nat.
Proof.
  unfold inspectSite.
  assert (E : exists report w',
             inspect (P := Ref.platform)
                     (Ref.serving (Ref.scriptsPage 201) Ref.emptyCss)
                     (Some (Js.JString Ref.site)) Ref.start
             = (Ok (Reply200 report), w'))
    by (eexists; eexists; vm_compute; reflexivity).
  destruct E as (report & w' & E).
  assert (H0 : (@List.length Candidate [] <= MAX_RESOURCES)%nat)
    by (unfold MAX_RESOURCES; cbn [List.length]; lia).
  pose proof (toProbe_is_capped Ref.platform
              (Ref.serving (Ref.scriptsPage 201) Ref.emptyCss)
              (discover (P := Ref.platform) Ref.site
                        (Ref.load (Ref.scriptsPage 201)))
              [] [] [] Ref.start (Some (Js.JString Ref.site)) Ref.start w' report H0 E)
    as (H1 & _ & _ & _ & H5).
  split; [exact H1|]. exists report, w'. split; [exact E | exact H5].
Defined.

(** C3, as stated, fails. A page with 201 scripts leaves 201 entries in
    the map [resources]: the HTML discovery does not stop at the cap. *)
Lemma cap_counterexample :
  MAX_RESOURCES = 200%nat
  /\ JsMap.size (discover (P := Ref.platform) Ref.site
                          (Ref.load (Ref.scriptsPage 201)))
     = 201%nat.
Proof.
  split; vm_compute; reflexivity.
Qed.

(** ** C1: where the safety filter is applied *)

Lemma fold_pushUrl_allowed (P : Platform) (A : Type)
      (f : JsMap.t Candidate -> A -> JsMap.t Candidate) (l : list A) :
  (forall m a, allAllowed m -> allAllowed (f m a)) ->
  forall m, allAllowed m -> allAllowed (fold_left f l m).
Proof.
  intros Hf. induction l as [|a l IH]; intros m Hm; cbn [fold_left]; auto.
Qed.

(** The HTML discovery lets no blocked URL into the map. *)
Lemma discover_allowed (P : Platform) (target : string) (doc : list Element) :
  allAllowed (discover target doc).
Proof.
  unfold discover, each.
  repeat (apply fold_pushUrl_allowed;
          [intros m el Hm;
           unfold pushAttr, pushImg, pushInlineStyle, pushStyleTag, pushAll;
           try (destruct (negb (Js.falsyString (attr el "srcset"))));
           repeat (apply fold_pushUrl_allowed;
                   [intros; now apply pushUrl_allowed|]);
           try (now apply pushUrl_allowed); assumption|]).
  constructor.
Qed.

(** Every request of the crawl is a GET, with the stylesheet time-out, of
    a URL that passed the filter. *)
Lemma crawl_requests (P : Platform) (net : Net) (cssLinks : list (option string)) :
  forall (toProbe toProbe' : list Candidate) (w w' : World),
    crawl net cssLinks toProbe w = (Ok toProbe', w') ->
    exists more,
      log w' = (log w ++ more)%list
      /\ Forall (fun rq => rq_method rq = GET
                           /\ rq_timeout rq = CSS_FETCH_TIMEOUT
                           /\ isBlockedUrl (rq_url rq) = false) more.
Proof.
  induction cssLinks as [|cssUrl rest IH]; intros toProbe toProbe' w w' H;
    cbn [crawl] in H.
  - injection H as _ <-. exists []. now rewrite app_nil_r.
  - destruct (Js.falsyString cssUrl || (MAX_RESOURCES <=? List.length toProbe)%nat).
    + injection H as _ <-. exists []. now rewrite app_nil_r.
    + destruct (isBlockedUrl (Js.toUSVString cssUrl)) eqn:Hb; [now apply IH in H|].
      unfold bind, tryCatch, fetchWithTimeout, text, readBody, bind, ret, throw in H.
      set (rq := mkRequest GET (Js.toUSVString cssUrl) CSS_FETCH_TIMEOUT) in *.
      assert (Hstep : forall tp,
                 crawl net rest tp
                       (mkWorld (now w + took (net (log w) rq)) (log w ++ [rq]))
                 = (Ok toProbe', w') ->
                 exists more,
                   log w' = (log w ++ more)%list
                   /\ Forall (fun rq => rq_method rq = GET
                                        /\ rq_timeout rq = CSS_FETCH_TIMEOUT
                                        /\ isBlockedUrl (rq_url rq) = false) more).
      { intros tp Hc. apply IH in Hc as (more & Hlog & Hall).
        exists (rq :: more). cbn [log] in Hlog. rewrite <- app_assoc in Hlog.
        split; [exact Hlog|]. constructor; [|exact Hall].
        repeat split. exact Hb. }
      destruct (outcome (net (log w) rq)) as [e|r]; [now apply Hstep in H|].
      destruct (ok r); [|now apply Hstep in H].
      destruct (body r) as [e|cssText]; now apply Hstep in H.
Qed.

(** C1, at the failing input. The page at [Ref.site] links the stylesheet
    [Ref.sheet], whose text refers to [Ref.admin], a URL on 127.0.0.1. The
    filter rejects that URL, yet the crawl puts it in [toProbe] unfiltered:
    the probe sends it a HEAD request and the report lists it. *)
Lemma blocked_css_url_is_probed :
  isBlockedUrl (P := Ref.platform) Ref.admin = true
  /\ findCssUrls (P := Ref.platform) Ref.adminCss Ref.sheet = [Ref.admin]
  /\ Ref.reported (inspectSite Ref.sheetPage Ref.adminCss)
     = Some [Ref.site; Ref.sheet; Ref.admin]
  /\ Ref.requested (inspectSite Ref.sheetPage Ref.adminCss)
     = [mainRequest Ref.site; mkRequest GET Ref.sheet CSS_FETCH_TIMEOUT;
        headRequest Ref.site; headRequest Ref.sheet; headRequest Ref.admin].
Proof.
  repeat split; vm_compute; reflexivity.
Qed.

(** ** C10: a stylesheet link that does not resolve *)

(** [pushUrl] and [findCssUrls] drop the one reference that did not
    resolve and go on. *)
Lemma unresolved_skipped (P : Platform) :
  (forall (m : JsMap.t Candidate) (i : Initiator), pushUrl m None i = m)
  /\ (forall (base : string) (captures : list string),
         flat_map (keepResolved base) captures
         = flat_map (keepResolved base)
                    (filter (fun c => match absoluteUrl base (Some c) with
                                      | Some _ => true
                                      | None => false
                                      end) captures)).
Proof.
  split; [reflexivity|].
  intros base captures.
  induction captures as [|c rest IH]; [reflexivity|].
  cbn [flat_map filter].
  destruct (absoluteUrl base (Some c)) as [u|] eqn:E.
  - cbn [flat_map]. now rewrite IH.
  - unfold keepResolved at 1. rewrite E. exact IH.
Qed.

(** C10, at the failing input. A [null] entry of [cssLinks] ends the crawl:
    whatever follows it is neither fetched nor scanned. With the
    unresolvable link first, the stylesheet [Ref.sheet] is never fetched by
    the crawl and its [url(/d.png)] is missing from the report; with the
    two links swapped it is fetched and [/d.png] is reported. *)
Lemma unresolved_link_ends_crawl :
  (forall (P : Platform) (net : Net) (rest : list (option string))
          (toProbe : list Candidate) (w : World),
      crawl net (None :: rest) toProbe w = (Ok toProbe, w))
  /\ collectCssLinks (P := Ref.platform) Ref.site (Ref.load Ref.twoSheetsPage)
     = [None; Some Ref.sheet]
  /\ Ref.reported (inspectSite Ref.twoSheetsPage Ref.pictureCss)
     = Some [Ref.site; Ref.sheet]
  /\ Ref.requested (inspectSite Ref.twoSheetsPage Ref.pictureCss)
     = [mainRequest Ref.site; headRequest Ref.site; headRequest Ref.sheet]
  /\ Ref.reported (inspectSite Ref.twoSheetsPageSwapped Ref.pictureCss)
     = Some [Ref.site; Ref.sheet; Ref.picture]
  /\ Ref.requested (inspectSite Ref.twoSheetsPageSwapped Ref.pictureCss)
     = [mainRequest Ref.site; mkRequest GET Ref.sheet CSS_FETCH_TIMEOUT;
        headRequest Ref.site; headRequest Ref.sheet; headRequest Ref.picture].
Proof.
  split; [reflexivity|].
  repeat split; vm_compute; reflexivity.
Qed.

(** ** The scenarios of the specification *)

Example mixed_page_candidates :
  discover (P := Ref.platform) "https://example.com/page" (Ref.load Ref.mixedPage)
  = [ ("https://example.com/a.png", mkCandidate "https://example.com/a.png" img);
      ("https://example.com/b.css", mkCandidate "https://example.com/b.css" stylesheet);
      ("https://example.com/c.png", mkCandidate "https://example.com/c.png" inline_style) ].
Proof. vm_compute. reflexivity. Qed.

Example nine_items_two_batches :
  map (@List.length nat) (batchesOf (seq 0 9)) = [8; 1]%nat.
Proof. reflexivity. Qed.

Example filter_examples :
  map (isBlockedUrl (P := Ref.platform))
      [ "https://example.com/"; "http://localhost/"; "http://127.0.0.1/";
        "https://printer.local/"; "http://10.0.0.8/x"; "http://192.168.1.1/";
        "http://169.254.1.1/"; "ftp://example.com/"; "not a url";
        "https://EXAMPLE.com/a" ]
  = [ false; true; true; true; true; true; true; true; true; false ].
Proof. vm_compute. reflexivity. Qed.

(** ** The CSS scan reports occurrences of the pattern *)

Lemma string_app_assoc (a b c : string) : (a ++ b) ++ c = a ++ b ++ c.
Proof. induction a as [|x a IH]; cbn; [reflexivity | now rewrite IH]. Qed.

Lemma string_length_app (a b : string) :
  String.length (a ++ b) = (String.length a + String.length b)%nat.
Proof. induction a as [|x a IH]; cbn; [reflexivity | now rewrite IH]. Qed.

Lemma string_app_nil_r (a : string) : a ++ "" = a.
Proof. induction a as [|x a IH]; cbn; [reflexivity | now rewrite IH]. Qed.

Lemma substring_prefix (pre rest : string) :
  substring 0 (String.length pre) (pre ++ rest) = pre.
Proof.
  induction pre as [|x pre IH]; cbn.
  - now destruct rest.
  - now rewrite IH.
Qed.

Lemma consumed_app (pre rest : string) : Regex.consumed (pre ++ rest) rest = pre.
Proof.
  unfold Regex.consumed. rewrite string_length_app.
  replace (String.length pre + String.length rest - String.length rest)%nat
    with (String.length pre) by lia.
  apply substring_prefix.
Qed.

Lemma star_sound (R : Type) (p : ascii -> bool) (k : string -> option R) (x : R) :
  forall s : string,
    Regex.star p s k = Some x ->
    exists pre rest, s = pre ++ rest /\ every p pre = true /\ k rest = Some x.
Proof.
  induction s as [|c t IH]; cbn [Regex.star]; intros H.
  - now exists "", "".
  - destruct (p c) eqn:Hp.
    + destruct (Regex.star p t k) as [y|] eqn:E.
      * injection H as ->. destruct (IH eq_refl) as (pre & rest & -> & Hall & Hk).
        exists (String c pre), rest. cbn [every]. rewrite Hp, Hall. now repeat split.
      * now exists "", (String c t).
    + now exists "", (String c t).
Qed.

(** What the matcher accepts is a match: the text it consumed matches the
    pattern, and the captures handed on are those of that match. *)
Lemma run_sound (R : Type) (r : Regex.re) :
  forall (s : string) (caps : list string)
         (k : string -> list string -> option R) (x : R),
    Regex.run r s caps k = Some x ->
    exists pre rest new,
      s = pre ++ rest /\ Matches r pre new /\ k rest (caps ++ new)%list = Some x.
Proof.
  induction r as [c|p|p|p|r1 IH1|r1 IH1 r2 IH2]; intros s caps k x H;
    cbn [Regex.run] in H.
  - destruct s as [|d t]; [discriminate H|].
    destruct (Ascii.eqb_spec c d) as [<-|]; [|discriminate H].
    exists (String c ""), t, []. rewrite app_nil_r.
    repeat split; [constructor | exact H].
  - apply star_sound in H as (pre & rest & -> & Hall & Hk).
    exists pre, rest, []. rewrite app_nil_r.
    repeat split; [now constructor | exact Hk].
  - destruct s as [|d t]; [discriminate H|].
    destruct (p d) eqn:Hp; [|discriminate H].
    apply star_sound in H as (pre & rest & -> & Hall & Hk).
    exists (String d pre), rest, []. rewrite app_nil_r.
    repeat split; [|exact Hk].
    constructor; [discriminate | cbn [every]; now rewrite Hp, Hall].
  - assert (Hnone : k s caps = Some x ->
                    exists pre rest new,
                      s = pre ++ rest /\ Matches (Regex.Opt p) pre new
                      /\ k rest (caps ++ new)%list = Some x).
    { intros Hk. exists "", s, []. rewrite app_nil_r.
      repeat split; [constructor | exact Hk]. }
    destruct s as [|d t]; [now apply Hnone|].
    destruct (p d) eqn:Hp; [|now apply Hnone].
    destruct (k t caps) as [y|] eqn:E; [|now apply Hnone].
    injection H as ->.
    exists (String d ""), t, []. rewrite app_nil_r.
    repeat split; [now constructor | exact E].
  - apply IH1 in H as (pre & rest & new & -> & Hm & Hk).
    rewrite consumed_app, <- app_assoc in Hk.
    exists pre, rest, (new ++ [pre])%list.
    repeat split; [now constructor | exact Hk].
  - apply IH1 in H as (pre1 & rest1 & new1 & -> & Hm1 & Hk).
    apply IH2 in Hk as (pre2 & rest2 & new2 & -> & Hm2 & Hk2).
    rewrite <- app_assoc in Hk2.
    exists (pre1 ++ pre2), rest2, (new1 ++ new2)%list.
    rewrite string_app_assoc.
    repeat split; [now constructor | exact Hk2].
Qed.

Lemma matchHere_sound (r : Regex.re) (s rest : string) (caps : list string) :
  Regex.matchHere r s = Some (rest, caps) ->
  exists occ, s = occ ++ rest /\ Matches r occ caps.
Proof.
  unfold Regex.matchHere. intros H.
  apply run_sound in H as (pre & rest' & new & -> & Hm & Hk).
  cbn [app] in Hk. injection Hk as <- <-. now exists pre.
Qed.

Lemma cssUrlRe_shape (occ : string) (caps : list string) :
  Matches cssUrlRe occ caps ->
  exists capture, caps = [capture] /\ cssUrlOccurrence occ capture.
Proof.
  cbv [cssUrlRe Regex.lit]. intros H.
  repeat match goal with
         | H : Matches (Regex.Seq _ _) _ _ |- _ => inversion H; subst; clear H
         | H : Matches (Regex.Chr _) _ _ |- _ => inversion H; subst; clear H
         | H : Matches (Regex.Group _) _ _ |- _ => inversion H; subst; clear H
         | H : Matches (Regex.Star _) _ _ |- _ => inversion H; subst; clear H
         | H : Matches (Regex.Plus _) _ _ |- _ => inversion H; subst; clear H
         end.
  assert (Hq : forall q caps,
             Matches (Regex.Opt isQuote) q caps -> caps = [] /\ quoteOrNothing q).
  { intros q caps Hm. inversion Hm; subst; split; try reflexivity.
    - now left.
    - right. now eexists. }
  apply Hq in H6 as [-> Hq1]. apply Hq in H8 as [-> Hq2].
  exists text6. split; [reflexivity|].
  exists text4, text5, text7, text8. now repeat split.
Qed.

(** Every capture of the scan is the group of an occurrence of the
    pattern in the text. *)
Lemma execAll_sound (r : Regex.re) (fuel : nat) :
  forall (s capture : string),
    In capture (Regex.execAll fuel r s) ->
    exists before occ after caps,
      s = before ++ occ ++ after /\ Matches r occ caps
      /\ capture = nth 0 caps "".
Proof.
  induction fuel as [|fuel IH]; intros s capture H; cbn [Regex.execAll] in H;
    [contradiction|].
  destruct (Regex.matchHere r s) as [[rest caps]|] eqn:E.
  - apply matchHere_sound in E as (occ & -> & Hm).
    destruct H as [<- | H].
    + now exists "", occ, rest, caps.
    + apply IH in H as (before & occ' & after & caps' & -> & Hm' & ->).
      exists (occ ++ before), occ', after, caps'.
      rewrite string_app_assoc. now repeat split.
  - destruct s as [|c t]; [contradiction|].
    apply IH in H as (before & occ' & after & caps' & -> & Hm' & ->).
    now exists (String c before), occ', after, caps'.
Qed.

Lemma cssUrlOccurrence_length (occ capture : string) :
  cssUrlOccurrence occ capture -> (6 <= String.length occ)%nat.
Proof.
  intros (ws1 & q1 & q2 & ws2 & -> & _ & _ & Hne & _).
  repeat (rewrite string_length_app || cbn [String.length append]).
  repeat rewrite string_length_app.
  destruct capture; [contradiction|]. cbn [String.length]. lia.
Qed.

Lemma execAll_count (fuel : nat) :
  forall s : string,
    (6 * List.length (Regex.execAll fuel cssUrlRe s) <= String.length s)%nat.
Proof.
  induction fuel as [|fuel IH]; intros s; cbn [Regex.execAll List.length]; [lia|].
  destruct (Regex.matchHere cssUrlRe s) as [[rest caps]|] eqn:E.
  - apply matchHere_sound in E as (occ & -> & Hm).
    apply cssUrlRe_shape in Hm as (capture & _ & Hocc).
    apply cssUrlOccurrence_length in Hocc.
    rewrite string_length_app. cbn [List.length]. specialize (IH rest). lia.
  - destruct s as [|c t]; cbn [List.length String.length]; [lia|].
    specialize (IH t). lia.
Qed.

Lemma keepResolved_length (P : Platform) (base : string) (captures : list string) :
  (List.length (flat_map (keepResolved base) captures) <= List.length captures)%nat.
Proof.
  induction captures as [|c rest IH]; cbn [flat_map List.length]; [lia|].
  rewrite length_app.
  assert (List.length (keepResolved base c) <= 1)%nat.
  { unfold keepResolved. destruct (absoluteUrl base (Some c)) as [u|]; cbn; [|lia].
    destruct (String.eqb u ""); cbn; lia. }
  lia.
Qed.

(** X1. Every URL that [findCssUrls] returns is not empty and is the
    resolution, against the base, of the text captured in an occurrence
    of [url(] white space, optional quote, capture, optional quote, white
    space, [)] in the CSS text, where the capture is not empty and holds
    no quote and no closing parenthesis. *)
Theorem findCssUrls_sound (P : Platform) (cssText base u : string) :
  In u (findCssUrls cssText base) ->
  u <> ""
  /\ exists before occ after capture,
       cssText = before ++ occ ++ after
       /\ cssUrlOccurrence occ capture
       /\ absoluteUrl base (Some capture) = Some u.
Proof.
  unfold findCssUrls. intros H.
  apply in_flat_map in H as (capture & Hin & Hu).
  apply execAll_sound in Hin as (before & occ & after & caps & Htext & Hm & Hc).
  apply cssUrlRe_shape in Hm as (capture' & -> & Hocc).
  cbn [nth] in Hc. subst capture'.
  unfold keepResolved in Hu.
  destruct (absoluteUrl base (Some capture)) as [u'|] eqn:E; [|contradiction].
  destruct (String.eqb_spec u' "") as [|Hne]; [contradiction|].
  destruct Hu as [<- | []].
  split; [exact Hne|]. now exists before, occ, after, capture.
Qed.

Lemma findCssUrls_sound_witness :
  In "https://example.com/d.png"
     (findCssUrls (P := Ref.platform) Ref.pictureCss Ref.sheet)
  /\ exists before occ after capture,
       Ref.pictureCss = before ++ occ ++ after
       /\ cssUrlOccurrence occ capture
       /\ absoluteUrl (P := Ref.platform) Ref.sheet (Some capture)
          = Some "https://example.com/d.png".
Proof.
  assert (H : In "https://example.com/d.png"
                 (findCssUrls (P := Ref.platform) Ref.pictureCss Ref.sheet))
    by (vm_compute; left; reflexivity).
  split; [exact H|].
  exact (proj2 (findCssUrls_sound Ref.platform Ref.pictureCss Ref.sheet
                                  "https://example.com/d.png" H)).
Defined.

(** X2. A CSS text of [n] characters yields at most [n / 6] URLs: every
    occurrence of the pattern takes at least six characters and the scan
    never reads a character twice. An empty text yields none. *)
Theorem findCssUrls_bounded (P : Platform) (cssText base : string) :
  (6 * List.length (findCssUrls cssText base) <= String.length cssText)%nat.
Proof.
  unfold findCssUrls.
  pose proof (keepResolved_length P base
                (Regex.execAll (S (String.length cssText)) cssUrlRe cssText)).
  pose proof (execAll_count (S (String.length cssText)) cssText).
  lia.
Qed.

(** ** HTML discovery, as pushes in pass order *)

Lemma fold_left_flat_map (A B C : Type) (f : A -> C -> A) (g : B -> list C)
      (l : list B) :
  forall a : A,
    fold_left (fun a b => fold_left f (g b) a) l a = fold_left f (flat_map g l) a.
Proof.
  induction l as [|b l IH]; intros a; cbn [fold_left flat_map]; [reflexivity|].
  now rewrite fold_left_app, IH.
Qed.

Lemma fold_left_mapped (A B C : Type) (f : A -> C -> A) (g : B -> C) (l : list B) :
  forall a : A, fold_left (fun a b => f a (g b)) l a = fold_left f (map g l) a.
Proof.
  induction l as [|b l IH]; intros a; cbn [fold_left map]; [reflexivity | apply IH].
Qed.

Lemma fold_left_ext_eq (A B : Type) (f g : A -> B -> A) (l : list B) :
  (forall a b, f a b = g a b) ->
  forall a : A, fold_left f l a = fold_left g l a.
Proof.
  intros H. induction l as [|b l IH]; intros a; cbn [fold_left]; [reflexivity|].
  now rewrite H, IH.
Qed.

Lemma each_pushList (P : Platform) (sel : Element -> bool) (doc : list Element)
      (f : JsMap.t Candidate -> Element -> JsMap.t Candidate)
      (g : Element -> list (option string * Initiator)) :
  (forall m el, f m el = pushList m (g el)) ->
  forall m, each sel doc f m = pushList m (flat_map g (filter sel doc)).
Proof.
  intros H m. unfold each, pushList.
  rewrite <- fold_left_flat_map. apply fold_left_ext_eq. exact H.
Qed.

Lemma pushImg_pushList (P : Platform) (target : string) (m : JsMap.t Candidate)
      (el : Element) :
  pushImg target m el = pushList m (imgPushes target el).
Proof.
  unfold pushImg, imgPushes, pushList.
  destruct (negb (Js.falsyString (attr el "srcset"))); cbn [fold_left fst snd];
    [|reflexivity].
  now rewrite <- fold_left_mapped.
Qed.

Lemma pushAll_pushList (P : Platform) (i : Initiator) (m : JsMap.t Candidate)
      (urls : list string) :
  pushAll i m urls = pushList m (cssPushes i urls).
Proof.
  unfold pushAll, pushList, cssPushes. now rewrite <- fold_left_mapped.
Qed.

Lemma pushList_app (P : Platform) (m : JsMap.t Candidate)
      (xs ys : list (option string * Initiator)) :
  pushList m (xs ++ ys) = pushList (pushList m xs) ys.
Proof. unfold pushList. apply fold_left_app. Qed.

(** The eight passes of the handler are one run of [pushUrl] over the
    references of the page, pass after pass. *)
Lemma discover_pushes (P : Platform) (target : string) (doc : list Element) :
  discover target doc = pushList [] (pushes target doc).
Proof.
  unfold discover, pushes.
  rewrite !pushList_app.
  rewrite (each_pushList P sel_style doc (pushStyleTag target)
             (fun el => cssPushes style_tag (findCssUrls (el_html el) target)))
    by (intros; apply pushAll_pushList).
  rewrite (each_pushList P sel_style_attr doc (pushInlineStyle target)
             (fun el => cssPushes inline_style
                          (findCssUrls (Js.toUSVString (Js.or (attr el "style") (Some "")))
                                       target)))
    by (intros; apply pushAll_pushList).
  rewrite (each_pushList P sel_media doc (pushAttr target "src" media)
             (attrPush target "src" media)) by reflexivity.
  rewrite (each_pushList P sel_iframe doc (pushAttr target "src" iframe)
             (attrPush target "src" iframe)) by reflexivity.
  rewrite (each_pushList P sel_link_preload_href doc (pushAttr target "href" preload)
             (attrPush target "href" preload)) by reflexivity.
  rewrite (each_pushList P sel_link_stylesheet doc (pushAttr target "href" stylesheet)
             (attrPush target "href" stylesheet)) by reflexivity.
  rewrite (each_pushList P sel_img doc (pushImg target) (imgPushes target))
    by (intros; apply pushImg_pushList).
  rewrite (each_pushList P sel_script_src doc (pushAttr target "src" script)
             (attrPush target "src" script)) by reflexivity.
  reflexivity.
Qed.

Lemma has_get (V : Type) (m : JsMap.t V) (k : string) :
  JsMap.has m k = match JsMap.get m k with Some _ => true | None => false end.
Proof.
  induction m as [|[k' v] m IH]; cbn [JsMap.has JsMap.get]; [reflexivity|].
  destruct (String.eqb k' k); [reflexivity | exact IH].
Qed.

Lemma has_In (V : Type) (m : JsMap.t V) (k : string) :
  JsMap.has m k = true <-> In k (map fst m).
Proof.
  induction m as [|[k' v] m IH]; cbn [JsMap.has map fst In].
  - split; [discriminate | contradiction].
  - rewrite orb_true_iff, String.eqb_eq, IH. reflexivity.
Qed.

Lemma get_app (V : Type) (m more : JsMap.t V) (k : string) :
  JsMap.get (m ++ more)%list k
  = match JsMap.get m k with Some v => Some v | None => JsMap.get more k end.
Proof.
  induction m as [|[k' v] m IH]; cbn [app JsMap.get]; [reflexivity|].
  destruct (String.eqb k' k); [reflexivity | exact IH].
Qed.

Lemma get_In (V : Type) (m : JsMap.t V) (k : string) (v : V) :
  JsMap.get m k = Some v -> In (k, v) m.
Proof.
  induction m as [|[k' v'] m IH]; cbn [JsMap.get In]; [discriminate|].
  destruct (String.eqb_spec k' k) as [->|].
  - intros [= ->]. now left.
  - intros H. right. now apply IH.
Qed.

(** [pushUrl] leaves the map as it is, or appends one entry for an
    accepted URL that was not there. *)
Lemma pushUrl_cases (P : Platform) (m : JsMap.t Candidate) (x : option string)
      (i : Initiator) :
  pushUrl m x i = m
  \/ exists u, x = Some u /\ accepted u = true /\ JsMap.has m u = false
               /\ pushUrl m x i = (m ++ [(u, mkCandidate u i)])%list.
Proof.
  unfold pushUrl, accepted.
  destruct x as [u|]; cbn [Js.falsyString Js.toUSVString]; [|now left].
  destruct (String.eqb u "") eqn:H1; [now left|].
  destruct (isBlockedUrl u) eqn:H2; [now left|].
  destruct (JsMap.has m u) eqn:Hh; cbn [negb]; [now left|].
  right. exists u. rewrite set_fresh by assumption.
  rewrite H1, H2. now repeat split.
Qed.

Lemma pushUrl_get (P : Platform) (m : JsMap.t Candidate) (x : option string)
      (i : Initiator) (u : string) :
  accepted u = true ->
  JsMap.get (pushUrl m x i) u
  = match JsMap.get m u with
    | Some c => Some c
    | None => match x with
              | Some v => if String.eqb v u then Some (mkCandidate u i) else None
              | None => None
              end
    end.
Proof.
  intros Hu.
  unfold pushUrl.
  destruct x as [v|]; cbn [Js.falsyString Js.toUSVString];
    [|now destruct (JsMap.get m u)].
  destruct (String.eqb_spec v u) as [->|Hne].
  - unfold accepted in Hu. apply andb_true_iff in Hu as [H1 H2].
    apply negb_true_iff in H1, H2. rewrite H1, H2.
    pose proof (has_get _ m u) as Hh.
    destruct (JsMap.has m u) eqn:Hhas; cbn [negb].
    + destruct (JsMap.get m u); [reflexivity | discriminate Hh].
    + rewrite set_fresh by exact Hhas. rewrite get_app.
      destruct (JsMap.get m u); [discriminate Hh|].
      cbn [JsMap.get]. now rewrite String.eqb_refl.
  - assert (Hkeep : JsMap.get m u
                    = match JsMap.get m u with Some c => Some c | None => None end)
      by now destruct (JsMap.get m u).
    destruct (String.eqb v ""); [exact Hkeep|].
    destruct (isBlockedUrl v); [exact Hkeep|].
    destruct (JsMap.has m v) eqn:Hh; cbn [negb]; [exact Hkeep|].
    rewrite set_fresh by assumption. rewrite get_app.
    destruct (JsMap.get m u); [reflexivity|].
    cbn [JsMap.get]. apply String.eqb_neq in Hne. now rewrite Hne.
Qed.

Lemma pushList_get (P : Platform) (xs : list (option string * Initiator)) (u : string) :
  accepted u = true ->
  forall m : JsMap.t Candidate,
    JsMap.get (pushList m xs) u
    = match JsMap.get m u with
      | Some c => Some c
      | None => option_map (mkCandidate u) (firstInitiator u xs)
      end.
Proof.
  intros Hu. induction xs as [|[x i] xs IH]; intros m.
  - cbn. now destruct (JsMap.get m u).
  - change (pushList m ((x, i) :: xs)) with (pushList (pushUrl m x i) xs).
    rewrite IH, (pushUrl_get P m x i u Hu). cbn [firstInitiator].
    destruct (JsMap.get m u); [reflexivity|].
    destruct x as [v|]; [|reflexivity].
    now destruct (String.eqb v u).
Qed.

Lemma pushUrl_wellFormed (P : Platform) (m : JsMap.t Candidate) (x : option string)
      (i : Initiator) :
  wellFormed m -> wellFormed (pushUrl m x i).
Proof.
  intros [Hnd Hall].
  destruct (pushUrl_cases P m x i) as [-> | (u & _ & Hu & Hh & ->)]; [now split|].
  split.
  - rewrite map_app. cbn [map fst]. apply NoDup_app; [assumption | | ].
    + constructor; [intros [] | constructor].
    + intros a Ha [<- | []]. apply has_In in Ha. congruence.
  - apply Forall_app. split; [assumption|].
    constructor; [now split | constructor].
Qed.

Lemma pushList_wellFormed (P : Platform) (xs : list (option string * Initiator)) :
  forall m, wellFormed m -> wellFormed (pushList m xs).
Proof.
  induction xs as [|[x i] xs IH]; intros m Hm; [exact Hm|].
  change (pushList m ((x, i) :: xs)) with (pushList (pushUrl m x i) xs).
  apply IH. now apply pushUrl_wellFormed.
Qed.

Lemma discover_wellFormed (P : Platform) (target : string) (doc : list Element) :
  wellFormed (discover target doc).
Proof.
  rewrite discover_pushes. apply pushList_wellFormed.
  split; constructor.
Qed.

(** X3. The map built by the HTML discovery holds no URL twice, each
    entry's candidate carries the URL it is keyed by, and no key is empty
    or rejected by the safety filter. *)
Theorem discover_invariant (P : Platform) (target : string) (doc : list Element) :
  NoDup (map fst (discover target doc))
  /\ Forall (fun e => c_url (snd e) = fst e
                      /\ fst e <> ""
                      /\ isBlockedUrl (fst e) = false)
            (discover target doc).
Proof.
  destruct (discover_wellFormed P target doc) as [Hnd Hall].
  split; [exact Hnd|].
  eapply Forall_impl; [|exact Hall].
  intros [k c] [Hk Ha]. cbn [fst snd] in *. unfold accepted in Ha.
  apply andb_true_iff in Ha as [H1 H2].
  apply negb_true_iff in H1, H2. apply String.eqb_neq in H1. now repeat split.
Qed.

(** X4. What the discovery records for a URL: nothing when the URL is
    empty or blocked or no pass pushes it; otherwise the candidate with the
    initiator of the first push of that URL, the passes taken in the
    handler's order (scripts, images with their srcset, stylesheets,
    preloads, iframes, media, inline styles, style elements). *)
Theorem discover_first_push_wins (P : Platform) (target : string)
        (doc : list Element) (u : string) :
  JsMap.get (discover target doc) u
  = if accepted u
    then option_map (mkCandidate u) (firstInitiator u (pushes target doc))
    else None.
Proof.
  destruct (accepted u) eqn:Hu.
  - rewrite discover_pushes, (pushList_get P _ u Hu). reflexivity.
  - destruct (JsMap.get (discover target doc) u) as [c|] eqn:E; [|reflexivity].
    apply get_In in E.
    destruct (discover_wellFormed P target doc) as [_ Hall].
    rewrite Forall_forall in Hall. apply Hall in E as [_ Ha].
    cbn [fst] in Ha. congruence.
Qed.

(** ** The handler's answers *)

(** What the handler reads as the URL: a missing or falsy [url] field
    reads as the empty text, a string as itself, and any other truthy
    value (a number, [true], an array, an object) as nothing. *)
Example url_field_examples :
  map urlText
      [ None; Some Js.JNull; Some (Js.JBool false); Some (Js.JNumber true);
        Some (Js.JString ""); Some (Js.JString " https://example.com/ ");
        Some (Js.JNumber false); Some (Js.JBool true); Some Js.JArray;
        Some Js.JObject ]
  = [ Some ""; Some ""; Some ""; Some ""; Some "";
      Some " https://example.com/ "; None; None; None; None ].
Proof. reflexivity. Qed.

(** X5. The handler always answers. When the [url] field of the body
    holds a truthy value that is not a string, the call of [trim] throws
    and the answer is 500 with the error Internal error, without a
    request. In every other case the answer is not 500: it is 400 without
    a request when the trimmed URL is empty or blocked; 502 after the one
    GET of the target when that request fails or its body cannot be read;
    and 200 with a report for that target otherwise. *)
Theorem inspect_answers (P : Platform) (net : Net) (bodyUrl : option Js.json)
        (w : World) :
  match urlText bodyUrl with
  | None =>
      exists detail,
        inspect net bodyUrl w = (Ok (Reply500 "Internal error" detail), w)
  | Some _ =>
      if String.eqb (targetOf bodyUrl) ""
      then inspect net bodyUrl w = (Ok (Reply400 "Missing url in body"), w)
      else if isBlockedUrl (targetOf bodyUrl)
      then inspect net bodyUrl w
           = (Ok (Reply400 "URL blocked (private or non-http(s) scheme)"), w)
      else
        match outcome (net (log w) (mainRequest (targetOf bodyUrl))) with
        | inl e =>
            inspect net bodyUrl w
            = (Ok (Reply502 "Failed to fetch target URL" (errorText e)),
               afterRequest net (mainRequest (targetOf bodyUrl)) w)
        | inr pageResp =>
            match body pageResp with
            | inl e =>
                inspect net bodyUrl w
                = (Ok (Reply502 "Failed to fetch target URL" (errorText e)),
                   afterRequest net (mainRequest (targetOf bodyUrl)) w)
            | inr html =>
                exists report w',
                  inspect net bodyUrl w = (Ok (Reply200 report), w')
                  /\ fetchedUrl report = targetOf bodyUrl
            end
        end
  end.
Proof.
  unfold inspect, targetOf, urlText.
  destruct (Js.orEmpty bodyUrl) as [| | |s| |];
    try (eexists; reflexivity).
  unfold mainRequest, afterRequest.
  unfold callTrim, bind, tryCatch, dateNow, gets, fetchWithTimeout, text, readBody,
    bind, ret, throw.
  set (target := Js.trim s).
  destruct (String.eqb target ""); [reflexivity|].
  destruct (isBlockedUrl target); [reflexivity|].
  destruct (outcome (net (log w) (mkRequest GET target TIMEOUT))) as [e|pageResp];
    [reflexivity|].
  destruct (body pageResp) as [e|html]; [reflexivity|].
  cbn [now log].
  match goal with
  | |- context [crawl net ?l ?t ?w1] =>
      destruct (crawl_length P net l t w1) as (toProbe & w2 & Hcrawl & _);
      [apply buildToProbe_length; cbn [List.length]; lia|];
      rewrite Hcrawl
  end.
  match goal with
  | |- context [probeAll net ?probes ?w2] =>
      destruct (probeAll_spec net probes w2) as (results & w3 & reqs & Hrun & _);
      rewrite Hrun
  end.
  unfold assemble, buildProbes.
  eexists. eexists. split; reflexivity.
Qed.

(** A number in the [url] field is answered 500. *)
Example number_as_url :
  exists detail,
    inspect (P := Ref.platform) Ref.unreachable (Some (Js.JNumber false)) Ref.start
    = (Ok (Reply500 "Internal error" detail), Ref.start).
Proof. eexists. reflexivity. Qed.

(** ** The stylesheet crawl, step by step *)

Lemma found_false (toProbe : list Candidate) (u : string) :
  found toProbe u = false -> ~ In u (map c_url toProbe).
Proof.
  unfold found. intros H Hin.
  apply in_map_iff in Hin as (c & <- & Hc).
  assert (existsb (fun x => String.eqb (c_url x) (c_url c)) toProbe = true).
  { apply existsb_exists. exists c. split; [exact Hc | apply String.eqb_refl]. }
  congruence.
Qed.

Lemma NoDup_snoc (A : Type) (l : list A) (a : A) :
  NoDup l -> ~ In a l -> NoDup (l ++ [a]).
Proof.
  intros Hl Ha. apply NoDup_app; [assumption | constructor; [intros [] | constructor] |].
  intros x Hx [<- | []]. contradiction.
Qed.

(** The inner loop appends candidates with initiator [css_url], taken
    from [extra], and keeps the URLs distinct. *)
Lemma addExtra_spec (extra : list string) :
  forall toProbe : list Candidate,
    exists more,
      addExtra extra toProbe = (toProbe ++ more)%list
      /\ Forall (fun c => c_initiator c = css_url /\ In (c_url c) extra) more
      /\ (NoDup (map c_url toProbe) -> NoDup (map c_url (toProbe ++ more))).
Proof.
  induction extra as [|u rest IH]; intros toProbe; cbn [addExtra].
  - exists []. rewrite app_nil_r. now repeat split.
  - destruct (MAX_RESOURCES <=? List.length toProbe)%nat.
    { exists []. rewrite app_nil_r. now repeat split. }
    destruct (found toProbe u) eqn:Hf; cbn [negb].
    + destruct (IH toProbe) as (more & -> & Hall & Hnd).
      exists more. split; [reflexivity|]. split; [|exact Hnd].
      eapply Forall_impl; [|exact Hall]. intros c [H1 H2]. split; [exact H1 | now right].
    + destruct (IH (toProbe ++ [mkCandidate u css_url])%list) as (more & -> & Hall & Hnd).
      exists (mkCandidate u css_url :: more). rewrite <- app_assoc.
      split; [reflexivity|]. split.
      * constructor; [split; [reflexivity | now left]|].
        eapply Forall_impl; [|exact Hall].
        intros c [H1 H2]. split; [exact H1 | now right].
      * intros Hn. cbn [app] in Hnd. rewrite <- app_assoc in Hnd. apply Hnd.
        rewrite map_app. cbn [map c_url].
        apply NoDup_snoc; [exact Hn | now apply found_false].
Qed.

Lemma fromStylesheet_later (P : Platform) (net : Net) (cssUrl : option string)
      (rest : list (option string)) (w : World) (rq : Request) (c : Candidate) :
  fromStylesheet net rest (mkWorld (now w + took (net (log w) rq)) (log w ++ [rq])) c ->
  fromStylesheet net (cssUrl :: rest) w c.
Proof.
  intros (Hi & u & before & r & cssText & Hin & Hb & Ho & Hok & Hbody & Hu).
  split; [exact Hi|].
  exists u, (rq :: before), r, cssText. cbn [log] in Ho.
  rewrite <- app_assoc in Ho.
  repeat split; try assumption. now right.
Qed.

Lemma fromStylesheet_skip (P : Platform) (net : Net) (cssUrl : option string)
      (rest : list (option string)) (w : World) (c : Candidate) :
  fromStylesheet net rest w c -> fromStylesheet net (cssUrl :: rest) w c.
Proof.
  intros (Hi & u & before & r & cssText & Hin & Hrest).
  split; [exact Hi|]. exists u, before, r, cssText. split; [now right | exact Hrest].
Qed.

(** What the crawl does to [toProbe] and to the log. *)
Lemma crawl_spec (P : Platform) (net : Net) (cssLinks : list (option string)) :
  forall (toProbe toProbe' : list Candidate) (w w' : World),
    crawl net cssLinks toProbe w = (Ok toProbe', w') ->
    exists more reqs,
      toProbe' = (toProbe ++ more)%list
      /\ log w' = (log w ++ reqs)%list
      /\ (List.length reqs <= List.length cssLinks)%nat
      /\ Forall (fun rq => rq_method rq = GET
                           /\ rq_timeout rq = CSS_FETCH_TIMEOUT
                           /\ isBlockedUrl (rq_url rq) = false
                           /\ In (Some (rq_url rq)) cssLinks) reqs
      /\ Forall (fromStylesheet net cssLinks w) more
      /\ (NoDup (map c_url toProbe) -> NoDup (map c_url toProbe')).
Proof.
  induction cssLinks as [|cssUrl rest IH]; intros toProbe toProbe' w w' H;
    cbn [crawl] in H.
  - injection H as <- <-. exists [], []. rewrite !app_nil_r.
    repeat split; auto.
  - destruct (Js.falsyString cssUrl || (MAX_RESOURCES <=? List.length toProbe)%nat)
      eqn:Hguard.
    { injection H as <- <-. exists [], []. rewrite !app_nil_r.
      repeat split; auto. cbn [List.length]. lia. }
    apply orb_false_iff in Hguard as [Hfalsy _].
    destruct cssUrl as [s|]; [|discriminate Hfalsy].
    cbn [Js.toUSVString] in H.
    destruct (isBlockedUrl s) eqn:Hb.
    { apply IH in H as (more & reqs & -> & Hlog & Hlen & Hreqs & Hmore & Hnd).
      exists more, reqs. repeat split; try assumption.
      - cbn [List.length]. lia.
      - eapply Forall_impl; [|exact Hreqs].
        intros rq (H1 & H2 & H3 & H4). repeat split; try assumption. now right.
      - eapply Forall_impl; [|exact Hmore].
        intros c Hc. now apply fromStylesheet_skip. }
    unfold bind, tryCatch, fetchWithTimeout, text, readBody, bind, ret, throw in H.
    set (rq := mkRequest GET s CSS_FETCH_TIMEOUT) in *.
    set (w1 := mkWorld (now w + took (net (log w) rq)) (log w ++ [rq])) in *.
    assert (Hstep : forall more0,
               Forall (fromStylesheet net (Some s :: rest) w) more0 ->
               (NoDup (map c_url toProbe) -> NoDup (map c_url (toProbe ++ more0))) ->
               crawl net rest (toProbe ++ more0)%list w1 = (Ok toProbe', w') ->
               exists more reqs,
                 toProbe' = (toProbe ++ more)%list
                 /\ log w' = (log w ++ reqs)%list
                 /\ (List.length reqs <= List.length (Some s :: rest))%nat
                 /\ Forall (fun rq => rq_method rq = GET
                                      /\ rq_timeout rq = CSS_FETCH_TIMEOUT
                                      /\ isBlockedUrl (rq_url rq) = false
                                      /\ In (Some (rq_url rq)) (Some s :: rest)) reqs
                 /\ Forall (fromStylesheet net (Some s :: rest) w) more
                 /\ (NoDup (map c_url toProbe) -> NoDup (map c_url toProbe'))).
    { intros more0 Hmore0 Hnd0 Hc.
      apply IH in Hc as (more & reqs & -> & Hlog & Hlen & Hreqs & Hmore & Hnd).
      exists (more0 ++ more)%list, (rq :: reqs).
      rewrite app_assoc. split; [reflexivity|].
      split. { rewrite Hlog. subst w1. cbn [log]. now rewrite <- app_assoc. }
      split. { cbn [List.length]. lia. }
      split.
      { constructor.
        - repeat split; [exact Hb | now left].
        - eapply Forall_impl; [|exact Hreqs].
          intros rq' (H1 & H2 & H3 & H4). repeat split; try assumption. now right. }
      split.
      { apply Forall_app. split; [exact Hmore0|].
        eapply Forall_impl; [|exact Hmore].
        intros c Hc. exact (fromStylesheet_later P net (Some s) rest w rq c Hc). }
      intros Hn. apply Hnd. now apply Hnd0. }
    assert (Hsame : crawl net rest toProbe w1 = (Ok toProbe', w') ->
                    exists more reqs,
                      toProbe' = (toProbe ++ more)%list
                      /\ log w' = (log w ++ reqs)%list
                      /\ (List.length reqs <= List.length (Some s :: rest))%nat
                      /\ Forall (fun rq => rq_method rq = GET
                                           /\ rq_timeout rq = CSS_FETCH_TIMEOUT
                                           /\ isBlockedUrl (rq_url rq) = false
                                           /\ In (Some (rq_url rq)) (Some s :: rest)) reqs
                      /\ Forall (fromStylesheet net (Some s :: rest) w) more
                      /\ (NoDup (map c_url toProbe) -> NoDup (map c_url toProbe'))).
    { intros Hc. apply (Hstep []).
      - constructor.
      - now rewrite app_nil_r.
      - now rewrite app_nil_r. }
    destruct (outcome (net (log w) rq)) as [e|r] eqn:Hout; [now apply Hsame|].
    destruct (ok r) eqn:Hok; [|now apply Hsame].
    destruct (body r) as [e|cssText] eqn:Hbody; [now apply Hsame|].
    destruct (addExtra_spec (findCssUrls (body_text cssText) s) toProbe)
      as (more0 & Hadd & Hall0 & Hnd0).
    rewrite Hadd in H. apply (Hstep more0); [|exact Hnd0|exact H].
    eapply Forall_impl; [|exact Hall0].
    intros c [Hi Hu]. split; [exact Hi|].
    exists s, [], r, cssText. rewrite app_nil_r.
    repeat split; try assumption. now left.
Qed.

(** X6. The crawl only appends to [toProbe]: what it had stays in place,
    and every candidate it adds has initiator [css_url] and a URL that
    [findCssUrls] found in the body of a successful response to the GET of
    a stylesheet link that passed the filter. It never adds a URL that is
    already there. *)
Theorem crawl_appends (P : Platform) (net : Net) (cssLinks : list (option string))
        (toProbe toProbe' : list Candidate) (w w' : World) :
  crawl net cssLinks toProbe w = (Ok toProbe', w') ->
  exists more,
    toProbe' = (toProbe ++ more)%list
    /\ Forall (fromStylesheet net cssLinks w) more
    /\ (NoDup (map c_url toProbe) -> NoDup (map c_url toProbe')).
Proof.
  intros H.
  apply crawl_spec in H as (more & reqs & Hmore & _ & _ & _ & Hfrom & Hnd).
  now exists more.
Qed.

Lemma crawl_appends_witness :
  exists toProbe' w' more,
    crawl (P := Ref.platform) (Ref.serving Ref.sheetPage Ref.pictureCss)
          [Some Ref.sheet] Ref.oneCandidate Ref.start
    = (Ok toProbe', w')
    /\ toProbe' = (Ref.oneCandidate ++ more)%list
    /\ Forall (fromStylesheet (P := Ref.platform)
                 (Ref.serving Ref.sheetPage Ref.pictureCss)
                 [Some Ref.sheet] Ref.start) more.
Proof.
  assert (E : exists toProbe' w',
             crawl (P := Ref.platform) (Ref.serving Ref.sheetPage Ref.pictureCss)
                   [Some Ref.sheet] Ref.oneCandidate Ref.start
             = (Ok toProbe', w'))
    by (eexists; eexists; vm_compute; reflexivity).
  destruct E as (toProbe' & w' & E).
  destruct (crawl_appends Ref.platform (Ref.serving Ref.sheetPage Ref.pictureCss)
              [Some Ref.sheet] Ref.oneCandidate toProbe' Ref.start w' E)
    as (more & Hmore & Hfrom & _).
  exists toProbe', w', more. now repeat split.
Defined.



(** ** What the probes send *)

(** X8. A HEAD request that fails is not followed by a GET: the probe
    sends that one request and reports the failure, with [methodTried]
    HEAD and [ok] false. *)
Theorem failed_head_not_retried (net : Net) (u : string) (w : World) (e : Exn) :
  outcome (net (log w) (headRequest u)) = inl e ->
  exists r w',
    probeResource net u w = (Ok r, w')
    /\ log w' = (log w ++ [headRequest u])%list
    /\ pr_methodTried r = Some HEAD
    /\ pr_ok r = false
    /\ pr_error r = Some (errorText e).
Proof.
  intros H.
  exists (probeOutcome net u w), (probeWorld net u w).
  split; [apply probeResource_runs|].
  unfold probeOutcome, probeWorld, finalResponse, afterRequest.
  rewrite H. cbn [log]. repeat split.
Qed.

Lemma failed_head_not_retried_witness :
  exists r w',
    probeResource Ref.unreachable Ref.resource Ref.start = (Ok r, w')
    /\ log w' = [headRequest Ref.resource]
    /\ pr_error r = Some "fetch failed".
Proof.
  destruct (failed_head_not_retried Ref.unreachable Ref.resource Ref.start
              (mkExn "fetch failed" "TypeError: fetch failed") eq_refl)
    as (r & w' & Hrun & Hlog & _ & _ & Herr).
  exists r, w'. repeat split; assumption.
Defined.


(** ** The probe list and the report *)

Lemma NoDup_firstn (A : Type) (n : nat) (l : list A) : NoDup l -> NoDup (firstn n l).
Proof.
  intros H. rewrite <- (firstn_skipn n l) in H. now apply NoDup_app_remove_r in H.
Qed.

Lemma NoDup_map_filter (A B : Type) (g : A -> B) (f : A -> bool) (l : list A) :
  NoDup (map g l) -> NoDup (map g (filter f l)).
Proof.
  induction l as [|a l IH]; cbn [map filter]; intros H; [constructor|].
  inversion H as [|x xs Hnotin Hnd]; subst.
  destruct (f a); cbn [map]; [|now apply IH].
  constructor; [|now apply IH].
  intros Hin. apply Hnotin.
  apply in_map_iff in Hin as (b & Hb & Hin).
  apply filter_In in Hin as [Hin _].
  apply in_map_iff. now exists b.
Qed.

Lemma In_firstn (A : Type) (n : nat) (l : list A) (a : A) :
  In a (firstn n l) -> In a l.
Proof.
  intros H. rewrite <- (firstn_skipn n l). apply in_or_app. now left.
Qed.

(** After the discovery and the crawl, [toProbe] holds no URL twice, and
    a blocked URL only with initiator [css_url]. *)
Lemma toProbe_after_crawl (P : Platform) (net : Net) (target : string)
      (doc : list Element) (cssLinks : list (option string))
      (toProbe : list Candidate) (w w' : World) :
  crawl net cssLinks (buildToProbe (discover target doc) []) w = (Ok toProbe, w') ->
  NoDup (map c_url toProbe)
  /\ Forall (fun c => isBlockedUrl (c_url c) = true -> c_initiator c = css_url)
            toProbe.
Proof.
  intros H.
  destruct (discover_wellFormed P target doc) as [Hnd Hall].
  assert (Hurls : map c_url (buildToProbe (discover target doc) [])
                  = firstn MAX_RESOURCES (map fst (discover target doc))).
  { rewrite buildToProbe_firstn by (cbn [List.length]; lia).
    cbn [List.length map app]. now rewrite Nat.sub_0_r. }
  apply crawl_spec in H as (more & reqs & -> & _ & _ & _ & Hfrom & Hkeep).
  split.
  - apply Hkeep. rewrite Hurls. now apply NoDup_firstn.
  - apply Forall_app. split.
    + apply Forall_forall. intros c Hc Hb.
      assert (Hin : In (c_url c) (map fst (discover target doc))).
      { apply (In_firstn _ MAX_RESOURCES). rewrite <- Hurls. now apply in_map. }
      apply in_map_iff in Hin as (e & He & Hin).
      rewrite Forall_forall in Hall. apply Hall in Hin as [_ Ha].
      rewrite He in Ha. unfold accepted in Ha.
      apply andb_true_iff in Ha as [_ Ha]. apply negb_true_iff in Ha. congruence.
    + eapply Forall_impl; [|exact Hfrom]. intros c [Hi _] _. exact Hi.
Qed.

Lemma buildProbes_props (P : Platform) (target : string) (pageResp : Response)
      (mainTime : Z) (toProbe : list Candidate) :
  isBlockedUrl target = false ->
  NoDup (map c_url toProbe) ->
  Forall (fun c => isBlockedUrl (c_url c) = true -> c_initiator c = css_url) toProbe ->
  let probes := buildProbes target pageResp mainTime toProbe in
  NoDup (map pi_url probes)
  /\ Forall (fun item => isBlockedUrl (pi_url item) = true
                         -> pi_initiator item = css_url) probes
  /\ (List.length probes <= MAX_RESOURCES + 1)%nat.
Proof.
  intros Ht Hnd Hall probes. subst probes. unfold buildProbes, slice.
  rewrite Nat.sub_0_r. cbn [skipn map pi_url List.length].
  rewrite map_map. cbn [pi_url].
  set (others := firstn MAX_RESOURCES
                   (filter (fun t => negb (String.eqb (c_url t) target)) toProbe)).
  assert (Hin : forall c, In c others ->
                  In c toProbe /\ c_url c <> target).
  { intros c Hc. apply In_firstn in Hc. apply filter_In in Hc as [Hc Hne].
    split; [exact Hc|]. apply negb_true_iff in Hne. now apply String.eqb_neq. }
  split.
  - constructor.
    + intros Hx. apply in_map_iff in Hx as (c & Hc & Hx).
      apply Hin in Hx as [_ Hne]. contradiction.
    + subst others. rewrite <- firstn_map. apply NoDup_firstn.
      now apply NoDup_map_filter.
  - split.
    + constructor; [cbn [pi_url]; congruence|].
      apply Forall_map. cbn [pi_url pi_initiator].
      apply Forall_forall. intros c Hc. apply Hin in Hc as [Hc _].
      rewrite Forall_forall in Hall. now apply Hall.
    + rewrite length_map. subst others. rewrite length_firstn. lia.
Qed.

Lemma entries_like_items (P : Platform) (items : list ProbeItem) :
  forall entries : list ResultEntry,
    map (fun e => (entry_url e, entry_initiator e)) entries
    = map (fun item => (pi_url item, Some (pi_initiator item))) items ->
    Forall (fun item => isBlockedUrl (pi_url item) = true
                        -> pi_initiator item = css_url) items ->
    Forall (fun e => exists info i,
                       e = Probed info
                       /\ pr_initiator info = Some i
                       /\ (isBlockedUrl (pr_url info) = true -> i = css_url))
           entries.
Proof.
  induction items as [|item rest IH]; intros entries Htags Hitems;
    destruct entries as [|e entries]; try discriminate Htags; [constructor|].
  cbn [map] in Htags. injection Htags as Hu Hi Hrest.
  inversion Hitems as [|x xs Hitem Hitems']; subst.
  constructor; [|now apply IH].
  destruct e as [info|url err]; [|discriminate Hi].
  cbn [entry_url entry_initiator] in Hu, Hi.
  exists info, (pi_initiator item). rewrite Hu. now repeat split.
Qed.

(** X10. Every entry of a report's [resources] is a probe result that
    carries an initiator (the object built by the catch of the batch loop
    never occurs), and an entry whose URL the safety filter rejects has the
    initiator [css_url]: a blocked URL reaches the report only through a
    crawled stylesheet. *)
Theorem blocked_only_from_css (P : Platform) (net : Net) (bodyUrl : option Js.json)
        (w w' : World) (report : Report) :
  inspect net bodyUrl w = (Ok (Reply200 report), w') ->
  Forall (fun e => exists info i,
                     e = Probed info
                     /\ pr_initiator info = Some i
                     /\ (isBlockedUrl (pr_url info) = true -> i = css_url))
         (resources report).
Proof.
  intros H.
  destruct (inspect_report P net bodyUrl w w' report H)
    as (pageResp & html & toProbe & w2 & results
        & Ht & _ & _ & Hcrawl & _ & Hrun & Hrep).
  apply toProbe_after_crawl in Hcrawl as [Hnd Hall].
  set (target := targetOf bodyUrl) in *.
  set (w1 := afterRequest net (mainRequest target) w) in *.
  destruct (buildProbes_props P target pageResp (now w1 - now w)%Z toProbe Ht Hnd Hall)
    as (_ & Hitems & _).
  apply probeAll_facts in Hrun as [Hp _].
  rewrite Hrep. cbn [resources]. unfold slice. cbn [skipn].
  apply firstn_Forall.
  apply (entries_like_items P (buildProbes target pageResp (now w1 - now w)%Z toProbe));
    [exact (probed_tags net _ results Hp) | exact Hitems].
Qed.

Lemma blocked_only_from_css_witness :
  exists report w',
    inspectSite Ref.sheetPage Ref.adminCss = (Ok (Reply200 report), w')
    /\ Forall (fun e => exists info i,
                          e = Probed info
                          /\ pr_initiator info = Some i
                          /\ (isBlockedUrl (P := Ref.platform) (pr_url info) = true
                              -> i = css_url))
              (resources report).
Proof.
  unfold inspectSite.
  assert (E : exists report w',
             inspect (P := Ref.platform) (Ref.serving Ref.sheetPage Ref.adminCss)
                     (Some (Js.JString Ref.site)) Ref.start
             = (Ok (Reply200 report), w'))
    by (eexists; eexists; vm_compute; reflexivity).
  destruct E as (report & w' & E).
  exists report, w'. split; [exact E|].
  exact (blocked_only_from_css Ref.platform
           (Ref.serving Ref.sheetPage Ref.adminCss) (Some (Js.JString Ref.site))
           Ref.start w' report E).
Defined.

(** X11. No URL is listed twice in a report's [resources]. *)
Theorem report_urls_distinct (P : Platform) (net : Net) (bodyUrl : option Js.json)
        (w w' : World) (report : Report) :
  inspect net bodyUrl w = (Ok (Reply200 report), w') ->
  NoDup (map entry_url (resources report)).
Proof.
  intros H.
  destruct (inspect_report P net bodyUrl w w' report H)
    as (pageResp & html & toProbe & w2 & results
        & Ht & _ & _ & Hcrawl & _ & Hrun & Hrep).
  apply toProbe_after_crawl in Hcrawl as [Hnd Hall].
  set (target := targetOf bodyUrl) in *.
  set (w1 := afterRequest net (mainRequest target) w) in *.
  destruct (buildProbes_props P target pageResp (now w1 - now w)%Z toProbe Ht Hnd Hall)
    as (Hdistinct & _ & _).
  apply probeAll_facts in Hrun as [Hp _].
  rewrite Hrep. cbn [resources]. unfold slice. cbn [skipn].
  rewrite <- firstn_map, (probed_urls net _ results Hp).
  now apply NoDup_firstn.
Qed.

Lemma report_urls_distinct_witness :
  exists report w',
    inspectSite Ref.twoSheetsPageSwapped Ref.pictureCss = (Ok (Reply200 report), w')
    /\ NoDup (map entry_url (resources report)).
Proof.
  unfold inspectSite.
  assert (E : exists report w',
             inspect (P := Ref.platform)
                     (Ref.serving Ref.twoSheetsPageSwapped Ref.pictureCss)
                     (Some (Js.JString Ref.site)) Ref.start
             = (Ok (Reply200 report), w'))
    by (eexists; eexists; vm_compute; reflexivity).
  destruct E as (report & w' & E).
  exists report, w'. split; [exact E|].
  exact (report_urls_distinct Ref.platform
           (Ref.serving Ref.twoSheetsPageSwapped Ref.pictureCss) (Some (Js.JString Ref.site))
           Ref.start w' report E).
Defined.

Lemma nth_In_firstn (A : Type) (d : A) (m : nat) :
  forall (n : nat) (l : list A),
    (n < m)%nat -> (n < List.length l)%nat -> In (nth n l d) (firstn m l).
Proof.
  induction m as [|m IH]; intros n l Hn Hl; [lia|].
  destruct l as [|a l]; [cbn in Hl; lia|].
  destruct n as [|n]; cbn [nth firstn]; [now left|].
  right. apply IH; cbn [List.length] in Hl; lia.
Qed.

Lemma NoDup_nth_firstn (A : Type) (d : A) :
  forall (n : nat) (l : list A),
    NoDup l -> (n < List.length l)%nat -> ~ In (nth n l d) (firstn n l).
Proof.
  induction n as [|n IH]; intros l Hnd Hl; [intros []|].
  destruct l as [|a l]; [cbn in Hl; lia|].
  inversion Hnd as [|x xs Hnotin Hnd']; subst.
  cbn [nth firstn]. intros [Heq | Hin].
  - apply Hnotin. rewrite Heq. apply nth_In. cbn [List.length] in Hl. lia.
  - revert Hin. apply IH; [assumption | cbn [List.length] in Hl; lia].
Qed.

(** X12. When the discovery finds [MAX_RESOURCES] or more URLs, none of
    the first [MAX_RESOURCES] being the target, the probe list holds the
    target and those [MAX_RESOURCES] URLs, one more than the report keeps:
    the last of them is sent its HEAD request, yet the report lists only
    the target and the first [MAX_RESOURCES - 1]. *)
Theorem full_list_drops_last (P : Platform) (net : Net) (bodyUrl : option Js.json)
        (w w' : World) (report : Report) (pageResp : Response) (html : Body) :
  inspect net bodyUrl w = (Ok (Reply200 report), w') ->
  outcome (net (log w) (mainRequest (targetOf bodyUrl))) = inr pageResp ->
  body pageResp = inr html ->
  (MAX_RESOURCES
   <=? JsMap.size (discover (targetOf bodyUrl)
                            (cheerio_load (body_text html))))%nat = true ->
  forallb (fun k => negb (String.eqb k (targetOf bodyUrl)))
          (firstn MAX_RESOURCES
                  (map fst (discover (targetOf bodyUrl)
                                     (cheerio_load (body_text html)))))
  = true ->
  let keys := map fst (discover (targetOf bodyUrl)
                                (cheerio_load (body_text html))) in
  let dropped := nth (MAX_RESOURCES - 1) keys "" in
  map entry_url (resources report)
  = targetOf bodyUrl :: firstn (MAX_RESOURCES - 1) keys
  /\ In (headRequest dropped) (log w')
  /\ ~ In dropped (map entry_url (resources report)).
Proof.
  intros H Hget Hbody Hsize Hother keys dropped.
  destruct (inspect_report P net bodyUrl w w' report H)
    as (pageResp' & html' & toProbe & w2 & results
        & Ht & Hget' & Hbody' & Hcrawl & _ & Hrun & Hrep).
  rewrite Hget in Hget'. injection Hget' as <-.
  rewrite Hbody in Hbody'. injection Hbody' as <-.
  set (target := targetOf bodyUrl) in *.
  set (w1 := afterRequest net (mainRequest target) w) in *.
  fold keys in Hother.
  apply Nat.leb_le in Hsize. unfold JsMap.size in Hsize.
  assert (Hkeys : (MAX_RESOURCES <= List.length keys)%nat)
    by (subst keys; now rewrite length_map).
  assert (Hpos : MAX_RESOURCES = S (MAX_RESOURCES - 1)) by (unfold MAX_RESOURCES; lia).
  set (tp0 := buildToProbe (discover target (cheerio_load (body_text html))) [])
    in *.
  assert (Hurls : map c_url tp0 = firstn MAX_RESOURCES keys).
  { subst tp0. rewrite buildToProbe_firstn by (cbn [List.length]; lia).
    cbn [List.length map app]. now rewrite Nat.sub_0_r. }
  assert (Hlen : List.length tp0 = MAX_RESOURCES).
  { rewrite <- (length_map c_url), Hurls, length_firstn. lia. }
  rewrite crawl_full in Hcrawl by lia.
  injection Hcrawl as <- <-.
  assert (Hfilter : filter (fun t => negb (String.eqb (c_url t) target)) tp0 = tp0).
  { apply forallb_filter_id. apply forallb_forall. intros t Hin.
    rewrite forallb_forall in Hother. apply Hother.
    rewrite <- Hurls. now apply in_map. }
  assert (Hprobes : map pi_url (buildProbes target pageResp (now w1 - now w)%Z tp0)
                    = target :: firstn MAX_RESOURCES keys).
  { unfold buildProbes, slice. rewrite Nat.sub_0_r. cbn [skipn map pi_url].
    rewrite Hfilter, firstn_all2 by lia.
    rewrite map_map. cbn [pi_url]. f_equal. exact Hurls. }
  destruct (probeAll_facts net _ w1 w' results Hrun)
    as (Hp & reqs & Hlog & _ & Hheads).
  assert (Hlist : map entry_url (resources report)
                  = target :: firstn (MAX_RESOURCES - 1) keys).
  { rewrite Hrep. cbn [resources]. unfold slice. cbn [skipn].
    rewrite Nat.sub_0_r, <- firstn_map, (probed_urls net _ results Hp), Hprobes.
    rewrite Hpos at 1. cbn [firstn]. f_equal.
    rewrite firstn_firstn. f_equal; lia. }
  assert (Hdin : In dropped (firstn MAX_RESOURCES keys)).
  { subst dropped. apply nth_In_firstn; lia. }
  split; [exact Hlist|]. split.
  - assert (Hin : In dropped
                     (map pi_url (buildProbes target pageResp (now w1 - now w)%Z tp0))).
    { rewrite Hprobes. now right. }
    apply in_map_iff in Hin as (item & <- & Hin).
    rewrite Hlog. apply in_or_app. right.
    rewrite Forall_forall in Hheads. now apply Hheads.
  - rewrite Hlist. intros [Heq | Hin].
    + rewrite forallb_forall in Hother. apply Hother in Hdin.
      apply negb_true_iff, String.eqb_neq in Hdin. congruence.
    + revert Hin. subst dropped. apply NoDup_nth_firstn; [|lia].
      subst keys. apply (discover_wellFormed P target (cheerio_load (body_text html))).
Qed.

Lemma full_list_drops_last_witness :
  exists report w',
    inspectSite (Ref.scriptsPage 201) Ref.emptyCss = (Ok (Reply200 report), w')
    /\ In (headRequest ("https://example.com/s" ++ Ref.letters 199)) (log w')
    /\ ~ In ("https://example.com/s" ++ Ref.letters 199)
            (map entry_url (resources report)).
Proof.
  unfold inspectSite.
  assert (E : exists report w',
             inspect (P := Ref.platform)
                     (Ref.serving (Ref.scriptsPage 201) Ref.emptyCss)
                     (Some (Js.JString Ref.site)) Ref.start
             = (Ok (Reply200 report), w'))
    by (eexists; eexists; vm_compute; reflexivity).
  destruct E as (report & w' & E).
  exists report, w'. split; [exact E|].
  pose proof (full_list_drops_last Ref.platform
                (Ref.serving (Ref.scriptsPage 201) Ref.emptyCss) (Some (Js.JString Ref.site))
                Ref.start w' report
                (mkResponse 200 [("content-type", "text/html")]
                            (inr (Ref.asciiBody (Ref.scriptsPage 201))))
                (Ref.asciiBody (Ref.scriptsPage 201)) E eq_refl eq_refl) as H.
  assert (H1 : (MAX_RESOURCES
                <=? JsMap.size (discover (P := Ref.platform) (targetOf (Some (Js.JString Ref.site)))
                                         (cheerio_load (Platform := Ref.platform)
                                                       (Ref.scriptsPage 201))))%nat
               = true) by (vm_compute; reflexivity).
  assert (H2 : forallb (fun k => negb (String.eqb k (targetOf (Some (Js.JString Ref.site)))))
                       (firstn MAX_RESOURCES
                          (map fst (discover (P := Ref.platform)
                                             (targetOf (Some (Js.JString Ref.site)))
                                             (cheerio_load (Platform := Ref.platform)
                                                           (Ref.scriptsPage 201)))))
               = true) by (vm_compute; reflexivity).
  destruct (H H1 H2) as (_ & Hhead & Hnot).
  assert (Hd : nth (MAX_RESOURCES - 1)
                   (map fst (discover (P := Ref.platform)
                                      (targetOf (Some (Js.JString Ref.site)))
                                      (cheerio_load (Platform := Ref.platform)
                                         (body_text
                                            (Ref.asciiBody (Ref.scriptsPage 201))))))
                   ""
               = "https://example.com/s" ++ Ref.letters 199)
    by (vm_compute; reflexivity).
  rewrite Hd in Hhead, Hnot. split; assumption.
Defined.





Lemma buildToProbe_entries (entries : JsMap.t Candidate) :
  forall toProbe : list Candidate,
    (List.length toProbe <= MAX_RESOURCES)%nat ->
    buildToProbe entries toProbe
    = (toProbe
       ++ firstn (MAX_RESOURCES - List.length toProbe)
                 (map (fun e => mkCandidate (fst e) (c_initiator (snd e))) entries))%list.
Proof.
  induction entries as [|[u meta] rest IH]; intros toProbe H; cbn [buildToProbe map].
  - now rewrite firstn_nil, app_nil_r.
  - destruct (Nat.leb_spec MAX_RESOURCES (List.length toProbe)) as [Hfull|Hroom].
    + replace (MAX_RESOURCES - List.length toProbe)%nat with 0%nat by lia.
      now rewrite app_nil_r.
    + rewrite IH by (rewrite length_app; cbn [List.length]; lia).
      rewrite length_app. cbn [List.length fst snd].
      destruct (MAX_RESOURCES - List.length toProbe)%nat as [|k] eqn:Ek; [lia|].
      replace (MAX_RESOURCES - (List.length toProbe + 1))%nat with k by lia.
      cbn [firstn]. now rewrite <- app_assoc.
Qed.

Lemma buildToProbe_discover (P : Platform) (target : string) (doc : list Element) :
  buildToProbe (discover target doc) []
  = firstn MAX_RESOURCES (map snd (discover target doc)).
Proof.
  rewrite buildToProbe_entries by (cbn [List.length]; lia).
  cbn [List.length app]. rewrite Nat.sub_0_r. f_equal.
  destruct (discover_wellFormed P target doc) as [_ Hall].
  apply map_ext_in. intros [k c] Hin.
  rewrite Forall_forall in Hall. apply Hall in Hin as [Hk _].
  cbn [fst snd] in *. destruct c as [u i]. cbn [c_url c_initiator] in *. now subst.
Qed.

(** X14. The order of a report. [resources] lists the target with
    initiator [document], then the candidates of the HTML discovery in the
    order they were first pushed, each with its recorded initiator, then
    the candidates the crawl took from stylesheets; candidates whose URL
    is the target's are left out, and the list is cut to [MAX_RESOURCES]
    entries. *)
Theorem report_order (P : Platform) (net : Net) (bodyUrl : option Js.json)
        (w w' : World) (report : Report) :
  inspect net bodyUrl w = (Ok (Reply200 report), w') ->
  exists pageResp html more,
    outcome (net (log w) (mainRequest (targetOf bodyUrl))) = inr pageResp
    /\ body pageResp = inr html
    /\ Forall (fromStylesheet net
                 (collectCssLinks (targetOf bodyUrl) (cheerio_load (body_text html)))
                 (afterRequest net (mainRequest (targetOf bodyUrl)) w)) more
    /\ map (fun e => (entry_url e, entry_initiator e)) (resources report)
       = firstn MAX_RESOURCES
           ((targetOf bodyUrl, Some document)
            :: map (fun c => (c_url c, Some (c_initiator c)))
                   (filter (fun c => negb (String.eqb (c_url c) (targetOf bodyUrl)))
                           (firstn MAX_RESOURCES
                                   (map snd (discover (targetOf bodyUrl)
                                                      (cheerio_load (body_text html))))
                            ++ more))).
Proof.
  intros H.
  destruct (inspect_report P net bodyUrl w w' report H)
    as (pageResp & html & toProbe & w2 & results
        & Ht & Hget & Hbody & Hcrawl & _ & Hrun & Hrep).
  set (target := targetOf bodyUrl) in *.
  set (w1 := afterRequest net (mainRequest target) w) in *.
  apply crawl_spec in Hcrawl as (more & reqs & Htp & _ & _ & _ & Hfrom & _).
  rewrite buildToProbe_discover in Htp.
  apply probeAll_facts in Hrun as [Hp _].
  exists pageResp, html, more.
  split; [exact Hget|]. split; [exact Hbody|]. split; [exact Hfrom|].
  rewrite Hrep. cbn [resources]. unfold slice. cbn [skipn].
  rewrite Nat.sub_0_r, <- firstn_map, (probed_tags net _ results Hp).
  unfold buildProbes, slice. rewrite Nat.sub_0_r. cbn [skipn map pi_url pi_initiator].
  rewrite map_map. cbn [pi_url pi_initiator]. rewrite <- Htp.
  assert (Hpos : MAX_RESOURCES = S (MAX_RESOURCES - 1)) by (unfold MAX_RESOURCES; lia).
  rewrite Hpos at 1 3. cbn [firstn]. f_equal.
  rewrite <- firstn_map, firstn_firstn. f_equal; lia.
Qed.

Lemma report_order_witness :
  exists report w',
    inspectSite Ref.sheetPage Ref.pictureCss = (Ok (Reply200 report), w')
    /\ exists more,
         map (fun e => (entry_url e, entry_initiator e)) (resources report)
         = firstn MAX_RESOURCES
             ((Ref.site, Some document)
              :: map (fun c => (c_url c, Some (c_initiator c)))
                     (filter (fun c => negb (String.eqb (c_url c) Ref.site))
                             (firstn MAX_RESOURCES
                                     (map snd (discover (P := Ref.platform) Ref.site
                                                        (Ref.load Ref.sheetPage)))
                              ++ more))).
Proof.
  unfold inspectSite.
  assert (E : exists report w',
             inspect (P := Ref.platform) (Ref.serving Ref.sheetPage Ref.pictureCss)
                     (Some (Js.JString Ref.site)) Ref.start
             = (Ok (Reply200 report), w'))
    by (eexists; eexists; vm_compute; reflexivity).
  destruct E as (report & w' & E).
  destruct (report_order Ref.platform (Ref.serving Ref.sheetPage Ref.pictureCss)
              (Some (Js.JString Ref.site)) Ref.start w' report E)
    as (pageResp & html & more & Hget & Hbody & _ & Hlist).
  exists report, w'. split; [exact E|]. exists more.
  assert (Hhtml : html = Ref.asciiBody Ref.sheetPage).
  { assert (Hp : pageResp = mkResponse 200 [("content-type", "text/html")]
                                       (inr (Ref.asciiBody Ref.sheetPage)))
      by (injection Hget as <-; reflexivity).
    rewrite Hp in Hbody. now injection Hbody as <-. }
  rewrite Hhtml in Hlist. exact Hlist.
Defined.

(** ** The value of [rel] is compared without regard to case *)

Example rel_ignores_case :
  let link := mkElement "link" [("rel", "Stylesheet"); ("href", "/b.css")] "" in
  discover (P := Ref.platform) Ref.site [link]
  = [(Ref.sheet, mkCandidate Ref.sheet stylesheet)]
  /\ collectCssLinks (P := Ref.platform) Ref.site [link] = [Some Ref.sheet]
  /\ sel_link_preload_href
       (mkElement "link" [("rel", "PRELOAD"); ("href", "/f.woff")] "") = true
  /\ sel_link_stylesheet
       (mkElement "link" [("rel", "stylesheet alternate"); ("href", "/b.css")] "")
     = false.
Proof. repeat split; vm_compute; reflexivity. Qed.

(** ** An element without the attribute a pass reads *)

(** [$(el).attr('src')] is [undefined] for an iframe without [src]; the
    URL constructor reads it as the text undefined. *)
Example iframe_without_src :
  discover (P := Ref.platform) Ref.site [mkElement "iframe" [] ""]
  = [ ("https://example.com/undefined",
       mkCandidate "https://example.com/undefined" iframe) ].
Proof. vm_compute. reflexivity. Qed.
